(** * Offline analysis of residual-gas-analyzer scans

    A shallow embedding of [offline-analysis/offline_analysis.py]
    (class [OfflineAnalysis]) together with the properties of its
    ingestion, run labelling, series extraction and gap compression.

    Numbers.  A Python float is modelled by the rational it stands for
    ([Q]); a pressure can moreover be the not-a-number marker, so
    pressures live in [float64 := nan | fin q].  The subtractions,
    additions and divisions of the extraction and gap-compression code
    round their exact result to the nearest double ([round64]).

    Exceptions.  Python code that can raise returns a [result]; a raised
    exception ends the computation, as it does in the source, which has no
    [try] block anywhere. *)

From Stdlib Require Import List String Ascii Bool Arith ZArith QArith Qabs Qround Lia Lqa.
From Stdlib Require Import Sorting.Sorted Sorting.Permutation.
Import ListNotations.

Set Implicit Arguments.

(* ===================================================================== *)
(** ** Python exceptions as a result monad *)
(* ===================================================================== *)

Module Py.

Inductive exn : Set :=
| ValueError
| IndexError
| ZeroDivisionError.

Inductive result (A : Type) : Type :=
| Ok (a : A)
| Raise (e : exn).

Arguments Ok {A} a.
Arguments Raise {A} e.

Definition bind {A B : Type} (c : result A) (k : A -> result B) : result B :=
  match c with
  | Ok a => k a
  | Raise e => Raise e
  end.

Definition is_ok {A : Type} (c : result A) : bool :=
  match c with Ok _ => true | Raise _ => false end.

(** [l[i]] for a natural index: [IndexError] past the end. *)
Definition getitem {A : Type} (l : list A) (i : nat) : result A :=
  match nth_error l i with
  | Some a => Ok a
  | None => Raise IndexError
  end.

(** [for x in l: acc = body(acc, x)], stopping at the first exception. *)
Fixpoint for_each {A S : Type} (body : S -> A -> result S) (l : list A) (acc : S)
  : result S :=
  match l with
  | [] => Ok acc
  | x :: rest => bind (body acc x) (for_each body rest)
  end.

(** [enumerate(l)] *)
Fixpoint enumerate_from {A : Type} (n : nat) (l : list A) : list (nat * A) :=
  match l with
  | [] => []
  | x :: rest => (n, x) :: enumerate_from (S n) rest
  end.

Definition enumerate {A : Type} (l : list A) : list (nat * A) := enumerate_from 0 l.

End Py.

Import Py.

Declare Scope py_scope.
Notation "x <- c ;; k" := (Py.bind c (fun x => k))
  (at level 61, c at next level, right associativity) : py_scope.
Notation "' pat <- c ;; k" := (Py.bind c (fun x => match x with pat => k end))
  (at level 61, pat pattern, c at next level, right associativity) : py_scope.
Open Scope py_scope.

(* ===================================================================== *)
(** ** Floating-point values: rationals and not-a-number *)
(* ===================================================================== *)

Inductive float64 : Set :=
| nan
| fin (q : Q).

Definition is_nan (x : float64) : bool :=
  match x with nan => true | fin _ => false end.

(** [x != 0]: true for [nan], as every comparison with not-a-number but
    [!=] is false. *)
Definition fne0 (x : float64) : bool :=
  match x with
  | nan => true
  | fin q => negb (Qeq_bool q 0)
  end.

(** [x > y] *)
Definition fgt (x y : float64) : bool :=
  match x, y with
  | fin a, fin b => negb (Qle_bool a b)
  | _, _ => false
  end.

(** [x * c] *)
Definition fmul (x : float64) (c : Q) : float64 :=
  match x with
  | nan => nan
  | fin a => fin (a * c)
  end.

(** [x / y].  A zero denominator is reported as [ZeroDivisionError]: the
    model is stricter than numpy scalars, which would return an infinity. *)
Definition fdiv (x y : float64) : result float64 :=
  match y with
  | nan => Ok nan
  | fin b =>
      if Qeq_bool b 0 then Raise ZeroDivisionError
      else match x with
           | nan => Ok nan
           | fin a => Ok (fin (a / b))
           end
  end.

(** Boolean strict order on [Q]. *)
Definition Qlt_bool (a b : Q) : bool := negb (Qle_bool b a).

(* ===================================================================== *)
(** ** Double precision: rounding to the nearest binary64 value *)
(* ===================================================================== *)

(** Doubles are whole multiples of [2^-1074]; [round_units a b] is the
    double nearest to [a / b >= 0] (ties to the even significand), counted
    in these units.  A value of [2^k] units or more, and less than
    [2^(k+1)], keeps 53 significant bits: it is rounded to a multiple of
    [2^s] units with [s = k - 52], or to a whole number of units when
    [k <= 52], the subnormal range.  With [x] the floor of the value in
    units, [q] is its floor in multiples of [2^s] and [rest] what the
    value exceeds [q] multiples by, counted in [b]-ths of a unit.  What
    rounds to [2^1024] or more overflows: [2^2098] units stand for
    infinity. *)
Definition round_units (a b : Z) : Z :=
  let u := (a * 2 ^ 1074)%Z in
  let x := (u / b)%Z in
  let s := Z.max (Z.log2 x - 52) 0 in
  let q := Z.shiftr x s in
  let rest := (u - Z.shiftl (q * b) s)%Z in
  let n := match (2 * rest ?= Z.shiftl b s)%Z with
           | Lt => q
           | Gt => (q + 1)%Z
           | Eq => if Z.even q then q else (q + 1)%Z
           end in
  Z.min (Z.shiftl n s) (2 ^ 2098).

(** [n / d] in lowest terms, for [d] a power of two. *)
Fixpoint strip2 (n d : positive) : positive * positive :=
  match n, d with
  | xO n', xO d' => strip2 n' d'
  | _, _ => (n, d)
  end.

Definition dyadic (n : Z) (d : positive) : Q :=
  match n with
  | Z0 => 0
  | Zpos p => let '(p', d') := strip2 p d in Zpos p' # d'
  | Zneg p => let '(p', d') := strip2 p d in Zneg p' # d'
  end.

(** The double nearest to [x] (round to nearest, ties to even), in lowest
    terms; [2^1024] and [-2^1024] stand for the two infinities, which
    compare with the finite doubles as these two values do.  The sign of
    a zero is not kept. *)
Definition round64 (x : Q) : Q :=
  let b := Zpos (Qden x) in
  if (Qnum x <? 0)%Z
  then dyadic (- round_units (- Qnum x) b) (2 ^ 1074)
  else dyadic (round_units (Qnum x) b) (2 ^ 1074).

(** The value that stands for infinity. *)
Definition infinity64 : Q := inject_Z (2 ^ 1024).

(** [x] is a finite double, written in lowest terms. *)
Definition is_double (x : Q) : Prop := round64 x = x /\ Qabs x < infinity64.

(** [a - b], [a + b], [a / b] and [a * b] on doubles. *)
Definition sub64 (a b : Q) : Q := round64 (a - b).
Definition add64 (a b : Q) : Q := round64 (a + b).
Definition div64 (a b : Q) : Q := round64 (a / b).
Definition mul64 (a b : Q) : Q := round64 (a * b).

Arguments round64 x : simpl never.
Arguments sub64 a b : simpl never.
Arguments add64 a b : simpl never.
Arguments div64 a b : simpl never.
Arguments mul64 a b : simpl never.

(** [x * c] for a pressure [x], rounded. *)
Definition fmul64 (x : float64) (c : Q) : float64 :=
  match x with
  | nan => nan
  | fin a => fin (mul64 a c)
  end.

(* ===================================================================== *)
(** ** [datetime]: naive timestamps compared field by field *)
(* ===================================================================== *)

Module Datetime.

Local Open Scope Z_scope.

Record datetime : Set := mk_datetime {
  year : Z; month : Z; day : Z; hour : Z; minute : Z; second : Z
}.

Definition to_tuple (d : datetime) : list Z :=
  [year d; month d; day d; hour d; minute d; second d].

Fixpoint lex_compare (a b : list Z) : comparison :=
  match a, b with
  | [], [] => Eq
  | [], _ :: _ => Lt
  | _ :: _, [] => Gt
  | x :: a', y :: b' =>
      match Z.compare x y with
      | Eq => lex_compare a' b'
      | c => c
      end
  end.

Definition compare (a b : datetime) : comparison :=
  lex_compare (to_tuple a) (to_tuple b).

(** [a < b] and [a <= b] *)
Definition ltb (a b : datetime) : bool :=
  match compare a b with Lt => true | _ => false end.

Definition leb (a b : datetime) : bool :=
  match compare a b with Gt => false | _ => true end.

Definition eqb (a b : datetime) : bool :=
  match compare a b with Eq => true | _ => false end.

(** *** [datetime.strptime(s, '%Y%m%d_%H%M%S')]

    The format is compiled by the standard library into a regular
    expression whose fields are ordered alternatives; the first match in
    backtracking order is taken and must consume the whole string.  A
    field parser returns every way of reading the field, most preferred
    first. *)

Definition is_digit (c : ascii) : bool :=
  let n := nat_of_ascii c in (48 <=? n)%nat && (n <=? 57)%nat.

Definition digit_val (c : ascii) : Z := Z.of_nat (nat_of_ascii c - 48).

Definition field := string -> list (Z * string).

Definition one_digit (p : Z -> bool) : field := fun s =>
  match s with
  | String a r =>
      if is_digit a && p (digit_val a) then [(digit_val a, r)] else []
  | _ => []
  end.

Definition two_digits (p : Z -> Z -> bool) : field := fun s =>
  match s with
  | String a (String b r) =>
      if is_digit a && is_digit b && p (digit_val a) (digit_val b)
      then [(10 * digit_val a + digit_val b, r)] else []
  | _ => []
  end.

Definition alt (f g : field) : field := fun s => f s ++ g s.

Definition any1 : Z -> bool := fun _ => true.
Definition any2 : Z -> Z -> bool := fun _ _ => true.

(** [%Y]: [\d\d\d\d] *)
Definition field_Y : field := fun s =>
  match s with
  | String a (String b (String c (String d r))) =>
      if is_digit a && is_digit b && is_digit c && is_digit d
      then [(1000 * digit_val a + 100 * digit_val b + 10 * digit_val c + digit_val d, r)]
      else []
  | _ => []
  end.

(** [%m]: [1[0-2]|0[1-9]|[1-9]] *)
Definition field_m : field :=
  alt (two_digits (fun a b => (a =? 1) && (b <=? 2)))
 (alt (two_digits (fun a b => (a =? 0) && (1 <=? b)))
      (one_digit (fun a => 1 <=? a))).

(** [%d]: [3[01]|[12]\d|0[1-9]|[1-9]| [1-9]] *)
Definition field_d : field :=
  alt (two_digits (fun a b => (a =? 3) && (b <=? 1)))
 (alt (two_digits (fun a _ => (1 <=? a) && (a <=? 2)))
 (alt (two_digits (fun a b => (a =? 0) && (1 <=? b)))
 (alt (one_digit (fun a => 1 <=? a))
      (fun s => match s with
                | String " " r => one_digit (fun a => 1 <=? a) r
                | _ => []
                end)))).

(** [%H]: [2[0-3]|[0-1]\d|\d] *)
Definition field_H : field :=
  alt (two_digits (fun a b => (a =? 2) && (b <=? 3)))
 (alt (two_digits (fun a _ => a <=? 1))
      (one_digit any1)).

(** [%M]: [[0-5]\d|\d] *)
Definition field_M : field :=
  alt (two_digits (fun a _ => a <=? 5)) (one_digit any1).

(** [%S]: [6[0-1]|[0-5]\d|\d] *)
Definition field_S : field :=
  alt (two_digits (fun a b => (a =? 6) && (b <=? 1)))
 (alt (two_digits (fun a _ => a <=? 5))
      (one_digit any1)).

Definition literal (c : ascii) (s : string) : list string :=
  match s with
  | String a r => if Ascii.eqb a c then [r] else []
  | _ => []
  end.

(** All matches of the compiled pattern, in backtracking order, each
    with the text left over. *)
Definition matches (s : string) : list (datetime * string) :=
  flat_map (fun '(y, s1) =>
  flat_map (fun '(m, s2) =>
  flat_map (fun '(d, s3) =>
  flat_map (fun s4 =>
  flat_map (fun '(h, s5) =>
  flat_map (fun '(mi, s6) =>
  map (fun '(se, s7) => (mk_datetime y m d h mi se, s7))
      (field_S s6)) (field_M s5)) (field_H s4)) (literal "_" s3))
      (field_d s2)) (field_m s1)) (field_Y s).

Definition is_leap (y : Z) : bool :=
  ((y mod 4 =? 0) && negb (y mod 100 =? 0)) || (y mod 400 =? 0).

Definition days_in_month (y m : Z) : Z :=
  if m =? 2 then (if is_leap y then 29 else 28)
  else if (m =? 4) || (m =? 6) || (m =? 9) || (m =? 11) then 30
  else 31.

(** What the [datetime] constructor accepts. *)
Definition valid (d : datetime) : bool :=
  (1 <=? year d) && (year d <=? 9999) &&
  (1 <=? month d) && (month d <=? 12) &&
  (1 <=? day d) && (day d <=? days_in_month (year d) (month d)) &&
  (0 <=? hour d) && (hour d <=? 23) &&
  (0 <=? minute d) && (minute d <=? 59) &&
  (0 <=? second d) && (second d <=? 59).

Definition strptime (s : string) : result datetime :=
  match matches s with
  | [] => Raise ValueError                       (* does not match format *)
  | (d, rest) :: _ =>
      match rest with
      | EmptyString => if valid d then Ok d else Raise ValueError
      | _ => Raise ValueError                    (* unconverted data remains *)
      end
  end.

End Datetime.

Import Datetime.

(* ===================================================================== *)
(** ** [list.sort(key=...)]: a stable sort *)
(* ===================================================================== *)

Section StableSort.

Variable A : Type.
Variable lt : A -> A -> bool.

(** [insert x l] puts [x] in front of the first element that is not
    smaller than it, so that [x] stays ahead of its equals. *)
Fixpoint insert (x : A) (l : list A) : list A :=
  match l with
  | [] => [x]
  | y :: l' => if lt y x then y :: insert x l' else x :: l
  end.

Definition sort (l : list A) : list A := fold_right insert [] l.

End StableSort.

(* ===================================================================== *)
(** ** Scan files and the library calls that read them *)
(* ===================================================================== *)

(** A directory entry.  The text of a file is kept as its lines, each
    line as its comma-separated fields, each field as the number it
    denotes, or [None] when [float()] rejects it.  A blank line is [[]]. *)
Record dat_file : Type := mk_dat_file {
  file_name : string;
  file_lines : list (list (option Q))
}.

(** [s.split(sep)] for a one-character separator: never empty. *)
Fixpoint split (sep : ascii) (s : string) : list string :=
  match s with
  | EmptyString => [EmptyString]
  | String c r =>
      if Ascii.eqb c sep then EmptyString :: split sep r
      else match split sep r with
           | [] => [String c EmptyString]
           | h :: t => String c h :: t
           end
  end.

Definition endswith (s suffix : string) : bool :=
  let n := String.length s in
  let m := String.length suffix in
  (m <=? n)%nat && String.eqb (substring (n - m) m s) suffix.

(** A numpy array of rank one or two. *)
Inductive ndarray : Type :=
| Arr1 (v : list Q)
| Arr2 (rows : list (list Q)).

Fixpoint mapM {A B : Type} (f : A -> result B) (l : list A) : result (list B) :=
  match l with
  | [] => Ok []
  | x :: rest => y <- f x ;; ys <- mapM f rest ;; Ok (y :: ys)
  end.

Definition float_of_field (c : option Q) : result Q :=
  match c with
  | Some q => Ok q
  | None => Raise ValueError
  end.

Definition is_blank (line : list (option Q)) : bool :=
  match line with [] => true | _ => false end.

(** [np.loadtxt(path, delimiter=',', skiprows=1)]: the header line is
    dropped, blank lines are ignored, every field must be a number and
    every row must have as many fields as the first; the result is
    squeezed, so a single row or a single column gives a rank-one array. *)
Definition loadtxt (lines : list (list (option Q))) : result ndarray :=
  rows <- mapM (mapM float_of_field)
               (filter (fun l => negb (is_blank l)) (skipn 1 lines)) ;;
  match rows with
  | [] => Ok (Arr1 [])
  | r0 :: rest =>
      if forallb (fun r => (List.length r =? List.length r0)%nat) rest then
        match rest with
        | [] => Ok (Arr1 r0)
        | _ => if (List.length r0 =? 1)%nat
               then Ok (Arr1 (map (fun r => hd 0 r) rows))
               else Ok (Arr2 rows)
        end
      else Raise ValueError
  end.

(** [a[:, k]] *)
Definition column (a : ndarray) (k : nat) : result (list Q) :=
  match a with
  | Arr1 _ => Raise IndexError
  | Arr2 rows => mapM (fun r => getitem r k) rows
  end.

(** *** [scipy.interpolate.interp1d(x, y, bounds_error=False, fill_value=nan)]

    The knots are sorted by abscissa first (the default
    [assume_sorted=False]).  A query inside the knots' range is answered
    from the first segment that brackets it, with numpy's formula
    [slope * (x - x_lo) + y_lo]; a query outside gets the fill value. *)

Fixpoint np_interp (knots : list (Q * Q)) (x : Q) : Q :=
  match knots with
  | [] => 0
  | (x0, y0) :: rest =>
      match rest with
      | [] => y0
      | (x1, y1) :: _ =>
          if Qlt_bool x x1 then (y1 - y0) / (x1 - x0) * (x - x0) + y0
          else np_interp rest x
      end
  end.

Definition interp_eval (knots : list (Q * Q)) (x_new : list Q) : list float64 :=
  match knots with
  | [] => map (fun _ => nan) x_new
  | (x_first, _) :: _ =>
      let x_last := fst (last knots (x_first, 0)) in
      map (fun x => if Qlt_bool x x_first || Qlt_bool x_last x then nan
                    else fin (np_interp knots x)) x_new
  end.

Definition interp1d (x y : list Q) : result (list Q -> list float64) :=
  if negb (List.length x =? List.length y)%nat then Raise ValueError
  else if (List.length x <? 1)%nat then Raise ValueError
  else Ok (interp_eval (sort (fun a b => Qlt_bool (fst a) (fst b)) (combine x y))).

(* ===================================================================== *)
(** ** The [OfflineAnalysis] object *)
(* ===================================================================== *)

(** The two keys of [run_intervals]; a scan outside both runs carries
    Python's [None], here [None : option run_label]. *)
Inductive run_label : Set := control_run | xenon_run.

Record OfflineAnalysis : Type := mk_OfflineAnalysis {
  directory : list dat_file;
  times : list datetime;
  labels : list (option run_label);
  masses : list Q;
  interpolated_data : list (list float64);
  run_intervals : run_label -> datetime * datetime
}.

Definition default_run_intervals (l : run_label) : datetime * datetime :=
  match l with
  | control_run => (mk_datetime 2024 9 11 16 46 0, mk_datetime 2024 9 16 9 44 0)
  | xenon_run => (mk_datetime 2024 9 16 11 21 0, mk_datetime 2024 9 26 11 0 0)
  end.

Definition __init__ (dir : list dat_file) : OfflineAnalysis :=
  {| directory := dir; times := []; labels := []; masses := [];
     interpolated_data := []; run_intervals := default_run_intervals |}.

Definition _assign_run_label (self : OfflineAnalysis) (timestamp : datetime)
  : option run_label :=
  if leb (fst (run_intervals self control_run)) timestamp
     && leb timestamp (snd (run_intervals self control_run))
  then Some control_run
  else if leb (fst (run_intervals self xenon_run)) timestamp
          && leb timestamp (snd (run_intervals self xenon_run))
  then Some xenon_run
  else None.

(** [np.arange(start, stop, step)] *)
Definition arange (start stop step : Q) : list Q :=
  map (fun k => start + inject_Z (Z.of_nat k) * step)
      (seq 0 (Z.to_nat (Qceiling ((stop - start) / step)))).

Definition default_mass_grid : list Q := arange 1 (150 + (5 # 100)) (5 # 100).

(** ['_'.join(file.split('_')[2:]).split('.')[0]] *)
Definition time_str_of (file : string) : string :=
  hd EmptyString (split "." (String.concat "_" (skipn 2 (split "_" file)))).

Definition scan_record : Type := (datetime * list float64 * option run_label)%type.

(** The body of the loop over the data files: one [time_and_data] entry. *)
Definition ingest_file (self : OfflineAnalysis) (target_mass_grid : list Q)
  (file : dat_file) : result scan_record :=
  timestamp <- strptime (time_str_of (file_name file)) ;;
  let label := _assign_run_label self timestamp in
  file_data <- loadtxt (file_lines file) ;;
  file_masses <- column file_data 0 ;;
  file_pressures <- column file_data 1 ;;
  interp_func <- interp1d file_masses file_pressures ;;
  let interpolated_pressures := interp_func target_mass_grid in
  Ok (timestamp, interpolated_pressures, label).

Definition data_files_of (self : OfflineAnalysis) : list dat_file :=
  filter (fun f => endswith (file_name f) ".dat") (directory self).

(** [time_and_data] when the loop ends, in discovery order.  The loop
    also appends each vector to [self.interpolated_data]; the list is
    replaced as a whole once the loop is over, so on an object whose
    [interpolated_data] is still a list, as [__init__] leaves it, the
    appends leave no trace and are not modelled. *)
Definition ingest (self : OfflineAnalysis) (target_mass_grid : list Q)
  : result (list scan_record) :=
  for_each (fun time_and_data file =>
              r <- ingest_file self target_mass_grid file ;;
              Ok (time_and_data ++ [r]))
           (data_files_of self) [].

Definition sort_by_timestamp (time_and_data : list scan_record) : list scan_record :=
  sort (fun a b => ltb (fst (fst a)) (fst (fst b))) time_and_data.

Definition load_data (self : OfflineAnalysis) (target_mass_grid : option (list Q))
  : result OfflineAnalysis :=
  let grid := match target_mass_grid with
              | None => default_mass_grid
              | Some g => g
              end in
  time_and_data <- ingest self grid ;;
  let time_and_data := sort_by_timestamp time_and_data in
  match time_and_data with
  | [] => Raise ValueError          (* unpacking an empty zip *)
  | _ =>
      Ok {| directory := directory self;
            times := map (fun r => fst (fst r)) time_and_data;
            labels := map snd time_and_data;
            masses := grid;
            interpolated_data := map (fun r => snd (fst r)) time_and_data;
            run_intervals := run_intervals self |}
  end.

(** *** Nearest-point extraction *)

(** [np.argmin] on the list [x :: l]: the first position of the least
    value, with that value. *)
Fixpoint argmin_ne (x : Q) (l : list Q) : nat * Q :=
  match l with
  | [] => (O, x)
  | y :: rest =>
      let '(j, m) := argmin_ne y rest in
      if Qlt_bool m x then (S j, m) else (O, x)
  end.

Definition argmin (l : list Q) : result nat :=
  match l with
  | [] => Raise ValueError
  | x :: rest => Ok (fst (argmin_ne x rest))
  end.

Definition mass_exclusion : Q := 5 # 10.

Definition get_mass_evolution (self : OfflineAnalysis) (mass : Q)
  : result (list float64 * list datetime) :=
  for_each (fun '(ps, ts) '(i, pressures) =>
              m_idx <- argmin (map (fun m => Qabs (sub64 m mass)) (masses self)) ;;
              m_returned <- getitem (masses self) m_idx ;;
              if Qlt_bool mass_exclusion (Qabs (sub64 m_returned mass))
              then Ok (ps, ts)
              else p <- getitem pressures m_idx ;;
                   t <- getitem (times self) i ;;
                   Ok (ps ++ [p], ts ++ [t]))
           (enumerate (interpolated_data self)) ([], []).

(** *** Peak-window extraction *)

(** [a[mask]] for a boolean mask: the lengths must agree. *)
Definition boolean_index {A : Type} (a : list A) (mask : list bool) : result (list A) :=
  if (List.length a =? List.length mask)%nat
  then Ok (map fst (filter snd (combine a mask)))
  else Raise IndexError.

Definition peak_sigma : Q := 2.
Definition peak_distance : Q := 2.
Definition peak_height : Q := 5 # 1000000000000.

Section PeakWindow.

(** The two scipy routines used on the window are left abstract:
    [gaussian_filter a sigma] and [find_peaks a distance height], the
    latter giving the positions of the peaks. *)
Variable gaussian_filter : list float64 -> Q -> list float64.
Variable find_peaks : list float64 -> Q -> Q -> list nat.

(** [None] stands for the source's [(None, None)].  [float(window)] is
    the identity on a double. *)
Definition get_peakfound_pressure (self : OfflineAnalysis) (mass : Q)
  (scan_index : nat) (window : Q) : result (option (float64 * Q)) :=
  pressures <- getitem (interpolated_data self) scan_index ;;
  let masses := masses self in
  let mass_window := window in
  let mask := map (fun m => Qle_bool (sub64 mass (div64 mass_window 2)) m
                            && Qle_bool m (add64 mass (div64 mass_window 2))) masses in
  if negb (existsb (fun b => b) mask) then Ok None
  else
    masses_window <- boolean_index masses mask ;;
    pressures_window <- boolean_index pressures mask ;;
    let smoothed_pressures := gaussian_filter pressures_window peak_sigma in
    let peaks := find_peaks smoothed_pressures peak_distance peak_height in
    match peaks with
    | [] =>
        idx <- argmin (map (fun m => Qabs (sub64 m mass)) masses_window) ;;
        p <- getitem pressures_window idx ;;
        m <- getitem masses_window idx ;;
        Ok (Some (p, m))
    | _ :: _ =>
        peak_masses <- mapM (getitem masses_window) peaks ;;
        k <- argmin (map (fun m => Qabs (sub64 m mass)) peak_masses) ;;
        peak_idx <- getitem peaks k ;;
        p <- getitem smoothed_pressures peak_idx ;;
        m <- getitem masses_window peak_idx ;;
        Ok (Some (p, m))
    end.

(** *** Relative-ratio extraction

    The function plots [times] against [pressures_ratio]; the model
    returns the two sequences handed to the plot. *)
Definition plot_mass_evolution_peakfound_relative (self : OfflineAnalysis)
  (mass mass_rel : Q) (window : Q) : result (list datetime * list float64) :=
  '(pressures_ratio, ts) <-
    for_each (fun '(pressures_ratio, ts) i =>
                r <- get_peakfound_pressure self mass i window ;;
                r_rel <- get_peakfound_pressure self mass_rel i window ;;
                match r, r_rel with
                | Some (p, _), Some (p_rel, _) =>
                    if fne0 p_rel
                    then q <- fdiv p p_rel ;;
                         t <- getitem (times self) i ;;
                         Ok (pressures_ratio ++ [q], ts ++ [t])
                    else Ok (pressures_ratio, ts)
                | _, _ => Ok (pressures_ratio, ts)
                end)
             (seq 0 (List.length (times self))) ([], []) ;;
  Ok (ts, pressures_ratio).

End PeakWindow.

(** *** Gap compression *)

(** What [_handle_large_gaps] draws on the axes. *)
Inductive artist : Set :=
| axvline (x : Q)
| text (x : Q) (y : float64).

(** [max(ps)] *)
Definition py_max (l : list float64) : result float64 :=
  match l with
  | [] => Raise ValueError
  | x :: rest => Ok (fold_left (fun m v => if fgt v m then v else m) rest x)
  end.

Record gap_state : Set := mk_gap_state {
  new_ts : list Q;
  new_ps : list float64;
  last_time : Q;
  time_shift : Q;
  drawn : list artist
}.

Definition gap_threshold : Q := 24.

(** The literal [1.1], as a double. *)
Definition label_height : Q := round64 (11 # 10).

Definition gap_step (ts : list Q) (ps : list float64) (label_gap : bool)
  (st : gap_state) (i : nat) : result gap_state :=
  ts_i <- getitem ts i ;;
  st1 <- (if Qlt_bool gap_threshold (sub64 ts_i (last_time st)) then
            let gap_duration := sub64 ts_i (last_time st) in
            let shifted := add64 (time_shift st) gap_duration in
            if label_gap then
              top <- py_max ps ;;
              Ok (mk_gap_state (new_ts st) (new_ps st) (last_time st) shifted
                    (drawn st ++ [axvline (last_time st);
                                  text (add64 (last_time st) 1)
                                       (fmul64 top label_height)]))
            else
              Ok (mk_gap_state (new_ts st) (new_ps st) (last_time st) shifted (drawn st))
          else Ok st) ;;
  ps_i <- getitem ps i ;;
  Ok (mk_gap_state (new_ts st1 ++ [sub64 ts_i (time_shift st1)]) (new_ps st1 ++ [ps_i])
        ts_i (time_shift st1) (drawn st1)).

Definition _handle_large_gaps (ts : list Q) (ps : list float64) (ax : list artist)
  (label_gap : bool) : result ((list Q * list float64) * list artist) :=
  t0 <- getitem ts 0 ;;
  st <- for_each (gap_step ts ps label_gap) (seq 0 (List.length ts))
                 (mk_gap_state [] [] t0 0 ax) ;;
  Ok ((new_ts st, new_ps st), drawn st).


(* ===================================================================== *)
(** ** [rgadrivers/utils.py]: naming the scan files *)
(* ===================================================================== *)

Definition digit_char (n : Z) : ascii := ascii_of_nat (48 + Z.to_nat n).

Definition pad2 (n : Z) : string :=
  String (digit_char (n / 10)%Z) (String (digit_char (n mod 10)%Z) EmptyString).

Definition pad4 (n : Z) : string :=
  String (digit_char (n / 1000)%Z)
    (String (digit_char ((n / 100) mod 10)%Z) (pad2 (n mod 100)%Z)).

(** [d.strftime('%Y%m%d_%H%M%S')], every field zero-padded to its width
    (for the year, as written for years of four digits). *)
Definition strftime (d : datetime) : string :=
  (pad4 (year d) ++ pad2 (month d) ++ pad2 (day d) ++ "_" ++
   pad2 (hour d) ++ pad2 (minute d) ++ pad2 (second d))%string.

(** [generate_filename(prefix)]; the reading of the clock,
    [datetime.now()], is an argument. *)
Definition generate_filename (now : datetime) (prefix : string) : string :=
  (prefix ++ "_" ++ strftime now ++ ".dat")%string.

(* ===================================================================== *)
(** ** [rgadrivers/analysis.py]: partial pressures and abundances *)
(* ===================================================================== *)

(** [get_partial_pressures(isotopes, mass_axis, pressures)].  The list
    comprehension finds every index first; the pressures are then read
    with the array of indices.  With no isotope that array is an empty
    array of floats, which numpy refuses as an index. *)
Definition get_partial_pressures (isotopes mass_axis pressures : list Q)
  : result (list Q) :=
  mass_indices <-
    mapM (fun i => argmin (map (fun m => Qabs (m - i)) mass_axis)) isotopes ;;
  match mass_indices with
  | [] => Raise IndexError
  | _ :: _ => mapM (getitem pressures) mass_indices
  end.

(** numpy's [x / y] on finite operands: the quotient; for a zero [y],
    an infinity with the sign of [x], or not-a-number when [x] is zero
    too. *)
Inductive np_quotient : Set :=
| quot_fin (q : Q)
| quot_inf (negative : bool)
| quot_nan.

Definition np_divide (x y : Q) : np_quotient :=
  if Qeq_bool y 0
  then (if Qeq_bool x 0 then quot_nan else quot_inf (Qlt_bool x 0))
  else quot_fin (x / y).

(** [np.sum] *)
Definition np_sum (l : list Q) : Q := fold_right Qplus 0 l.

(** [get_abundances(pressures)] *)
Definition get_abundances (pressures : list Q) : list np_quotient :=
  let pressures := map (fun p => if Qlt_bool p 0 then 0 else p) pressures in
  let total_pressure := np_sum pressures in
  map (fun p => np_divide (p * 100) total_pressure) pressures.

(* ===================================================================== *)
(** ** [srssamplescripts.py]: the earlier stand-alone script *)
(* ===================================================================== *)

Module Srssamplescripts.

(** [get_abundances(pressures)]: the shares of the total, with no
    treatment of negative readings. *)
Definition get_abundances (pressures : list Q) : list np_quotient :=
  let total_pressure := np_sum pressures in
  map (fun p => np_divide (p * 100) total_pressure) pressures.

End Srssamplescripts.

(* ===================================================================== *)
(** ** [plot_scan_zoom]: the view of one scan *)
(* ===================================================================== *)

(** [np.nanmin(a)] and [np.nanmax(a)]: not-a-number entries are passed
    over; an array of nothing else gives not-a-number; an empty array
    raises. *)
Definition finite_values (a : list float64) : list Q :=
  flat_map (fun x => match x with nan => [] | fin q => [q] end) a.

Definition nanmin (a : list float64) : result float64 :=
  match a with
  | [] => Raise ValueError
  | _ :: _ =>
      match finite_values a with
      | [] => Ok nan
      | q :: rest => Ok (fin (fold_left (fun m v => if Qlt_bool v m then v else m) rest q))
      end
  end.

Definition nanmax (a : list float64) : result float64 :=
  match a with
  | [] => Raise ValueError
  | _ :: _ =>
      match finite_values a with
      | [] => Ok nan
      | q :: rest => Ok (fin (fold_left (fun m v => if Qlt_bool m v then v else m) rest q))
      end
  end.

(** [plot_scan_zoom(scan_index, x_min, x_max)].  The model follows the
    numbers: it returns the limits last set on the two axes, the x-range
    asked for and the y-range computed from the pressures in view. *)
Definition plot_scan_zoom (self : OfflineAnalysis) (scan_index : nat) (x_min x_max : Q)
  : result ((Q * Q) * (float64 * float64)) :=
  let masses := masses self in
  pressures_scan <- getitem (interpolated_data self) scan_index ;;
  timestamp <- getitem (times self) scan_index ;;
  let mask := map (fun m => Qle_bool x_min m && Qle_bool m x_max) masses in
  in_view <- boolean_index pressures_scan mask ;;
  y_min <- nanmin in_view ;;
  in_view' <- boolean_index pressures_scan mask ;;
  y_max <- nanmax in_view' ;;
  Ok ((x_min, x_max), (fmul y_min (9 # 10), fmul y_max (11 # 10))).

(* ===================================================================== *)
(** ** [plot_mass_evolution_peakfound]: the two runs in hours *)
(* ===================================================================== *)

(** [datetime.toordinal()], as the standard library computes it. *)
Definition days_before_year (y : Z) : Z :=
  (let y := y - 1 in y * 365 + y / 4 - y / 100 + y / 400)%Z.

Definition days_before_month (y m : Z) : Z :=
  (nth (Z.to_nat m) [0; 0; 31; 59; 90; 120; 151; 181; 212; 243; 273; 304; 334] 0
   + (if (2 <? m) && is_leap y then 1 else 0))%Z.

Definition toordinal (d : datetime) : Z :=
  (days_before_year (year d) + days_before_month (year d) (month d) + day d)%Z.

(** [(a - b).total_seconds()] *)
Definition total_seconds (a b : datetime) : Z :=
  ((toordinal a - toordinal b) * 86400
   + ((hour a * 3600 + minute a * 60 + second a)
      - (hour b * 3600 + minute b * 60 + second b)))%Z.

(** [(timestamp - start).total_seconds() / 3600] *)
Definition hours_since (start timestamp : datetime) : Q :=
  div64 (round64 (inject_Z (total_seconds timestamp start))) 3600.

Record run_series : Type := mk_run_series {
  ps_control : list float64;
  ts_control_h : list Q;
  ps_xenon : list float64;
  ts_xenon_h : list Q
}.

Section PeakEvolution.

Variable gaussian_filter : list float64 -> Q -> list float64.
Variable find_peaks : list float64 -> Q -> Q -> list nat.

(** One turn of the loop over the scans. *)
Definition peak_evolution_step (self : OfflineAnalysis) (mass window : Q)
  (st : run_series) (it : nat * datetime) : result run_series :=
  let '(i, timestamp) := it in
  let start_control := fst (run_intervals self control_run) in
  let start_xenon := fst (run_intervals self xenon_run) in
  r <- get_peakfound_pressure gaussian_filter find_peaks self mass i window ;;
  match r with
  | None => Ok st
  | Some (p, m_ret) =>
      label <- getitem (labels self) i ;;
      match label with
      | Some control_run =>
          Ok (mk_run_series (ps_control st ++ [p])
                (ts_control_h st ++ [hours_since start_control timestamp])
                (ps_xenon st) (ts_xenon_h st))
      | Some xenon_run =>
          Ok (mk_run_series (ps_control st) (ts_control_h st)
                (ps_xenon st ++ [p])
                (ts_xenon_h st ++ [hours_since start_xenon timestamp]))
      | None => Ok st
      end
  end.

(** [plot_mass_evolution_peakfound(mass, ax, window, fit, label_gap)].
    The model returns what is handed to the two [ax.plot] calls, the
    control series and the xenon series after gap handling ([None] for a
    series that is not plotted because it is empty), and the axes with the
    gap markers drawn on them. *)
Definition plot_mass_evolution_peakfound (self : OfflineAnalysis) (mass : Q)
  (ax : list artist) (window : Q) (label_gap : bool)
  : result (option (list Q * list float64) * option (list Q * list float64)
            * list artist) :=
  st <- for_each (peak_evolution_step self mass window)
                 (enumerate (times self)) (mk_run_series [] [] [] []) ;;
  let control := match ps_control st with
                 | [] => None
                 | _ :: _ => Some (ts_control_h st, ps_control st)
                 end in
  match ps_xenon st with
  | [] => Ok (control, None, ax)
  | _ :: _ =>
      '(xenon, ax') <- _handle_large_gaps (ts_xenon_h st) (ps_xenon st) ax label_gap ;;
      Ok (control, Some xenon, ax')
  end.

End PeakEvolution.

(* ===================================================================== *)
(** ** Vocabulary of the specification *)
(* ===================================================================== *)

(** *** Rounding, as it is defined *)

(** Nearest integer to [a / b], ties to the even one ([0 < b]). *)
Definition rne (a b : Z) : Z :=
  let q := (a / b)%Z in
  match (2 * (a mod b) ?= b)%Z with
  | Lt => q
  | Gt => (q + 1)%Z
  | Eq => if Z.even q then q else (q + 1)%Z
  end.

(** Rounding to the nearest double as its definition reads: the value in
    units of [2^-1074], divided by the spacing [2^s] of the doubles around
    it, rounded to the nearest integer and multiplied back. *)
Definition nearest_units (a b : Z) : Z :=
  let u := (a * 2 ^ 1074)%Z in
  let s := Z.max (Z.log2 (u / b) - 52) 0 in
  Z.min (rne u (b * 2 ^ s) * 2 ^ s) (2 ^ 2098).

(** *** Runs *)

(** [t] lies in the closed range of the interval stored under [l]. *)
Definition in_run (self : OfflineAnalysis) (l : run_label) (t : datetime) : Prop :=
  leb (fst (run_intervals self l)) t = true /\
  leb t (snd (run_intervals self l)) = true.


(** The grid [load_data] works with. *)
Definition grid_of (target_mass_grid : option (list Q)) : list Q :=
  match target_mass_grid with
  | None => default_mass_grid
  | Some g => g
  end.

(** The scans of a loaded repository, one triple per scan. *)
Definition scans (self : OfflineAnalysis) : list scan_record :=
  combine (combine (times self) (interpolated_data self)) (labels self).

Definition timestamp_of (r : scan_record) : datetime := fst (fst r).

(** The scans taken at [t], in the order of the list. *)
Definition taken_at (t : datetime) (l : list scan_record) : list scan_record :=
  filter (fun r => Datetime.eqb (timestamp_of r) t) l.

Definition chronological (ts : list datetime) : Prop :=
  StronglySorted (fun a b => leb a b = true) ts.

(** *** Sample data *)

Definition header_line : list (option Q) := [None; None].

Definition sample_lines (p1 p2 p3 : Q) : list (list (option Q)) :=
  [header_line; [Some 1; Some p1]; [Some 2; Some p2]; [Some 3; Some p3]].

Definition file_sep20 : dat_file :=
  mk_dat_file "analog_scan_20240920_090000.dat" (sample_lines 4 8 6).
Definition file_sep11 : dat_file :=
  mk_dat_file "analog_scan_20240911_170000.dat" (sample_lines 1 3 2).
Definition file_sep16 : dat_file :=
  mk_dat_file "analog_scan_20240916_120000.dat" (sample_lines 2 2 2).
(** Same timestamp as [file_sep11], found later. *)
Definition file_sep11_bis : dat_file :=
  mk_dat_file "second_scan_20240911_170000.dat" (sample_lines 7 7 7).
Definition file_notes : dat_file :=
  mk_dat_file "README.txt" [].
(** A name without a timestamp, and a table with a non-numeric field. *)
Definition file_bad_name : dat_file :=
  mk_dat_file "analog_scan_latest.dat" (sample_lines 1 1 1).
Definition file_bad_content : dat_file :=
  mk_dat_file "analog_scan_20240912_080000.dat"
              [header_line; [Some 1; Some 5]; [Some 2; None]].

Definition sample_grid : list Q := [1 # 2; 1; 3 # 2; 2; 3; 4].

Definition sample_dir : list dat_file :=
  [file_sep20; file_notes; file_sep11; file_sep16; file_sep11_bis].

(** The repository loaded from [sample_dir] on [sample_grid]. *)
Definition sample_loaded : OfflineAnalysis :=
  match load_data (__init__ sample_dir) (Some sample_grid) with
  | Ok s => s
  | Raise _ => __init__ sample_dir
  end.

(** *** Well-formed scan files *)

(** The name carries a timestamp that [strptime] accepts. *)
Definition filename_ok (f : dat_file) : bool :=
  is_ok (strptime (time_str_of (file_name f))).

(** The text is a numeric table with a mass and a pressure column. *)
Definition content_ok (f : dat_file) : bool :=
  is_ok (a <- loadtxt (file_lines f) ;; _ <- column a 0 ;; column a 1).

Definition with_directory (self : OfflineAnalysis) (dir : list dat_file)
  : OfflineAnalysis :=
  {| directory := dir; times := times self; labels := labels self;
     masses := masses self; interpolated_data := interpolated_data self;
     run_intervals := run_intervals self |}.

(** The skip policy of the specification: loading a directory gives what
    loading its well-formed files alone gives. *)
Definition skip_policy : Prop :=
  forall (self : OfflineAnalysis) (g : option (list Q)),
    load_data self g =
    load_data (with_directory self
                 (filter (fun f => filename_ok f && content_ok f) (directory self))) g.

(** *** Nearest grid point *)

(** [i] is the lowest index at which [l] takes its least value [m]. *)
Definition first_minimum (l : list Q) (i : nat) (m : Q) : Prop :=
  nth_error l i = Some m /\
  (forall j y, nth_error l j = Some y -> m <= y) /\
  (forall j y, (j < i)%nat -> nth_error l j = Some y -> m < y).

(** Distance of each grid mass to the requested mass, as computed in
    double precision. *)
Definition deviations (grid : list Q) (mass : Q) : list Q :=
  map (fun m => Qabs (sub64 m mass)) grid.

(** The repository invariant: one timestamp per scan, and every pressure
    vector aligned with the mass grid. *)
Definition consistent (self : OfflineAnalysis) : Prop :=
  List.length (times self) = List.length (interpolated_data self) /\
  Forall (fun row => List.length row = List.length (masses self))
         (interpolated_data self).

(** [row[i]], with [nan] standing in past the end (never reached in a
    consistent repository). *)
Definition entry (i : nat) (row : list float64) : float64 := nth i row nan.

(** The index [get_mass_evolution] reads, and whether it passes the
    tolerance test: both are functions of the grid and the mass alone. *)
Definition nearest_index (grid : list Q) (mass : Q) : nat :=
  match argmin (deviations grid mass) with
  | Ok i => i
  | Raise _ => O
  end.

Definition within_tolerance (grid : list Q) (mass : Q) : bool :=
  negb (Qlt_bool mass_exclusion
          (Qabs (sub64 (nth (nearest_index grid mass) grid 0) mass))).

(** Doubles just below one half and one quarter: 0.49999999999999994
    ([1/2 - 2^-54]) and 0.24999999999999997 ([1/4 - 2^-55]). *)
Definition below_half : Q := 9007199254740991 # 18014398509481984.
Definition below_quarter : Q := 9007199254740991 # 36028797018963968.

(** The doubles nearest to 0.1, 0.4 and 0.6. *)
Definition double_01 : Q := 3602879701896397 # 36028797018963968.
Definition double_04 : Q := 3602879701896397 # 9007199254740992.
Definition double_06 : Q := 5404319552844595 # 9007199254740992.

(** A repository of one scan, taken in the xenon run, on a given grid. *)
Definition one_scan (grid : list Q) (row : list float64) : OfflineAnalysis :=
  {| directory := [];
     times := [mk_datetime 2024 9 17 10 0 0];
     labels := [Some xenon_run];
     masses := grid;
     interpolated_data := [row];
     run_intervals := default_run_intervals |}.

(** *** Linear interpolation *)

Definition increasing (xs : list Q) : Prop := StronglySorted Qlt xs.

(** Knots ordered by abscissa. *)
Definition knot_lt (a b : Q * Q) : Prop := fst a < fst b.

(** [v] is the value at [g] of the broken line through the knots: [g]
    is a knot and [v] its ordinate, or [g] lies in a segment between two
    successive knots and [v] is the point of the chord above it. *)
Definition on_broken_line (knots : list (Q * Q)) (g v : Q) : Prop :=
  exists k x0 y0,
    nth_error knots k = Some (x0, y0) /\
    ((g == x0 /\ v == y0) \/
     exists x1 y1,
       nth_error knots (S k) = Some (x1, y1) /\
       x0 <= g /\ g < x1 /\
       v == y0 + (y1 - y0) * (g - x0) / (x1 - x0)).

(** [g] is outside the range of the raw masses. *)
Definition out_of_range (xs : list Q) (g : Q) : Prop :=
  (forall x, In x xs -> g < x) \/ (forall x, In x xs -> x < g).

Definition in_range (xs : list Q) (g : Q) : Prop :=
  exists a b, In a xs /\ In b xs /\ a <= g /\ g <= b.

(** *** Gap compression, as the specification tells it *)

(** Walk the times in order with the time of the previous sample and the
    cumulative shift: a step longer than the threshold is added whole to
    the shift, and each time is emitted less the shift reached so far.
    Every difference and sum is the double nearest to the exact one. *)
Fixpoint compressed_times (last_time shift : Q) (ts : list Q) : list Q :=
  match ts with
  | [] => []
  | t :: rest =>
      let shift' := if Qlt_bool gap_threshold (sub64 t last_time)
                    then add64 shift (sub64 t last_time) else shift in
      sub64 t shift' :: compressed_times t shift' rest
  end.

(** No step of the walk from [last_time] through [ts], as computed,
    exceeds the threshold. *)
Fixpoint steady (last_time : Q) (ts : list Q) : Prop :=
  match ts with
  | [] => True
  | t :: rest => sub64 t last_time <= gap_threshold /\ steady t rest
  end.

Definition non_decreasing (ts : list Q) : Prop := StronglySorted Qle ts.

(** Elapsed time between the first and the last sample. *)
Definition span (ts : list Q) : Q := last ts 0 - hd 0 ts.

(** Two scans 2 s and 24 h 3 s after the start of a run, in hours:
    0.0005555555555555556 and 24.000833333333333. *)
Definition hours_2s : Q := 5124095576030431 # 9223372036854775808.
Definition hours_24h3s : Q := 422227125221021 # 17592186044416.

(** The doubles nearest to 1/3600 and 86401/3600. *)
Definition hours_1s : Q := 5124095576030431 # 18446744073709551616.
Definition hours_24h1s : Q := 6755477628549275 # 281474976710656.

(** A series of elapsed hours with a gap before its second part. *)
Definition sample_hours : list Q := [0; 10; 30; 150; 160; 170].
Definition sample_pressures : list float64 :=
  [fin 1; fin 2; nan; fin 4; fin 5; fin 6].

(** *** The peak window *)

(** The bounds of the window, [mass - window/2] and [mass + window/2],
    as computed in double precision. *)
Definition window_low (mass window : Q) : Q := sub64 mass (div64 window 2).
Definition window_high (mass window : Q) : Q := add64 mass (div64 window 2).

(** [m] lies within the window. *)
Definition in_window (mass window m : Q) : bool :=
  Qle_bool (window_low mass window) m && Qle_bool m (window_high mass window).

(** The entries of [a] at the positions where [mask] holds. *)
Definition select {A : Type} (a : list A) (mask : list bool) : list A :=
  map fst (filter snd (combine a mask)).

Definition masses_window (self : OfflineAnalysis) (mass window : Q) : list Q :=
  filter (in_window mass window) (masses self).

Definition pressures_window (self : OfflineAnalysis) (mass window : Q)
  (pressures : list float64) : list float64 :=
  select pressures (map (in_window mass window) (masses self)).

(** Stand-ins for the two scipy routines, used to run the extraction on
    sample data: a three-point moving average, and the strict local maxima
    that reach the height. *)
Definition favg3 (a b c : float64) : float64 :=
  match a, b, c with
  | fin x, fin y, fin z => fin ((x + y + z) / 3)
  | _, _, _ => nan
  end.

Fixpoint smooth3_from (prev : float64) (a : list float64) : list float64 :=
  match a with
  | [] => []
  | x :: rest =>
      favg3 prev x (match rest with [] => x | y :: _ => y end)
      :: smooth3_from x rest
  end.

Definition smooth3 (a : list float64) (sigma : Q) : list float64 :=
  match a with
  | [] => []
  | x :: _ => smooth3_from x a
  end.

Fixpoint local_maxima_from (i : nat) (prev : float64) (a : list float64) (height : Q)
  : list nat :=
  match a with
  | x :: ((y :: _) as rest) =>
      if fgt x prev && fgt x y && negb (fgt (fin height) x) && negb (is_nan x)
      then i :: local_maxima_from (S i) x rest height
      else local_maxima_from (S i) x rest height
  | _ => []
  end.

Definition local_maxima (a : list float64) (distance height : Q) : list nat :=
  match a with
  | [] => []
  | x :: rest => local_maxima_from 1 x rest height
  end.

(** *** A repository with a peak *)

Definition peak_lines (ps : list Q) : list (list (option Q)) :=
  header_line ::
  map (fun '(m, p) => [Some (inject_Z (Z.of_nat m)); Some p])
      (combine (seq 1 (List.length ps)) ps).

(** A peak at mass 4, a flat zero spectrum, and a scan that stops at mass 3. *)
Definition file_peak : dat_file :=
  mk_dat_file "analog_scan_20240917_100000.dat" (peak_lines [1; 2; 5; 9; 5; 2; 1]).
Definition file_flat : dat_file :=
  mk_dat_file "analog_scan_20240918_100000.dat" (peak_lines [0; 0; 0; 0; 0; 0; 0]).
Definition file_short : dat_file :=
  mk_dat_file "analog_scan_20240919_100000.dat" (peak_lines [3; 3; 3]).

Definition peak_grid : list Q := [1; 2; 3; 4; 5; 6; 7].

Definition peak_loaded : OfflineAnalysis :=
  match load_data (__init__ [file_short; file_peak; file_flat]) (Some peak_grid) with
  | Ok s => s
  | Raise _ => __init__ []
  end.

(** *** Ratio samples *)

(** [p / p_rel] where the division is defined. *)
Definition fquot (p p_rel : float64) : float64 :=
  match fdiv p p_rel with
  | Ok q => q
  | Raise _ => nan
  end.

(** What scan [i] contributes to the ratio series: one sample when both
    peak-window results are present and the relative pressure is not
    zero, nothing otherwise. *)
Definition ratio_sample
  (gaussian_filter : list float64 -> Q -> list float64)
  (find_peaks : list float64 -> Q -> Q -> list nat)
  (self : OfflineAnalysis) (mass mass_rel window : Q) (i : nat)
  : list (datetime * float64) :=
  match get_peakfound_pressure gaussian_filter find_peaks self mass i window,
        get_peakfound_pressure gaussian_filter find_peaks self mass_rel i window,
        nth_error (times self) i with
  | Ok (Some (p, _)), Ok (Some (p_rel, _)), Some t =>
      if fne0 p_rel then [(t, fquot p p_rel)] else []
  | _, _, _ => []
  end.

(** The relative pressure is a zero. *)
Definition is_zero (x : float64) : Prop :=
  match x with
  | nan => False
  | fin q => q == 0
  end.

(** A computation that raises, if at all, something other than a
    division fault. *)
Definition no_division_fault {A : Type} (c : result A) : Prop :=
  c <> Raise ZeroDivisionError.


(** What [_handle_large_gaps] draws when asked to label the gaps: for
    each step above the threshold a line at the time before the gap and a
    label one hour to its right, at 1.1 times the highest pressure. *)
Fixpoint gap_markers (top : float64) (last_time : Q) (ts : list Q) : list artist :=
  match ts with
  | [] => []
  | t :: rest =>
      (if Qlt_bool gap_threshold (sub64 t last_time)
       then [axvline last_time; text (add64 last_time 1) (fmul64 top label_height)]
       else [])
      ++ gap_markers top t rest
  end.

(** Starting from [prev], every step of [ts] is forward and no longer
    than the threshold. *)
Fixpoint steps_within (prev : Q) (ts : list Q) : Prop :=
  match ts with
  | [] => True
  | t :: rest => 0 <= t - prev /\ t - prev <= gap_threshold /\ steps_within t rest
  end.

(** *** Strings *)

(** [c in s] *)
Fixpoint has_char (c : ascii) (s : string) : bool :=
  match s with
  | EmptyString => false
  | String a r => Ascii.eqb a c || has_char c r
  end.

(** A field parser hands on a text without [c] when given one. *)
Definition keeps (c : ascii) (f : field) : Prop :=
  forall s v r, has_char c s = false -> In (v, r) (f s) -> has_char c r = false.

(** *** Partial pressures *)

(** The position [get_partial_pressures] reads for the mass [i]. *)
Definition axis_index (mass_axis : list Q) (i : Q) : nat :=
  match argmin (map (fun m => Qabs (m - i)) mass_axis) with
  | Ok k => k
  | Raise _ => O
  end.

(** *** Abundances *)

(** The pressure as [get_abundances] counts it: negative readings count
    for nothing. *)
Definition clamp (p : Q) : Q := if Qlt_bool p 0 then 0 else p.

(** The pressures of a scan at the grid masses within [[x_min, x_max]]. *)
Definition in_view (self : OfflineAnalysis) (x_min x_max : Q) (row : list float64)
  : list float64 :=
  select row (map (fun m => Qle_bool x_min m && Qle_bool m x_max) (masses self)).

(** *** The two runs of the peak evolution plot *)

Definition label_eqb (a b : run_label) : bool :=
  match a, b with
  | control_run, control_run | xenon_run, xenon_run => true
  | _, _ => false
  end.

(** What scan [i] contributes to the series of run [lab]: its peak-window
    pressure at the hours elapsed since the start of the run, when the
    scan carries this label and has a reading in the window; nothing
    otherwise. *)
Definition run_sample (gaussian_filter : list float64 -> Q -> list float64)
  (find_peaks : list float64 -> Q -> Q -> list nat)
  (self : OfflineAnalysis) (mass window : Q) (lab : run_label) (i : nat)
  : list (Q * float64) :=
  match get_peakfound_pressure gaussian_filter find_peaks self mass i window,
        nth_error (labels self) i, nth_error (times self) i with
  | Ok (Some (p, _)), Some (Some l), Some t =>
      if label_eqb l lab
      then [(hours_since (fst (run_intervals self lab)) t, p)]
      else []
  | _, _, _ => []
  end.

Definition run_samples (gaussian_filter : list float64 -> Q -> list float64)
  (find_peaks : list float64 -> Q -> Q -> list nat)
  (self : OfflineAnalysis) (mass window : Q) (lab : run_label)
  : list (Q * float64) :=
  flat_map (run_sample gaussian_filter find_peaks self mass window lab)
           (seq 0 (List.length (times self))).
(* ===================================================================== *)
(** ** Basic facts about the number model *)
(* ===================================================================== *)

Lemma Qlt_bool_iff (a b : Q) : Qlt_bool a b = true <-> a < b.
Proof.
  unfold Qlt_bool. rewrite negb_true_iff.
  split; intros H.
  - apply Qnot_le_lt. intros Hle. apply Qle_bool_iff in Hle. congruence.
  - destruct (Qle_bool b a) eqn:E; [|reflexivity].
    apply Qle_bool_iff in E. exfalso. apply (Qlt_not_le _ _ H E).
Qed.

Lemma Qlt_bool_false_iff (a b : Q) : Qlt_bool a b = false <-> b <= a.
Proof.
  unfold Qlt_bool. rewrite negb_false_iff. apply Qle_bool_iff.
Qed.

(* ===================================================================== *)
(** ** Rounding to the nearest double *)
(* ===================================================================== *)

Lemma rne_cases (a b : Z) :
  (0 < b)%Z ->
  let n := rne a b in
  ((2 * b * n - b <= 2 * a <= 2 * b * n + b) /\
   (2 * a = 2 * b * n + b -> Z.even n = true) /\
   (2 * a = 2 * b * n - b -> Z.even n = true) /\
   (a / b <= n <= a / b + 1))%Z.
Proof.
  intros Hb. unfold rne. cbv zeta.
  pose proof (Z.div_mod a b ltac:(lia)) as Hdm.
  pose proof (Z.mod_pos_bound a b Hb) as Hr.
  set (q := (a / b)%Z) in *. set (r := (a mod b)%Z) in *.
  destruct (Z.compare_spec (2 * r) b) as [E|L|G].
  - destruct (Z.even q) eqn:Ev.
    + repeat split; try nia. intros _. exact Ev.
    + repeat split; try nia.
      intros _. rewrite Z.even_add, Ev. reflexivity.
  - repeat split; nia.
  - repeat split; nia.
Qed.

Lemma rne_mono (a b c d : Z) :
  (0 < b -> 0 < d -> a * d <= c * b -> rne a b <= rne c d)%Z.
Proof.
  intros Hb Hd Hle.
  destruct (rne_cases a Hb) as ((A1 & A2) & A3 & A4 & _).
  destruct (rne_cases c Hd) as ((C1 & C2) & C3 & C4 & _).
  set (n1 := rne a b) in *. set (n2 := rne c d) in *.
  destruct (Z_le_gt_dec n1 n2) as [H|H]; [exact H|exfalso].
  assert (H1 : (n1 <= n2 + 1)%Z).
  { assert ((2 * b * n1 - b) * d <= (2 * d * n2 + d) * b)%Z by nia.
    assert (b * d * (2 * n1 - 2 * n2 - 2) <= 0)%Z by nia.
    assert (0 < b * d)%Z by nia. nia. }
  assert (En : n1 = (n2 + 1)%Z) by lia.
  assert (E1 : (2 * a = 2 * b * n1 - b)%Z).
  { assert ((2 * b * n1 - b) * d <= 2 * a * d)%Z by nia.
    assert (2 * a * d <= 2 * c * b)%Z by nia.
    assert (2 * c * b <= (2 * d * n2 + d) * b)%Z by nia.
    assert ((2 * d * n2 + d) * b = (2 * b * n1 - b) * d)%Z by (rewrite En; ring).
    assert ((2 * b * n1 - b) * d = 2 * a * d)%Z by lia.
    nia. }
  assert (E2 : (2 * c = 2 * d * n2 + d)%Z).
  { assert ((2 * b * n1 - b) * d <= 2 * a * d)%Z by nia.
    assert (2 * a * d <= 2 * c * b)%Z by nia.
    assert (2 * c * b <= (2 * d * n2 + d) * b)%Z by nia.
    assert ((2 * d * n2 + d) * b = (2 * b * n1 - b) * d)%Z by (rewrite En; ring).
    assert (2 * c * b = (2 * d * n2 + d) * b)%Z by lia.
    nia. }
  specialize (A4 E1). specialize (C3 E2).
  rewrite En, Z.even_add, C3 in A4. discriminate A4.
Qed.

Lemma rne_nonneg (a b : Z) : (0 <= a -> 0 < b -> 0 <= rne a b)%Z.
Proof.
  intros Ha Hb. destruct (rne_cases a Hb) as (_ & _ & _ & H & _).
  pose proof (Z.div_pos a b Ha Hb). lia.
Qed.

Lemma div_frac_mono (u b v d : Z) :
  (0 < b -> 0 < d -> u * d <= v * b -> u / b <= v / d)%Z.
Proof.
  intros Hb Hd H. apply Z.div_le_lower_bound; [exact Hd|].
  pose proof (Z.mul_div_le u b Hb). nia.
Qed.

Lemma log2_upper (x s : Z) :
  (0 <= x -> 0 <= s -> Z.log2 x - 52 <= s -> x < 2 ^ s * 2 ^ 53)%Z.
Proof.
  intros Hx Hs H.
  rewrite <- Z.pow_add_r by lia.
  destruct (Z.eq_dec x 0) as [->|Hn].
  - apply Z.pow_pos_nonneg; lia.
  - destruct (Z.log2_spec x ltac:(lia)) as [_ Hu].
    eapply Z.lt_le_trans; [exact Hu|].
    apply Z.pow_le_mono_r; lia.
Qed.

Lemma log2_lower (x s : Z) :
  (0 < s -> s = Z.log2 x - 52 -> 2 ^ s * 2 ^ 52 <= x)%Z.
Proof.
  intros Hs H.
  rewrite <- Z.pow_add_r by lia.
  assert (Hx : (0 < x)%Z).
  { destruct (Z_lt_le_dec 0 x) as [Hp|Hn]; [exact Hp|].
    rewrite (Z.log2_nonpos x Hn) in H. lia. }
  destruct (Z.log2_spec x Hx) as [Hl _].
  replace (s + 52)%Z with (Z.log2 x) by lia. exact Hl.
Qed.

Lemma nearest_units_mono (a b c d : Z) :
  (0 <= a -> 0 < b -> 0 < d -> a * d <= c * b ->
   nearest_units a b <= nearest_units c d)%Z.
Proof.
  intros Ha Hb Hd Hle. unfold nearest_units. cbv zeta.
  generalize (2 ^ 2098)%Z. intros top.
  assert (HP : (0 < 2 ^ 1074)%Z) by (apply Z.pow_pos_nonneg; lia).
  revert HP. generalize (2 ^ 1074)%Z. intros P HP.
  set (u := (a * P)%Z). set (v := (c * P)%Z).
  assert (Hu : (0 <= u)%Z) by (unfold u; nia).
  assert (Huv : (u * d <= v * b)%Z) by (unfold u, v; nia).
  pose proof (div_frac_mono u v Hb Hd Huv) as HXY.
  assert (HX : (0 <= u / b)%Z) by (apply Z.div_pos; lia).
  set (X := (u / b)%Z) in *. set (Y := (v / d)%Z) in *.
  pose proof (Z.log2_le_mono X Y HXY) as Hlog.
  set (s1 := Z.max (Z.log2 X - 52) 0). set (s2 := Z.max (Z.log2 Y - 52) 0).
  assert (Hs1 : (0 <= s1)%Z) by (unfold s1; lia).
  assert (Hs12 : (s1 <= s2)%Z) by (unfold s1, s2; lia).
  assert (Hp1 : (0 < 2 ^ s1)%Z) by (apply Z.pow_pos_nonneg; lia).
  assert (Hp2 : (0 < 2 ^ s2)%Z) by (apply Z.pow_pos_nonneg; lia).
  apply Z.min_le_compat_r.
  destruct (Z.eq_dec s1 s2) as [E|NE].
  - rewrite <- E. apply Z.mul_le_mono_nonneg_r; [lia|].
    apply rne_mono; nia.
  - assert (Hlt : (s1 < s2)%Z) by lia.
    destruct (@rne_cases u (b * 2 ^ s1)%Z ltac:(nia)) as (_ & _ & _ & _ & Hn1).
    destruct (@rne_cases v (d * 2 ^ s2)%Z ltac:(nia)) as (_ & _ & _ & Hn2 & _).
    rewrite <- Z.div_div in Hn1, Hn2 by lia.
    fold X in Hn1. fold Y in Hn2.
    assert (B1 : (X / 2 ^ s1 < 2 ^ 53)%Z).
    { apply Z.div_lt_upper_bound; [exact Hp1|].
      apply log2_upper; [exact HX | exact Hs1 | unfold s1; lia]. }
    assert (B2 : (2 ^ 52 <= Y / 2 ^ s2)%Z).
    { apply Z.div_le_lower_bound; [exact Hp2|].
      apply log2_lower; [lia | unfold s2 in *; lia]. }
    assert (Hpow : (2 ^ 53 * 2 ^ s1 <= 2 ^ 52 * 2 ^ s2)%Z).
    { rewrite <- !Z.pow_add_r by lia. apply Z.pow_le_mono_r; lia. }
    revert B1 B2 Hpow. generalize (2 ^ 53)%Z (2 ^ 52)%Z. intros p53 p52 B1 B2 Hpow.
    nia.
Qed.

Lemma nearest_units_nonneg (a b : Z) : (0 <= a -> 0 < b -> 0 <= nearest_units a b)%Z.
Proof.
  intros Ha Hb. unfold nearest_units. cbv zeta.
  assert (HP : (0 < 2 ^ 1074)%Z) by (apply Z.pow_pos_nonneg; lia).
  assert (HT : (0 < 2 ^ 2098)%Z) by (apply Z.pow_pos_nonneg; lia).
  revert HP HT. generalize (2 ^ 1074)%Z (2 ^ 2098)%Z. intros P top HP HT.
  set (s := Z.max _ 0).
  assert (Hp : (0 < 2 ^ s)%Z) by (apply Z.pow_pos_nonneg; unfold s; lia).
  pose proof (@rne_nonneg (a * P) (b * 2 ^ s) ltac:(nia) ltac:(nia)).
  apply Z.min_glb; nia.
Qed.

Lemma nearest_units_proper (a b c d : Z) :
  (0 <= a -> 0 < b -> 0 < d -> a * d = c * b -> nearest_units a b = nearest_units c d)%Z.
Proof.
  intros Ha Hb Hd E.
  assert (Hc : (0 <= c)%Z) by nia.
  apply Z.le_antisymm; apply nearest_units_mono; lia.
Qed.

Lemma rne_exact (n b : Z) : (0 < b)%Z -> rne (n * b) b = n.
Proof.
  intros Hb. unfold rne. cbv zeta.
  rewrite Z.div_mul by lia. rewrite Z.mod_mul by lia.
  change (2 * 0)%Z with 0%Z.
  destruct (Z.compare_spec 0 b); [lia | reflexivity | lia].
Qed.

Lemma rne_proper (a b c d : Z) :
  (0 < b -> 0 < d -> a * d = c * b -> rne a b = rne c d)%Z.
Proof.
  intros Hb Hd E. apply Z.le_antisymm; apply rne_mono; lia.
Qed.

(** A value that is already a double is left as it is. *)
Lemma nearest_units_fixed (n s : Z) :
  (0 <= s -> 0 <= n < 2 ^ 53 -> (0 < s -> 2 ^ 52 <= n) -> n * 2 ^ s <= 2 ^ 2098 ->
   nearest_units (n * 2 ^ s) (2 ^ 1074) = n * 2 ^ s)%Z.
Proof.
  intros Hs Hn Hlow Htop. unfold nearest_units. cbv zeta.
  assert (HP : (0 < 2 ^ 1074)%Z) by (apply Z.pow_pos_nonneg; lia).
  revert Htop HP. generalize (2 ^ 2098)%Z (2 ^ 1074)%Z. intros top P Htop HP.
  assert (Hps : (0 < 2 ^ s)%Z) by (apply Z.pow_pos_nonneg; lia).
  rewrite Z.div_mul by lia.
  assert (Hs' : Z.max (Z.log2 (n * 2 ^ s) - 52) 0 = s).
  { destruct (Z.eq_dec s 0) as [->|Hs0].
    - rewrite Z.pow_0_r, Z.mul_1_r.
      destruct (Z.eq_dec n 0) as [->|Hn0]; [reflexivity|].
      assert (Z.log2 n < 53)%Z by (apply Z.log2_lt_pow2; lia). lia.
    - assert (H52 : (2 ^ 52 <= n)%Z) by (apply Hlow; lia).
      assert (Hpos : (0 < n)%Z).
      { assert (0 < 2 ^ 52)%Z by (apply Z.pow_pos_nonneg; lia). lia. }
      rewrite Z.log2_mul_pow2 by lia.
      assert (Z.log2 n = 52)%Z.
      { apply Z.log2_unique; [lia|]. replace (52 + 1)%Z with 53%Z by lia. lia. }
      lia. }
  rewrite Hs'.
  rewrite (@rne_proper (n * 2 ^ s * P) (P * 2 ^ s) (n * (P * 2 ^ s)) (P * 2 ^ s))
    by nia.
  rewrite rne_exact by nia.
  apply Z.min_l. exact Htop.
Qed.

Lemma nearest_units_idem (a b : Z) :
  (0 <= a -> 0 < b ->
   nearest_units (nearest_units a b) (2 ^ 1074) = nearest_units a b)%Z.
Proof.
  intros Ha Hb.
  assert (Etop : nearest_units (2 ^ 2098) (2 ^ 1074) = (2 ^ 2098)%Z)
    by (vm_compute; reflexivity).
  unfold nearest_units at 2 3. cbv zeta.
  set (u := (a * 2 ^ 1074)%Z).
  set (X := (u / b)%Z).
  set (s := Z.max (Z.log2 X - 52) 0).
  set (n := rne u (b * 2 ^ s)).
  assert (HP : (0 < 2 ^ 1074)%Z) by (apply Z.pow_pos_nonneg; lia).
  assert (Hu : (0 <= u)%Z) by (unfold u; nia).
  assert (HX : (0 <= X)%Z) by (apply Z.div_pos; lia).
  assert (Hs : (0 <= s)%Z) by (unfold s; lia).
  assert (Hps : (0 < 2 ^ s)%Z) by (apply Z.pow_pos_nonneg; lia).
  destruct (@rne_cases u (b * 2 ^ s)%Z ltac:(nia)) as (_ & _ & _ & Hn1 & Hn2).
  fold n in Hn1, Hn2.
  rewrite <- Z.div_div in Hn1, Hn2 by lia. fold X in Hn1, Hn2.
  assert (B1 : (X / 2 ^ s < 2 ^ 53)%Z).
  { apply Z.div_lt_upper_bound; [exact Hps|].
    apply log2_upper; [exact HX | exact Hs | unfold s; lia]. }
  assert (B0 : (0 <= X / 2 ^ s)%Z) by (apply Z.div_pos; lia).
  assert (B2 : (0 < s -> 2 ^ 52 <= X / 2 ^ s)%Z).
  { intros Hs0. apply Z.div_le_lower_bound; [exact Hps|].
    apply log2_lower; [lia | unfold s in *; lia]. }
  destruct (Z_le_gt_dec (n * 2 ^ s) (2 ^ 2098)) as [Hle|Hgt].
  - rewrite (Z.min_l _ _ Hle).
    destruct (Z_lt_le_dec n (2 ^ 53)) as [Hn|Hn].
    + apply nearest_units_fixed;
        [lia | lia | intros Hs0; specialize (B2 Hs0); lia | lia].
    + assert (En : n = (2 ^ 53)%Z) by lia.
      rewrite En.
      replace (2 ^ 53 * 2 ^ s)%Z with (2 ^ 52 * 2 ^ (s + 1))%Z.
      2:{ rewrite <- !Z.pow_add_r by lia. f_equal. lia. }
      apply nearest_units_fixed; [lia | | intros _; lia |].
      * split; [apply Z.pow_nonneg; lia | apply Z.pow_lt_mono_r; lia].
      * rewrite <- Z.pow_add_r by lia. rewrite En in Hle.
        rewrite <- Z.pow_add_r in Hle by lia.
        replace (52 + (s + 1))%Z with (53 + s)%Z by lia. exact Hle.
  - rewrite Z.min_r by lia. exact Etop.
Qed.

(** The rounding as computed is the rounding as defined. *)
Lemma round_units_eq (a b : Z) :
  (0 < b)%Z -> round_units a b = nearest_units a b.
Proof.
  intros Hb. unfold round_units, nearest_units, rne. cbv zeta.
  generalize (2 ^ 2098)%Z (a * 2 ^ 1074)%Z. intros top u.
  set (x := (u / b)%Z).
  set (s := Z.max (Z.log2 x - 52) 0).
  assert (Hs : (0 <= s)%Z) by (unfold s; lia).
  assert (Hp : (0 < 2 ^ s)%Z) by (apply Z.pow_pos_nonneg; lia).
  rewrite !Z.shiftl_mul_pow2, Z.shiftr_div_pow2 by exact Hs.
  assert (Eq : (u / (b * 2 ^ s) = x / 2 ^ s)%Z)
    by (unfold x; rewrite Z.div_div by lia; reflexivity).
  rewrite Eq.
  assert (Er : (u mod (b * 2 ^ s) = u - x / 2 ^ s * b * 2 ^ s)%Z).
  { rewrite Z.mod_eq by nia. rewrite Eq. ring. }
  rewrite Er. reflexivity.
Qed.

Lemma round_units_mono (a b c d : Z) :
  (0 <= a -> 0 < b -> 0 < d -> a * d <= c * b ->
   round_units a b <= round_units c d)%Z.
Proof.
  intros Ha Hb Hd H. rewrite !round_units_eq by assumption.
  apply nearest_units_mono; assumption.
Qed.

Lemma round_units_nonneg (a b : Z) : (0 <= a -> 0 < b -> 0 <= round_units a b)%Z.
Proof.
  intros Ha Hb. rewrite round_units_eq by assumption.
  apply nearest_units_nonneg; assumption.
Qed.

Lemma round_units_proper (a b c d : Z) :
  (0 <= a -> 0 < b -> 0 < d -> a * d = c * b -> round_units a b = round_units c d)%Z.
Proof.
  intros Ha Hb Hd H. rewrite !round_units_eq by assumption.
  apply nearest_units_proper; assumption.
Qed.

Lemma round_units_idem (a b : Z) :
  (0 <= a -> 0 < b ->
   round_units (round_units a b) (2 ^ 1074) = round_units a b)%Z.
Proof.
  intros Ha Hb.
  rewrite (@round_units_eq a b) by assumption.
  rewrite round_units_eq by (apply Z.pow_pos_nonneg; lia).
  apply nearest_units_idem; assumption.
Qed.

Lemma strip2_correct (n d : positive) :
  (Zpos (fst (strip2 n d)) * Zpos d = Zpos n * Zpos (snd (strip2 n d)))%Z.
Proof.
  revert d. induction n as [n IH|n IH|]; intros d; try reflexivity.
  destruct d as [d|d|]; try reflexivity.
  cbn [strip2]. specialize (IH d). lia.
Qed.

Lemma dyadic_correct (n : Z) (d : positive) : dyadic n d == n # d.
Proof.
  destruct n as [|p|p]; unfold dyadic.
  - reflexivity.
  - pose proof (strip2_correct p d) as H.
    destruct (strip2 p d) as [p' d']. cbn [fst snd] in H.
    unfold Qeq. cbn [Qnum Qden]. exact H.
  - pose proof (strip2_correct p d) as H.
    destruct (strip2 p d) as [p' d']. cbn [fst snd] in H.
    unfold Qeq. cbn [Qnum Qden]. lia.
Qed.

Lemma round_units_0 (b : Z) : (0 < b)%Z -> round_units 0 b = 0%Z.
Proof.
  intros Hb. apply Z.le_antisymm; [|apply round_units_nonneg; lia].
  assert (H : (round_units 0 b <= round_units 0 1)%Z)
    by (apply round_units_mono; lia).
  assert (E : round_units 0 1 = 0%Z) by (vm_compute; reflexivity).
  lia.
Qed.

(** Rounding keeps the order. *)
Lemma round64_le (x y : Q) : x <= y -> round64 x <= round64 y.
Proof.
  intros H. unfold round64. cbv zeta.
  generalize (2 ^ 1074)%positive. intros P.
  set (bx := Zpos (Qden x)) in *. set (by' := Zpos (Qden y)) in *.
  assert (Hbx : (0 < bx)%Z) by (unfold bx; lia).
  assert (Hby : (0 < by')%Z) by (unfold by'; lia).
  assert (H' : (Qnum x * by' <= Qnum y * bx)%Z) by exact H.
  destruct (Z.ltb_spec (Qnum x) 0) as [Nx|Px];
    destruct (Z.ltb_spec (Qnum y) 0) as [Ny|Py];
    rewrite !dyadic_correct; unfold Qle; cbn [Qnum Qden].
  - pose proof (@round_units_mono (- Qnum y) by' (- Qnum x) bx
                  ltac:(lia) Hby Hbx ltac:(nia)).
    nia.
  - pose proof (@round_units_nonneg (- Qnum x) bx ltac:(lia) Hbx).
    pose proof (@round_units_nonneg (Qnum y) by' Py Hby).
    nia.
  - exfalso. nia.
  - pose proof (@round_units_mono (Qnum x) bx (Qnum y) by' Px Hbx Hby H').
    nia.
Qed.

(** Equal rationals round to the same double, written the same way. *)
Lemma round64_proper (x y : Q) : x == y -> round64 x = round64 y.
Proof.
  intros H. unfold Qeq in H. unfold round64. cbv zeta.
  assert (Hx : (0 < Zpos (Qden x))%Z) by lia.
  assert (Hy : (0 < Zpos (Qden y))%Z) by lia.
  destruct (Z.ltb_spec (Qnum x) 0) as [Nx|Px];
    destruct (Z.ltb_spec (Qnum y) 0) as [Ny|Py]; try (exfalso; nia).
  - rewrite (@round_units_proper (- Qnum x) (Zpos (Qden x)) (- Qnum y) (Zpos (Qden y)))
      by lia.
    reflexivity.
  - rewrite (@round_units_proper (Qnum x) (Zpos (Qden x)) (Qnum y) (Zpos (Qden y)))
      by lia.
    reflexivity.
Qed.

Lemma round64_0 : round64 0 = 0.
Proof. vm_compute. reflexivity. Qed.

Lemma round64_nonneg (x : Q) : 0 <= x -> 0 <= round64 x.
Proof. intros H. rewrite <- round64_0. apply round64_le. exact H. Qed.

Lemma round64_nonpos (x : Q) : x <= 0 -> round64 x <= 0.
Proof. intros H. rewrite <- round64_0. apply round64_le. exact H. Qed.

Lemma round64_opp (x : Q) : round64 (- x) == - round64 x.
Proof.
  unfold round64. cbv zeta.
  generalize (2 ^ 1074)%positive. intros P.
  cbn [Qopp Qnum Qden].
  assert (Hb : (0 < Zpos (Qden x))%Z) by lia.
  destruct (Z.ltb_spec (- Qnum x) 0) as [N|N];
    destruct (Z.ltb_spec (Qnum x) 0) as [M|M]; try lia;
    rewrite !dyadic_correct.
  - rewrite Z.opp_involutive. unfold Qeq. cbn [Qopp Qnum Qden]. lia.
  - unfold Qeq. cbn [Qopp Qnum Qden]. lia.
  - assert (E : Qnum x = 0%Z) by lia. rewrite E. cbn [Z.opp].
    rewrite round_units_0 by exact Hb. reflexivity.
Qed.

Lemma round64_abs (x : Q) : Qabs (round64 x) == round64 (Qabs x).
Proof.
  destruct (Qlt_le_dec x 0) as [N|P].
  - assert (Hx : x <= 0) by (apply Qlt_le_weak; exact N).
    rewrite (round64_proper (Qabs_neg x Hx)).
    rewrite (Qabs_neg (round64 x) (round64_nonpos Hx)).
    symmetry. apply round64_opp.
  - rewrite (round64_proper (Qabs_pos x P)).
    rewrite (Qabs_pos (round64 x) (round64_nonneg P)). reflexivity.
Qed.

Lemma round64_half : round64 (1 # 2) = 1 # 2.
Proof. vm_compute. reflexivity. Qed.

Lemma round64_24 : round64 24 = 24.
Proof. vm_compute. reflexivity. Qed.

Lemma round64_idem (x : Q) : round64 (round64 x) = round64 x.
Proof.
  assert (Hb : (0 < Zpos (Qden x))%Z) by lia.
  assert (Key : forall r : Z, (0 <= r)%Z ->
            round_units r (2 ^ 1074) = r ->
            round64 (r # 2 ^ 1074) = dyadic r (2 ^ 1074) /\
            round64 (- r # 2 ^ 1074) = dyadic (- r) (2 ^ 1074)).
  { intros r Hr E. unfold round64. cbv zeta. cbn [Qnum Qden].
    replace (Zpos (2 ^ 1074)) with (2 ^ 1074)%Z by (symmetry; apply Pos2Z.inj_pow).
    split.
    - destruct (Z.ltb_spec r 0) as [N|N]; [lia|]. rewrite E. reflexivity.
    - destruct (Z.ltb_spec (- r) 0) as [N|N].
      + rewrite Z.opp_involutive, E. reflexivity.
      + assert (r = 0%Z) by lia. subst r. cbn [Z.opp]. rewrite E. reflexivity. }
  unfold round64 at 2 3. cbv zeta.
  destruct (Z.ltb_spec (Qnum x) 0) as [N|N].
  - set (r := round_units (- Qnum x) (Zpos (Qden x))).
    assert (Hr : (0 <= r)%Z) by (apply round_units_nonneg; lia).
    rewrite (round64_proper (dyadic_correct (- r) (2 ^ 1074))).
    apply (Key r Hr). apply round_units_idem; lia.
  - set (r := round_units (Qnum x) (Zpos (Qden x))).
    assert (Hr : (0 <= r)%Z) by (apply round_units_nonneg; lia).
    rewrite (round64_proper (dyadic_correct r (2 ^ 1074))).
    apply (Key r Hr). apply round_units_idem; lia.
Qed.

(** ** Sample runs of the timestamp parser *)

Example strptime_ok :
  strptime "20240911_170000" = Ok (mk_datetime 2024 9 11 17 0 0).
Proof. reflexivity. Qed.

Example strptime_trailing : strptime "20240911_170000x" = Raise ValueError.
Proof. reflexivity. Qed.

Example strptime_bad_day : strptime "20240230_170000" = Raise ValueError.
Proof. reflexivity. Qed.

Example strptime_no_timestamp : strptime "notes" = Raise ValueError.
Proof. reflexivity. Qed.

(* ===================================================================== *)
(** ** The order on timestamps *)
(* ===================================================================== *)

Lemma lex_compare_refl (a : list Z) : lex_compare a a = Eq.
Proof.
  induction a as [|x a IH]; simpl; [reflexivity|].
  rewrite Z.compare_refl. exact IH.
Qed.

Lemma lex_compare_antisym (a b : list Z) :
  lex_compare b a = CompOpp (lex_compare a b).
Proof.
  revert b. induction a as [|x a IH]; intros [|y b]; simpl; try reflexivity.
  rewrite (Z.compare_antisym x y).
  destruct (Z.compare x y); simpl; auto.
Qed.

Lemma lex_compare_eq (a b : list Z) : lex_compare a b = Eq -> a = b.
Proof.
  revert b. induction a as [|x a IH]; intros [|y b]; simpl; try congruence.
  destruct (Z.compare_spec x y) as [E|L|G]; try congruence.
  intros H. subst y. f_equal. apply IH. exact H.
Qed.

Lemma lex_compare_lt_trans (a b c : list Z) :
  lex_compare a b = Lt -> lex_compare b c = Lt -> lex_compare a c = Lt.
Proof.
  revert b c. induction a as [|x a IH]; intros [|y b] [|z c]; simpl; try congruence.
  destruct (Z.compare_spec x y) as [E|L|G]; try congruence;
  destruct (Z.compare_spec y z) as [E'|L'|G']; try congruence; intros H1 H2.
  - subst. rewrite Z.compare_refl. eapply IH; eassumption.
  - subst. apply Z.compare_lt_iff in L'. rewrite L'. reflexivity.
  - subst. apply Z.compare_lt_iff in L. rewrite L. reflexivity.
  - assert (Hxz : (x < z)%Z) by lia.
    apply Z.compare_lt_iff in Hxz. rewrite Hxz. reflexivity.
Qed.

Lemma compare_eq (a b : datetime) : Datetime.compare a b = Eq -> a = b.
Proof.
  intros H. apply lex_compare_eq in H.
  destruct a, b. unfold to_tuple in H. simpl in H.
  injection H as -> -> -> -> -> ->. reflexivity.
Qed.

Lemma leb_refl (t : datetime) : leb t t = true.
Proof. unfold leb, Datetime.compare. rewrite lex_compare_refl. reflexivity. Qed.

Lemma ltb_irrefl (t : datetime) : ltb t t = false.
Proof. unfold ltb, Datetime.compare. rewrite lex_compare_refl. reflexivity. Qed.

Lemma leb_total (a b : datetime) : leb a b = true \/ leb b a = true.
Proof.
  unfold leb, Datetime.compare.
  rewrite (lex_compare_antisym (to_tuple a) (to_tuple b)).
  destruct (lex_compare (to_tuple a) (to_tuple b)); simpl; auto.
Qed.

Lemma ltb_false_leb (a b : datetime) : ltb a b = false -> leb b a = true.
Proof.
  unfold ltb, leb, Datetime.compare.
  rewrite (lex_compare_antisym (to_tuple a) (to_tuple b)).
  destruct (lex_compare (to_tuple a) (to_tuple b)); simpl; congruence.
Qed.

Lemma ltb_leb (a b : datetime) : ltb a b = true -> leb a b = true.
Proof.
  unfold ltb, leb. destruct (Datetime.compare a b); congruence.
Qed.

Lemma leb_antisym (a b : datetime) : leb a b = true -> leb b a = true -> a = b.
Proof.
  unfold leb, Datetime.compare.
  rewrite (lex_compare_antisym (to_tuple a) (to_tuple b)).
  destruct (lex_compare (to_tuple a) (to_tuple b)) eqn:E; simpl; try congruence.
  intros _ _. apply compare_eq. exact E.
Qed.

Lemma leb_trans (a b c : datetime) :
  leb a b = true -> leb b c = true -> leb a c = true.
Proof.
  unfold leb. intros H1 H2.
  destruct (Datetime.compare a b) eqn:E1; try discriminate;
  destruct (Datetime.compare b c) eqn:E2; try discriminate.
  - apply compare_eq in E1. subst. rewrite E2. reflexivity.
  - apply compare_eq in E1. subst. rewrite E2. reflexivity.
  - apply compare_eq in E2. subst. rewrite E1. reflexivity.
  - unfold Datetime.compare in *.
    rewrite (lex_compare_lt_trans _ _ _ E1 E2). reflexivity.
Qed.

Lemma ltb_eqb_false (a b : datetime) : ltb a b = true -> Datetime.eqb a b = false.
Proof.
  unfold ltb, Datetime.eqb. destruct (Datetime.compare a b); congruence.
Qed.

Lemma eqb_eq (a b : datetime) : Datetime.eqb a b = true <-> a = b.
Proof.
  unfold Datetime.eqb. split.
  - destruct (Datetime.compare a b) eqn:E; try discriminate.
    intros _. apply compare_eq. exact E.
  - intros ->. unfold Datetime.compare. rewrite lex_compare_refl. reflexivity.
Qed.

(* ===================================================================== *)
(** ** Run labelling *)
(* ===================================================================== *)

Lemma in_run_dec (self : OfflineAnalysis) (l : run_label) (t : datetime) :
  {in_run self l t} + {~ in_run self l t}.
Proof.
  unfold in_run.
  destruct (leb (fst (run_intervals self l)) t);
  destruct (leb t (snd (run_intervals self l)));
  (left; split; reflexivity) || (right; intros [? ?]; discriminate).
Qed.

Lemma assign_control (self : OfflineAnalysis) (t : datetime) :
  _assign_run_label self t = Some control_run <-> in_run self control_run t.
Proof.
  unfold _assign_run_label, in_run.
  destruct (leb (fst (run_intervals self control_run)) t);
  destruct (leb t (snd (run_intervals self control_run))); simpl;
  try (split; [reflexivity || (intros _; split; reflexivity) | reflexivity]).
  all: split; [|intros [? ?]; discriminate].
  all: destruct (leb (fst (run_intervals self xenon_run)) t
                 && leb t (snd (run_intervals self xenon_run))); discriminate.
Qed.

Lemma assign_xenon (self : OfflineAnalysis) (t : datetime) :
  _assign_run_label self t = Some xenon_run <->
  ~ in_run self control_run t /\ in_run self xenon_run t.
Proof.
  unfold _assign_run_label, in_run.
  destruct (leb (fst (run_intervals self control_run)) t);
  destruct (leb t (snd (run_intervals self control_run)));
  destruct (leb (fst (run_intervals self xenon_run)) t);
  destruct (leb t (snd (run_intervals self xenon_run))); simpl;
  split; try discriminate; try tauto;
  try (intros [H1 [H2 H3]]; try discriminate; exfalso; apply H1; split; reflexivity);
  try (intros _; split; [intros [? ?]; discriminate | split; reflexivity]).
Qed.

Lemma assign_none (self : OfflineAnalysis) (t : datetime) :
  _assign_run_label self t = None <->
  ~ in_run self control_run t /\ ~ in_run self xenon_run t.
Proof.
  unfold _assign_run_label, in_run.
  destruct (leb (fst (run_intervals self control_run)) t);
  destruct (leb t (snd (run_intervals self control_run)));
  destruct (leb (fst (run_intervals self xenon_run)) t);
  destruct (leb t (snd (run_intervals self xenon_run))); simpl;
  split; try discriminate;
  try (intros _; split; intros [? ?]; discriminate);
  try (intros [H1 H2]; exfalso; (apply H1; split; reflexivity) || (apply H2; split; reflexivity)).
Qed.

Lemma in_run_bounds (self : OfflineAnalysis) (l : run_label) :
  leb (fst (run_intervals self l)) (snd (run_intervals self l)) = true ->
  in_run self l (fst (run_intervals self l)) /\
  in_run self l (snd (run_intervals self l)).
Proof.
  intros H. unfold in_run. rewrite !leb_refl, H. repeat split.
Qed.

(** C8.  Run labelling is a total function into the three labels
    (control, xenon, none) and reads its intervals as closed ranges: a
    timestamp inside the control range is labelled control whatever the
    xenon range says (first match wins); one outside the control range and
    inside the xenon range is labelled xenon; any other gets no label.
    The two bounds of a non-empty interval lie inside it.  With the default
    intervals, 2024-09-11 17:00, 2024-09-16 12:00 and 2024-09-20 09:00 are
    labelled control, xenon and xenon: 12:00 on the 16th is past the start
    of the xenon run (11:21); 10:00 on that day, in the pause between the
    runs, gets no label. *)
Theorem assign_run_label_total_closed (self : OfflineAnalysis) (t : datetime) :
  (_assign_run_label self t = Some control_run \/
   _assign_run_label self t = Some xenon_run \/
   _assign_run_label self t = None) /\
  (in_run self control_run t -> _assign_run_label self t = Some control_run) /\
  (~ in_run self control_run t -> in_run self xenon_run t ->
   _assign_run_label self t = Some xenon_run) /\
  (~ in_run self control_run t -> ~ in_run self xenon_run t ->
   _assign_run_label self t = None) /\
  (forall l, leb (fst (run_intervals self l)) (snd (run_intervals self l)) = true ->
             in_run self l (fst (run_intervals self l)) /\
             in_run self l (snd (run_intervals self l))) /\
  (forall dir,
      _assign_run_label (__init__ dir) (mk_datetime 2024 9 11 17 0 0) = Some control_run /\
      _assign_run_label (__init__ dir) (mk_datetime 2024 9 16 12 0 0) = Some xenon_run /\
      _assign_run_label (__init__ dir) (mk_datetime 2024 9 20 9 0 0) = Some xenon_run /\
      _assign_run_label (__init__ dir) (mk_datetime 2024 9 16 10 0 0) = None).
Proof.
  split; [|split; [|split; [|split; [|split]]]].
  - destruct (_assign_run_label self t) as [[|]|]; auto.
  - intros Hc. apply assign_control. exact Hc.
  - intros Hc Hx. apply assign_xenon. split; assumption.
  - intros Hc Hx. apply assign_none. split; assumption.
  - intros l. apply in_run_bounds.
  - intros dir. split; [|split; [|split]]; reflexivity.
Qed.

(** C8, as the specification words its example: the scan of 2024-09-16
    12:00 would be unlabelled.  The code labels it xenon. *)
Lemma assign_run_label_example_is_xenon :
  _assign_run_label (__init__ []) (mk_datetime 2024 9 16 12 0 0) = Some xenon_run /\
  _assign_run_label (__init__ []) (mk_datetime 2024 9 16 12 0 0) <> None.
Proof. split; [reflexivity | discriminate]. Qed.

(** The bounds of the default intervals themselves: each is labelled with
    its own run. *)
Example default_interval_bounds (dir : list dat_file) :
  map (_assign_run_label (__init__ dir))
      [mk_datetime 2024 9 11 16 46 0; mk_datetime 2024 9 16 9 44 0;
       mk_datetime 2024 9 16 11 21 0; mk_datetime 2024 9 26 11 0 0;
       mk_datetime 2024 9 11 16 45 59; mk_datetime 2024 9 26 11 0 1]
  = [Some control_run; Some control_run; Some xenon_run; Some xenon_run; None; None].
Proof. reflexivity. Qed.

(* ===================================================================== *)
(** ** The stable sort *)
(* ===================================================================== *)

Section StableSortFacts.

Variable A : Type.
Variable lt : A -> A -> bool.
Variable le : A -> A -> Prop.

Hypothesis lt_le : forall a b, lt a b = true -> le a b.
Hypothesis not_lt_le : forall a b, lt a b = false -> le b a.

Lemma insert_perm (x : A) (l : list A) : Permutation (x :: l) (insert lt x l).
Proof.
  induction l as [|y l IH]; simpl.
  - apply Permutation_refl.
  - destruct (lt y x).
    + eapply perm_trans; [apply perm_swap|]. apply perm_skip. exact IH.
    + apply Permutation_refl.
Qed.

Lemma sort_perm (l : list A) : Permutation l (sort lt l).
Proof.
  induction l as [|x l IH]; simpl.
  - apply perm_nil.
  - eapply perm_trans; [apply perm_skip; exact IH|]. apply insert_perm.
Qed.

Lemma insert_hdrel (x y : A) (l : list A) :
  le y x -> HdRel le y l -> HdRel le y (insert lt x l).
Proof.
  intros Hyx Hl. destruct l as [|z l]; simpl.
  - constructor. exact Hyx.
  - destruct (lt z x); constructor.
    + inversion Hl; assumption.
    + exact Hyx.
Qed.

Lemma insert_sorted (x : A) (l : list A) :
  Sorted le l -> Sorted le (insert lt x l).
Proof.
  induction 1 as [|y l Hs IH Hhd]; simpl.
  - repeat constructor.
  - destruct (lt y x) eqn:E.
    + constructor; [exact IH|]. apply insert_hdrel; auto.
    + constructor; [constructor; assumption|]. constructor. auto.
Qed.

Lemma sort_sorted (l : list A) : Sorted le (sort lt l).
Proof.
  induction l as [|x l IH]; simpl.
  - constructor.
  - apply insert_sorted. exact IH.
Qed.

(** Inserting [x] does not disturb the sub-sequence picked by [p], as
    long as nothing smaller than a picked [x] is picked. *)
Lemma insert_filter (p : A -> bool) (x : A) (l : list A) :
  (p x = true -> forall y, lt y x = true -> p y = false) ->
  filter p (insert lt x l) = filter p (x :: l).
Proof.
  intros Hp. induction l as [|y l IH]; simpl; [reflexivity|].
  destruct (lt y x) eqn:E; [|reflexivity].
  simpl. rewrite IH. simpl.
  destruct (p x) eqn:Px; [|reflexivity].
  rewrite (Hp eq_refl y E). reflexivity.
Qed.

Lemma sort_filter (p : A -> bool) (l : list A) :
  (forall x y, p x = true -> lt y x = true -> p y = false) ->
  filter p (sort lt l) = filter p l.
Proof.
  intros Hp. induction l as [|x l IH]; simpl; [reflexivity|].
  rewrite insert_filter by (intros Px y; apply Hp; exact Px).
  simpl. rewrite IH. reflexivity.
Qed.

(** A list already in order is left as it is. *)
Lemma sort_sorted_id (l : list A) :
  StronglySorted (fun a b => lt b a = false) l -> sort lt l = l.
Proof.
  induction 1 as [|x l Hs IH Hall]; simpl; [reflexivity|].
  rewrite IH. destruct l as [|y l]; simpl; [reflexivity|].
  inversion Hall as [|? ? Hy _]; subst. rewrite Hy. reflexivity.
Qed.

End StableSortFacts.

(* ===================================================================== *)
(** ** The repository built by [load_data] *)
(* ===================================================================== *)

Lemma combine_unzip3 (l : list scan_record) :
  combine (combine (map (fun r => fst (fst r)) l) (map (fun r => snd (fst r)) l))
          (map snd l) = l.
Proof.
  induction l as [|[[t p] lab] l IH]; simpl; [reflexivity|].
  rewrite IH. reflexivity.
Qed.

(** What a successful [load_data] leaves in the object. *)
Lemma load_data_ok (self self' : OfflineAnalysis) (g : option (list Q)) :
  load_data self g = Ok self' ->
  exists time_and_data,
    ingest self (grid_of g) = Ok time_and_data /\
    time_and_data <> [] /\
    scans self' = sort_by_timestamp time_and_data /\
    times self' = map timestamp_of (sort_by_timestamp time_and_data) /\
    interpolated_data self' = map (fun r => snd (fst r)) (sort_by_timestamp time_and_data) /\
    masses self' = grid_of g.
Proof.
  unfold load_data. fold (grid_of g).
  destruct (ingest self (grid_of g)) as [td|e] eqn:E; simpl; [|discriminate].
  destruct (sort_by_timestamp td) as [|r rs] eqn:Es; [discriminate|].
  intros H. injection H as <-. exists td. split; [reflexivity|].
  split.
  - intros ->. discriminate.
  - unfold scans. simpl. rewrite Es.
    pose proof (combine_unzip3 (r :: rs)) as Hc. simpl in Hc.
    repeat split; try reflexivity. exact Hc.
Qed.

Lemma sort_by_timestamp_sorted (l : list scan_record) :
  Sorted (fun a b => leb (timestamp_of a) (timestamp_of b) = true)
         (sort_by_timestamp l).
Proof.
  unfold sort_by_timestamp.
  apply sort_sorted.
  - intros a b H. apply ltb_leb. exact H.
  - intros a b H. apply ltb_false_leb. exact H.
Qed.

Lemma sort_by_timestamp_chronological (l : list scan_record) :
  chronological (map timestamp_of (sort_by_timestamp l)).
Proof.
  unfold chronological.
  assert (H : StronglySorted (fun a b => leb (timestamp_of a) (timestamp_of b) = true)
                             (sort_by_timestamp l)).
  { apply Sorted_StronglySorted.
    - intros a b c. apply leb_trans.
    - apply sort_by_timestamp_sorted. }
  induction H as [|r rs Hs IH Hall]; simpl; constructor.
  - exact IH.
  - apply Forall_map. exact Hall.
Qed.

Lemma sort_by_timestamp_stable (t : datetime) (l : list scan_record) :
  taken_at t (sort_by_timestamp l) = taken_at t l.
Proof.
  unfold taken_at, sort_by_timestamp.
  apply sort_filter.
  intros x y Hx Hlt.
  apply eqb_eq in Hx. unfold timestamp_of in *.
  destruct (Datetime.eqb (fst (fst y)) t) eqn:E; [|reflexivity].
  apply eqb_eq in E. rewrite Hx, E in Hlt. rewrite ltb_irrefl in Hlt. discriminate.
Qed.

(** C9.  After a successful [load_data] the timestamps of the repository
    are in non-decreasing order, whatever the order in which the files
    were listed; the repository holds exactly the scans ingested, and the
    scans that share a timestamp appear in the order of their discovery. *)
Theorem load_data_sorted_stable (self self' : OfflineAnalysis) (g : option (list Q)) :
  load_data self g = Ok self' ->
  chronological (times self') /\
  exists time_and_data,
    ingest self (grid_of g) = Ok time_and_data /\
    Permutation time_and_data (scans self') /\
    forall t, taken_at t (scans self') = taken_at t time_and_data.
Proof.
  intros H. apply load_data_ok in H.
  destruct H as (td & Hi & _ & Hs & Ht & _).
  split.
  - rewrite Ht. apply sort_by_timestamp_chronological.
  - exists td. split; [exact Hi|]. rewrite Hs. split.
    + apply sort_perm.
    + intros t. apply sort_by_timestamp_stable.
Qed.

Lemma load_sample_dir :
  load_data (__init__ sample_dir) (Some sample_grid) = Ok sample_loaded.
Proof. vm_compute. reflexivity. Qed.

Lemma load_data_sorted_stable_witness :
  load_data (__init__ sample_dir) (Some sample_grid) = Ok sample_loaded /\
  chronological (times sample_loaded) /\
  exists time_and_data,
    ingest (__init__ sample_dir) sample_grid = Ok time_and_data /\
    Permutation time_and_data (scans sample_loaded) /\
    forall t, taken_at t (scans sample_loaded) = taken_at t time_and_data.
Proof.
  split.
  - vm_compute. reflexivity.
  - apply (load_data_sorted_stable (__init__ sample_dir) (Some sample_grid)).
    vm_compute. reflexivity.
Defined.

(** The two scans of 2024-09-11 17:00 stay in the order of the listing,
    and the scan listed first, the latest one, comes last. *)
Example sample_loaded_order :
  interpolated_data sample_loaded =
  [[nan; fin 1; fin (4 # 2); fin 3; fin 2; nan];
   [nan; fin 7; fin (14 # 2); fin 7; fin 7; nan];
   [nan; fin 2; fin (4 # 2); fin 2; fin 2; nan];
   [nan; fin 4; fin (12 # 2); fin 8; fin 6; nan]].
Proof. vm_compute. reflexivity. Qed.

(* ===================================================================== *)
(** ** Ingestion stops at the first malformed file *)
(* ===================================================================== *)

Lemma for_each_append {A B : Type} (F : A -> result B) (l : list A) (acc : list B) :
  for_each (fun acc x => r <- F x ;; Ok (acc ++ [r])) l acc =
  (rs <- mapM F l ;; Ok (acc ++ rs)).
Proof.
  revert acc. induction l as [|x l IH]; intros acc; simpl.
  - rewrite app_nil_r. reflexivity.
  - destruct (F x) as [r|e]; simpl; [|reflexivity].
    rewrite IH. destruct (mapM F l) as [rs|e]; simpl; [|reflexivity].
    rewrite <- app_assoc. reflexivity.
Qed.

Lemma ingest_mapM (self : OfflineAnalysis) (g : list Q) :
  ingest self g = mapM (ingest_file self g) (data_files_of self).
Proof.
  unfold ingest. rewrite for_each_append.
  destruct (mapM (ingest_file self g) (data_files_of self)); reflexivity.
Qed.

Lemma mapM_ok_all {A B : Type} (F : A -> result B) (l : list A) (rs : list B) :
  mapM F l = Ok rs -> forall x, In x l -> is_ok (F x) = true.
Proof.
  revert rs. induction l as [|y l IH]; intros rs H x Hin; [destruct Hin|].
  simpl in H. destruct (F y) as [r|e] eqn:Ey; simpl in H; [|discriminate].
  destruct (mapM F l) as [rs'|e] eqn:El; simpl in H; [|discriminate].
  destruct Hin as [<-|Hin].
  - rewrite Ey. reflexivity.
  - eapply IH; [reflexivity | exact Hin].
Qed.

Lemma mapM_raise {A B : Type} (F : A -> result B) (l : list A) (x : A) :
  In x l -> is_ok (F x) = false -> exists e, mapM F l = Raise e.
Proof.
  intros Hin Hx. destruct (mapM F l) as [rs|e] eqn:E.
  - rewrite (mapM_ok_all F l E x Hin) in Hx. discriminate.
  - exists e. reflexivity.
Qed.

Lemma ingest_file_ok_parts (self : OfflineAnalysis) (g : list Q) (f : dat_file) :
  is_ok (ingest_file self g f) = true ->
  filename_ok f = true /\ content_ok f = true.
Proof.
  unfold ingest_file, filename_ok, content_ok.
  destruct (strptime (time_str_of (file_name f))) as [t|e]; simpl; [|discriminate].
  destruct (loadtxt (file_lines f)) as [a|e]; simpl; [|discriminate].
  destruct (column a 0) as [c0|e]; simpl; [|discriminate].
  destruct (column a 1) as [c1|e]; simpl; [|discriminate].
  intros _. split; reflexivity.
Qed.

(** C1, as amended.  [load_data] has no handler: it returns a repository
    only when every [.dat] file of the directory has a parseable name and
    a parseable table, and a single [.dat] file that fails either test
    makes the whole call raise, whatever the other files hold. *)
Theorem load_data_all_or_nothing (self : OfflineAnalysis) (g : option (list Q)) :
  (forall self', load_data self g = Ok self' ->
     forall f, In f (data_files_of self) ->
       filename_ok f = true /\ content_ok f = true) /\
  (forall f, In f (data_files_of self) ->
     filename_ok f = false \/ content_ok f = false ->
     exists e, load_data self g = Raise e).
Proof.
  split.
  - intros self' H f Hin. apply load_data_ok in H.
    destruct H as (td & Hi & _). rewrite ingest_mapM in Hi.
    apply (ingest_file_ok_parts self (grid_of g)).
    exact (mapM_ok_all _ _ Hi f Hin).
  - intros f Hin Hbad.
    assert (Hf : is_ok (ingest_file self (grid_of g) f) = false).
    { destruct (is_ok (ingest_file self (grid_of g) f)) eqn:E; [|reflexivity].
      apply ingest_file_ok_parts in E. destruct E as [E1 E2].
      destruct Hbad as [Hb|Hb]; congruence. }
    destruct (mapM_raise (ingest_file self (grid_of g)) _ f Hin Hf) as [e He].
    exists e. unfold load_data. fold (grid_of g).
    rewrite ingest_mapM, He. reflexivity.
Qed.

(** C1, as the specification words it: a malformed file is skipped and
    the others are ingested.  One file with no timestamp in its name, or
    one with a non-numeric field, between two good files makes [load_data]
    raise, while the two good files alone load. *)
Lemma load_data_aborts_on_malformed_file :
  load_data (__init__ [file_sep11; file_bad_name; file_sep16]) (Some sample_grid)
    = Raise ValueError /\
  load_data (__init__ [file_sep11; file_bad_content; file_sep16]) (Some sample_grid)
    = Raise ValueError /\
  is_ok (load_data (__init__ [file_sep11; file_sep16]) (Some sample_grid)) = true /\
  ~ skip_policy.
Proof.
  split; [vm_compute; reflexivity|].
  split; [vm_compute; reflexivity|].
  split; [vm_compute; reflexivity|].
  intros H.
  specialize (H (__init__ [file_sep11; file_bad_name; file_sep16]) (Some sample_grid)).
  vm_compute in H. discriminate H.
Qed.

(* ===================================================================== *)
(** ** [argmin] *)
(* ===================================================================== *)

Lemma argmin_ne_spec (x : Q) (l : list Q) :
  first_minimum (x :: l) (fst (argmin_ne x l)) (snd (argmin_ne x l)).
Proof.
  revert x. induction l as [|y l IH]; intros x.
  - simpl. repeat split.
    + intros [|[|j]] z Hz; simpl in Hz; try discriminate.
      injection Hz as <-. apply Qle_refl.
    + intros j z Hj. inversion Hj.
  - simpl. specialize (IH y).
    destruct (argmin_ne y l) as [j m]. simpl in IH.
    destruct IH as (Hn & Hmin & Hfirst).
    destruct (Qlt_bool m x) eqn:E; simpl.
    + apply Qlt_bool_iff in E. repeat split.
      * exact Hn.
      * intros [|k] z Hz; simpl in Hz.
        -- injection Hz as <-. apply Qlt_le_weak. exact E.
        -- eapply Hmin. exact Hz.
      * intros [|k] z Hk Hz; simpl in Hz.
        -- injection Hz as <-. exact E.
        -- eapply Hfirst; [|exact Hz]. lia.
    + apply Qlt_bool_false_iff in E. repeat split.
      * intros [|k] z Hz; simpl in Hz.
        -- injection Hz as <-. apply Qle_refl.
        -- eapply Qle_trans; [exact E|]. eapply Hmin. exact Hz.
      * intros k z Hk. inversion Hk.
Qed.

Lemma argmin_ok (l : list Q) :
  l <> [] -> exists i m, argmin l = Ok i /\ first_minimum l i m.
Proof.
  destruct l as [|x l]; [congruence|]. intros _.
  exists (fst (argmin_ne x l)), (snd (argmin_ne x l)).
  split; [reflexivity | apply argmin_ne_spec].
Qed.

Lemma first_minimum_lt_length (l : list Q) (i : nat) (m : Q) :
  first_minimum l i m -> (i < List.length l)%nat.
Proof.
  intros [H _]. apply nth_error_Some. congruence.
Qed.

Lemma getitem_nth {A : Type} (l : list A) (i : nat) (d : A) :
  (i < List.length l)%nat -> getitem l i = Ok (nth i l d).
Proof.
  intros H. unfold getitem.
  rewrite (nth_error_nth' l d H). reflexivity.
Qed.

Lemma getitem_ok {A : Type} (l : list A) (i : nat) (a : A) :
  getitem l i = Ok a <-> nth_error l i = Some a.
Proof.
  unfold getitem. destruct (nth_error l i); split; congruence.
Qed.

(* ===================================================================== *)
(** ** Nearest-point extraction *)
(* ===================================================================== *)

Lemma skipn_cons_nth {A : Type} (l : list A) (n : nat) (a : A) :
  nth_error l n = Some a -> skipn n l = a :: skipn (S n) l.
Proof.
  revert n. induction l as [|x l IH]; intros [|n] H; simpl in *; try discriminate.
  - injection H as ->. reflexivity.
  - apply IH. exact H.
Qed.

Section NearestLoop.

Variable body : list float64 * list datetime -> nat * list float64 ->
                result (list float64 * list datetime).
Variable all_times : list datetime.
Variable idx : nat.

Lemma loop_skip (rows : list (nat * list float64)) (acc : list float64 * list datetime) :
  (forall acc x, body acc x = Ok acc) ->
  for_each body rows acc = Ok acc.
Proof.
  intros Hbody. induction rows as [|x rows IH]; simpl; [reflexivity|].
  rewrite Hbody. simpl. exact IH.
Qed.

Lemma loop_keep (rows : list (list float64)) :
  (forall ps ts i row,
      body (ps, ts) (i, row) =
      (p <- getitem row idx ;; t <- getitem all_times i ;; Ok (ps ++ [p], ts ++ [t]))) ->
  Forall (fun row => (idx < List.length row)%nat) rows ->
  forall n ps ts,
    (n + List.length rows <= List.length all_times)%nat ->
    for_each body (enumerate_from n rows) (ps, ts) =
    Ok (ps ++ map (entry idx) rows,
        ts ++ firstn (List.length rows) (skipn n all_times)).
Proof.
  intros Hbody Hrows. induction Hrows as [|row rows Hrow _ IH]; intros n ps ts Hn; simpl.
  - rewrite !app_nil_r. reflexivity.
  - simpl in Hn. rewrite Hbody.
    rewrite (getitem_nth row nan Hrow). simpl.
    destruct (nth_error all_times n) as [t|] eqn:Et.
    2:{ apply nth_error_None in Et. lia. }
    unfold getitem at 1. rewrite Et. simpl.
    rewrite IH by lia.
    rewrite (skipn_cons_nth _ _ Et). simpl.
    rewrite <- !app_assoc. reflexivity.
Qed.

End NearestLoop.

Lemma nth_error_deviations (grid : list Q) (mass : Q) (i : nat) (d : Q) :
  nth_error (deviations grid mass) i = Some d ->
  exists m, nth_error grid i = Some m /\ d = Qabs (sub64 m mass).
Proof.
  unfold deviations. rewrite nth_error_map.
  destruct (nth_error grid i) as [m|]; simpl; [|discriminate].
  intros H. injection H as <-. exists m. split; reflexivity.
Qed.

(** The whole loop in one equation: the index and the tolerance test are
    the same at every scan. *)
Lemma get_mass_evolution_eq (self : OfflineAnalysis) (mass : Q) (idx : nat) (d : Q) :
  consistent self ->
  argmin (deviations (masses self) mass) = Ok idx ->
  first_minimum (deviations (masses self) mass) idx d ->
  get_mass_evolution self mass =
  Ok (if Qlt_bool mass_exclusion d then ([], [])
      else (map (entry idx) (interpolated_data self), times self)).
Proof.
  intros [Hlen Hrows] Harg Hmin.
  pose proof (first_minimum_lt_length Hmin) as Hidx.
  unfold deviations in Hidx. rewrite length_map in Hidx.
  destruct Hmin as (Hnth & _).
  destruct (nth_error_deviations _ _ _ Hnth) as (m & Hm & ->).
  unfold get_mass_evolution. fold (deviations (masses self) mass).
  destruct (Qlt_bool mass_exclusion (Qabs (sub64 m mass))) eqn:E.
  - apply loop_skip. intros [ps ts] [i row].
    rewrite Harg. cbn [Py.bind]. apply getitem_ok in Hm. rewrite Hm. cbn [Py.bind].
    rewrite E. reflexivity.
  - unfold enumerate.
    rewrite (@loop_keep _ (times self) idx).
    + simpl. rewrite <- Hlen, firstn_all. reflexivity.
    + intros ps ts i row.
      rewrite Harg. cbn [Py.bind]. apply getitem_ok in Hm. rewrite Hm. cbn [Py.bind].
      rewrite E. reflexivity.
    + eapply Forall_impl; [|exact Hrows]. simpl. intros row Hr. lia.
    + simpl. lia.
Qed.

Lemma interp1d_length (x y : list Q) (f : list Q -> list float64) (g : list Q) :
  interp1d x y = Ok f -> List.length (f g) = List.length g.
Proof.
  unfold interp1d.
  destruct (negb (List.length x =? List.length y)%nat); [discriminate|].
  destruct (List.length x <? 1)%nat; [discriminate|].
  intros H. injection H as <-. unfold interp_eval.
  destruct (sort _ (combine x y)) as [|[x0 y0] ks]; apply length_map.
Qed.

Lemma ingest_file_length (self : OfflineAnalysis) (g : list Q) (f : dat_file)
  (r : scan_record) :
  ingest_file self g f = Ok r -> List.length (snd (fst r)) = List.length g.
Proof.
  unfold ingest_file.
  destruct (strptime (time_str_of (file_name f))) as [t|e]; simpl; [|discriminate].
  destruct (loadtxt (file_lines f)) as [a|e]; simpl; [|discriminate].
  destruct (column a 0) as [c0|e]; simpl; [|discriminate].
  destruct (column a 1) as [c1|e]; simpl; [|discriminate].
  destruct (interp1d c0 c1) as [fn|e] eqn:E; simpl; [|discriminate].
  intros H. injection H as <-. simpl. eapply interp1d_length. exact E.
Qed.

Lemma mapM_Forall {A B : Type} (F : A -> result B) (P : B -> Prop) (l : list A)
  (rs : list B) :
  (forall x r, F x = Ok r -> P r) -> mapM F l = Ok rs -> Forall P rs.
Proof.
  intros HF. revert rs. induction l as [|x l IH]; intros rs H; simpl in H.
  - injection H as <-. constructor.
  - destruct (F x) as [r|e] eqn:Ex; simpl in H; [|discriminate].
    destruct (mapM F l) as [rs'|e]; simpl in H; [|discriminate].
    injection H as <-. constructor; [eapply HF; exact Ex | apply IH; reflexivity].
Qed.

(** [load_data] establishes the repository invariant. *)
Lemma load_data_consistent (self self' : OfflineAnalysis) (g : option (list Q)) :
  load_data self g = Ok self' -> consistent self'.
Proof.
  intros H. apply load_data_ok in H.
  destruct H as (td & Hi & _ & _ & Ht & Hd & Hm).
  unfold consistent. rewrite Ht, Hd, Hm, !length_map. split; [reflexivity|].
  rewrite ingest_mapM in Hi.
  apply Forall_map.
  assert (Htd : Forall (fun r => List.length (snd (fst r)) = List.length (grid_of g)) td).
  { eapply mapM_Forall; [|exact Hi]. intros x r. apply ingest_file_length. }
  eapply Permutation_Forall; [|exact Htd].
  apply sort_perm.
Qed.

Lemma nearest_index_first_minimum (grid : list Q) (mass : Q) :
  grid <> [] ->
  argmin (deviations grid mass) = Ok (nearest_index grid mass) /\
  first_minimum (deviations grid mass) (nearest_index grid mass)
                (Qabs (sub64 (nth (nearest_index grid mass) grid 0) mass)).
Proof.
  intros Hg.
  destruct (argmin_ok (l := deviations grid mass)) as (i & d & Ha & Hmin).
  { destruct grid; [congruence | discriminate]. }
  unfold nearest_index. rewrite Ha. split; [reflexivity|].
  destruct Hmin as (Hn & Hrest).
  destruct (nth_error_deviations _ _ _ Hn) as (m & Hm & ->).
  rewrite (nth_error_nth _ _ 0 Hm).
  split; [exact Hn | exact Hrest].
Qed.

(** The computed distance is the rounded exact one, so it keeps the
    order of the exact distances. *)
Lemma deviation_rounds (m mass : Q) :
  Qabs (sub64 m mass) == round64 (Qabs (m - mass)).
Proof. unfold sub64. apply round64_abs. Qed.

Lemma deviation_le (m m' mass : Q) :
  Qabs (m - mass) <= Qabs (m' - mass) ->
  Qabs (sub64 m mass) <= Qabs (sub64 m' mass).
Proof. intros H. rewrite !deviation_rounds. apply round64_le. exact H. Qed.

Lemma deviation_within (m mass : Q) :
  Qabs (m - mass) <= mass_exclusion -> Qabs (sub64 m mass) <= mass_exclusion.
Proof.
  intros H. rewrite deviation_rounds.
  assert (E : round64 mass_exclusion == mass_exclusion) by (vm_compute; reflexivity).
  rewrite <- E. apply round64_le. exact H.
Qed.



(** C10, as the specification words it: the series is empty when the
    nearest grid mass is not within the tolerance.  The only grid mass,
    3/4, lies farther than the tolerance from 0.24999999999999997, by
    [2^-55]; the computed distance is 1/2, and the scan is kept. *)
Lemma get_mass_evolution_full_beyond_tolerance :
  is_double below_quarter /\
  mass_exclusion < Qabs ((3 # 4) - below_quarter) /\
  get_mass_evolution (one_scan [3 # 4] [fin 7]) below_quarter
    = Ok ([fin 7], [mk_datetime 2024 9 17 10 0 0]).
Proof.
  split; [split; vm_compute; reflexivity|].
  split; vm_compute; reflexivity.
Qed.

(** A mass 20 amu away from the sample grid gives an empty series; mass 2
    gives the four pressures at grid index 3 in time order. *)
Example get_mass_evolution_sample :
  get_mass_evolution sample_loaded 24 = Ok ([], []) /\
  get_mass_evolution sample_loaded 2 =
    Ok ([fin 3; fin 7; fin 2; fin 8], times sample_loaded).
Proof. split; vm_compute; reflexivity. Qed.

Lemma nth_error_map_entry (idx k : nat) (rows : list (list float64)) (p : float64) :
  Forall (fun row => (idx < List.length row)%nat) rows ->
  nth_error (map (entry idx) rows) k = Some p ->
  exists row, nth_error rows k = Some row /\ nth_error row idx = Some p.
Proof.
  intros Hrows. rewrite nth_error_map.
  destruct (nth_error rows k) as [row|] eqn:E; simpl; [|discriminate].
  intros H. injection H as <-. exists row. split; [reflexivity|].
  unfold entry. apply nth_error_nth'.
  rewrite Forall_forall in Hrows. apply Hrows. eapply nth_error_In. exact E.
Qed.

Lemma consistent_rows (self : OfflineAnalysis) (idx : nat) :
  consistent self -> (idx < List.length (masses self))%nat ->
  Forall (fun row => (idx < List.length row)%nat) (interpolated_data self).
Proof.
  intros [_ Hrows] Hidx. eapply Forall_impl; [|exact Hrows].
  simpl. intros row Hr. lia.
Qed.



(** C6, as the specification words it: no emitted sample comes from a
    grid mass farther than the tolerance from the requested mass.  The
    only grid mass, 1, lies farther than 0.5 from 0.49999999999999994, by
    [2^-54]; the distance computed in double precision is 0.5, and the
    sample is emitted. *)
Lemma get_mass_evolution_emits_beyond_tolerance :
  is_double below_half /\
  mass_exclusion < Qabs (1 - below_half) /\
  Qabs (sub64 1 below_half) == mass_exclusion /\
  get_mass_evolution (one_scan [1] [fin 7]) below_half
    = Ok ([fin 7], [mk_datetime 2024 9 17 10 0 0]).
Proof.
  split; [split; vm_compute; reflexivity|].
  repeat split; vm_compute; reflexivity.
Qed.

(** On an exact tie the lower index wins: 5/4 is as far from 1 (index 1)
    as from 3/2 (index 2). *)
Example nearest_index_tie : nearest_index sample_grid (5 # 4) = 1%nat.
Proof. vm_compute. reflexivity. Qed.

(* ===================================================================== *)
(** ** The missing-value marker in extracted series *)
(* ===================================================================== *)

(** C2, as amended.  Nearest-point extraction never looks at the
    pressure it emits: when the nearest grid mass is within the tolerance,
    every scan contributes its entry at the selected index, and a scan
    whose entry there is the missing-value marker contributes the marker
    itself rather than being left out. *)
Theorem get_mass_evolution_keeps_nan (self : OfflineAnalysis) (mass : Q) :
  consistent self ->
  masses self <> [] ->
  within_tolerance (masses self) mass = true ->
  exists ps ts,
    get_mass_evolution self mass = Ok (ps, ts) /\
    List.length ps = List.length (interpolated_data self) /\
    ts = times self /\
    forall k row,
      nth_error (interpolated_data self) k = Some row ->
      nth_error ps k = Some (entry (nearest_index (masses self) mass) row) /\
      (nth_error row (nearest_index (masses self) mass) = Some nan ->
       nth_error ps k = Some nan).
Proof.
  intros Hc Hg Hw.
  destruct (nearest_index_first_minimum mass Hg) as [Ha Hmin].
  pose proof (@get_mass_evolution_eq self mass _ _ Hc Ha Hmin) as Heq.
  unfold within_tolerance in Hw. apply negb_true_iff in Hw. rewrite Hw in Heq.
  eexists. eexists. split; [exact Heq|].
  split; [apply length_map|]. split; [reflexivity|].
  intros k row Hrow.
  assert (Hk : nth_error (map (entry (nearest_index (masses self) mass))
                              (interpolated_data self)) k
               = Some (entry (nearest_index (masses self) mass) row)).
  { rewrite nth_error_map, Hrow. reflexivity. }
  split; [exact Hk|].
  intros Hnan. rewrite Hk. unfold entry.
  rewrite (nth_error_nth _ _ nan Hnan). reflexivity.
Qed.

Lemma get_mass_evolution_keeps_nan_witness :
  consistent sample_loaded /\
  masses sample_loaded <> [] /\
  within_tolerance (masses sample_loaded) 4 = true /\
  exists ps ts,
    get_mass_evolution sample_loaded 4 = Ok (ps, ts) /\
    List.length ps = List.length (interpolated_data sample_loaded) /\
    ts = times sample_loaded /\
    forall k row,
      nth_error (interpolated_data sample_loaded) k = Some row ->
      nth_error ps k = Some (entry (nearest_index (masses sample_loaded) 4) row) /\
      (nth_error row (nearest_index (masses sample_loaded) 4) = Some nan ->
       nth_error ps k = Some nan).
Proof.
  assert (Hc : consistent sample_loaded).
  { split; [reflexivity | repeat constructor]. }
  assert (Hg : masses sample_loaded <> []).
  { vm_compute. discriminate. }
  assert (Hw : within_tolerance (masses sample_loaded) 4 = true).
  { vm_compute. reflexivity. }
  split; [exact Hc|]. split; [exact Hg|]. split; [exact Hw|].
  exact (get_mass_evolution_keeps_nan (self := sample_loaded) 4 Hc Hg Hw).
Defined.

(** C2, as the specification words it: no mode emits the missing-value
    marker.  The sample files cover masses 1 to 3; the grid points 1/2 and
    4 lie outside, so every scan holds the marker there, and asking for
    either mass returns four samples that are all the marker. *)
Lemma get_mass_evolution_emits_nan :
  get_mass_evolution sample_loaded (1 # 2)
    = Ok ([nan; nan; nan; nan], times sample_loaded) /\
  get_mass_evolution sample_loaded 4
    = Ok ([nan; nan; nan; nan], times sample_loaded) /\
  List.length (times sample_loaded) = 4%nat.
Proof. repeat split; vm_compute; reflexivity. Qed.

(* ===================================================================== *)
(** ** Interpolation onto the mass grid *)
(* ===================================================================== *)

Lemma increasing_knots (xs ys : list Q) :
  increasing xs -> StronglySorted knot_lt (combine xs ys).
Proof.
  intros H. revert ys. induction H as [|x xs Hs IH Hall]; intros ys; simpl.
  - constructor.
  - destruct ys as [|y ys]; constructor.
    + apply IH.
    + rewrite Forall_forall in *. intros [x' y'] Hin.
      unfold knot_lt. simpl. apply Hall. eapply in_combine_l. exact Hin.
Qed.

Lemma sort_increasing_knots (knots : list (Q * Q)) :
  StronglySorted knot_lt knots ->
  sort (fun a b => Qlt_bool (fst a) (fst b)) knots = knots.
Proof.
  intros H. apply sort_sorted_id.
  eapply StronglySorted_ind with (P := fun l => StronglySorted _ l) in H.
  - exact H.
  - constructor.
  - intros a l _ IH Hall. constructor; [exact IH|].
    eapply Forall_impl; [|exact Hall]. intros b Hab. unfold knot_lt in Hab.
    apply Qlt_bool_false_iff. apply Qlt_le_weak. exact Hab.
Qed.

Lemma knots_first_le (k0 : Q * Q) (knots : list (Q * Q)) (d : Q * Q) :
  StronglySorted knot_lt (k0 :: knots) ->
  forall k, In k (k0 :: knots) ->
    fst k0 <= fst k /\ fst k <= fst (last (k0 :: knots) d).
Proof.
  revert k0. induction knots as [|k1 knots IH]; intros k0 Hs k Hin.
  - destruct Hin as [<-|[]]. simpl. split; apply Qle_refl.
  - inversion Hs as [|? ? Hs' Hall]; subst.
    change (last (k0 :: k1 :: knots) d) with (last (k1 :: knots) d).
    assert (H01 : fst k0 < fst k1).
    { inversion Hall; assumption. }
    destruct Hin as [<-|Hin].
    + split; [apply Qle_refl|].
      destruct (IH k1 Hs' k1 (or_introl eq_refl)) as [_ Hl].
      eapply Qle_trans; [apply Qlt_le_weak; exact H01 | exact Hl].
    + destruct (IH k1 Hs' k Hin) as [Hf Hl]. split; [|exact Hl].
      eapply Qle_trans; [apply Qlt_le_weak; exact H01 | exact Hf].
Qed.

Lemma on_broken_line_tail (k0 : Q * Q) (knots : list (Q * Q)) (g v : Q) :
  on_broken_line knots g v -> on_broken_line (k0 :: knots) g v.
Proof.
  intros (k & x0 & y0 & Hk & H). exists (S k), x0, y0. split; [exact Hk|].
  destruct H as [H|(x1 & y1 & Hk1 & H)]; [left; exact H|].
  right. exists x1, y1. split; [exact Hk1 | exact H].
Qed.

(** Inside the knots' range [np_interp] follows the broken line. *)
Lemma np_interp_on_broken_line (k0 : Q * Q) (knots : list (Q * Q)) (g : Q) (d : Q * Q) :
  StronglySorted knot_lt (k0 :: knots) ->
  fst k0 <= g -> g <= fst (last (k0 :: knots) d) ->
  on_broken_line (k0 :: knots) g (np_interp (k0 :: knots) g).
Proof.
  revert k0. induction knots as [|[x1 y1] knots IH]; intros [x0 y0] Hs Hlo Hhi.
  - simpl in *. exists O, x0, y0. split; [reflexivity|]. left.
    split; [apply Qle_antisym; assumption | reflexivity].
  - change (last ((x0, y0) :: (x1, y1) :: knots) d)
      with (last ((x1, y1) :: knots) d) in Hhi.
    inversion Hs as [|? ? Hs' Hall]; subst.
    assert (H01 : x0 < x1).
    { inversion Hall as [|? ? H _]; exact H. }
    cbn [np_interp]. destruct (Qlt_bool g x1) eqn:E.
    + apply Qlt_bool_iff in E. exists O, x0, y0. split; [reflexivity|].
      right. exists x1, y1. split; [reflexivity|].
      simpl in Hlo. split; [exact Hlo|]. split; [exact E|].
      field. intros Hz. lra.
    + apply Qlt_bool_false_iff in E. apply on_broken_line_tail.
      apply IH; assumption.
Qed.

Lemma map_fst_combine (xs ys : list Q) :
  List.length xs = List.length ys -> map fst (combine xs ys) = xs.
Proof.
  revert ys. induction xs as [|x xs IH]; intros [|y ys] H; simpl in *;
    try discriminate; [reflexivity|].
  f_equal. apply IH. lia.
Qed.

Lemma last_in {A : Type} (a : A) (l : list A) (d : A) : In (last (a :: l) d) (a :: l).
Proof.
  revert a. induction l as [|b l IH]; intros a.
  - left. reflexivity.
  - right. change (last (a :: b :: l) d) with (last (b :: l) d). apply IH.
Qed.

Lemma interp_eval_nth (k0 : Q * Q) (knots : list (Q * Q)) (grid : list Q)
  (i : nat) (g : Q) :
  nth_error grid i = Some g ->
  nth_error (interp_eval (k0 :: knots) grid) i =
  Some (if Qlt_bool g (fst k0) || Qlt_bool (fst (last (k0 :: knots) (fst k0, 0))) g
        then nan else fin (np_interp (k0 :: knots) g)).
Proof.
  intros Hg. destruct k0 as [x0 y0]. unfold interp_eval.
  rewrite nth_error_map, Hg. reflexivity.
Qed.

(** Sorted knots are used as they come. *)
Lemma interp1d_increasing (xs ys : list Q) :
  increasing xs -> xs <> [] -> List.length xs = List.length ys ->
  interp1d xs ys = Ok (interp_eval (combine xs ys)).
Proof.
  intros Hinc Hne Hlen. unfold interp1d.
  rewrite Hlen, Nat.eqb_refl.
  destruct ys as [|y0 ys]; [destruct xs; [congruence | discriminate]|].
  rewrite (sort_increasing_knots (increasing_knots (y0 :: ys) Hinc)).
  reflexivity.
Qed.

(** C7.  For a raw scan with strictly increasing masses, the
    interpolant exists and, evaluated on the mass grid, gives one entry
    per grid point: the missing-value marker where the grid point lies
    outside the range of the raw masses, and otherwise the value of the
    broken line through the raw (mass, pressure) points. *)
Theorem interp1d_on_grid (xs ys grid : list Q) :
  increasing xs ->
  xs <> [] ->
  List.length xs = List.length ys ->
  exists f,
    interp1d xs ys = Ok f /\
    List.length (f grid) = List.length grid /\
    forall i g,
      nth_error grid i = Some g ->
      (out_of_range xs g -> nth_error (f grid) i = Some nan) /\
      (in_range xs g ->
       exists v, nth_error (f grid) i = Some (fin v) /\
                 on_broken_line (combine xs ys) g v).
Proof.
  intros Hinc Hne Hlen.
  pose proof (increasing_knots ys Hinc) as Hknots.
  exists (interp_eval (combine xs ys)).
  split; [apply interp1d_increasing; assumption|].
  pose proof (map_fst_combine xs ys Hlen) as Hfst.
  destruct (combine xs ys) as [|[x0 y0] knots] eqn:Ek.
  { destruct xs; [congruence | discriminate]. }
  split; [apply length_map|].
  intros i g Hg. rewrite (@interp_eval_nth (x0, y0) knots grid i g Hg).
  cbn [fst].
  assert (Hbounds : forall x, In x xs ->
                      x0 <= x /\ x <= fst (last ((x0, y0) :: knots) (x0, 0))).
  { intros x Hx. rewrite <- Hfst in Hx. apply in_map_iff in Hx.
    destruct Hx as (k & <- & Hk).
    exact (@knots_first_le _ _ (x0, 0) Hknots k Hk). }
  assert (Hlast : In (fst (last ((x0, y0) :: knots) (x0, 0))) xs).
  { rewrite <- Hfst. apply in_map. apply last_in. }
  assert (Hfirst : In x0 xs).
  { rewrite <- Hfst. left. reflexivity. }
  split.
  - intros [Hlo|Hhi].
    + assert (E : Qlt_bool g x0 = true).
      { apply Qlt_bool_iff. apply Hlo. exact Hfirst. }
      rewrite E. reflexivity.
    + assert (E : Qlt_bool (fst (last ((x0, y0) :: knots) (x0, 0))) g = true).
      { apply Qlt_bool_iff. apply Hhi. exact Hlast. }
      rewrite E, orb_true_r. reflexivity.
  - intros (a & b & Ha & Hb & Hag & Hgb).
    assert (Hlo : x0 <= g).
    { eapply Qle_trans; [apply (Hbounds a Ha) | exact Hag]. }
    assert (Hhi : g <= fst (last ((x0, y0) :: knots) (x0, 0))).
    { eapply Qle_trans; [exact Hgb | apply (Hbounds b Hb)]. }
    assert (E1 : Qlt_bool g x0 = false) by (apply Qlt_bool_false_iff; exact Hlo).
    assert (E2 : Qlt_bool (fst (last ((x0, y0) :: knots) (x0, 0))) g = false)
      by (apply Qlt_bool_false_iff; exact Hhi).
    rewrite E1, E2. cbn [orb].
    eexists. split; [reflexivity|].
    apply (@np_interp_on_broken_line _ _ g (x0, 0) Hknots Hlo Hhi).
Qed.

Lemma interp1d_on_grid_witness :
  increasing [1; 2; 3] /\
  exists f,
    interp1d [1; 2; 3] [1; 3; 2] = Ok f /\
    List.length (f sample_grid) = List.length sample_grid /\
    forall i g,
      nth_error sample_grid i = Some g ->
      (out_of_range [1; 2; 3] g -> nth_error (f sample_grid) i = Some nan) /\
      (in_range [1; 2; 3] g ->
       exists v, nth_error (f sample_grid) i = Some (fin v) /\
                 on_broken_line (combine [1; 2; 3] [1; 3; 2]) g v).
Proof.
  assert (Hinc : increasing [1; 2; 3]).
  { repeat constructor; reflexivity. }
  split; [exact Hinc|].
  apply (interp1d_on_grid (xs := [1; 2; 3]) [1; 3; 2] sample_grid Hinc).
  - discriminate.
  - reflexivity.
Defined.

(** The scan (1,1), (2,3), (3,2) on the sample grid 1/2, 1, 3/2, 2, 3, 4. *)
Example interp1d_sample :
  match interp1d [1; 2; 3] [1; 3; 2] with
  | Ok f => f sample_grid
  | Raise _ => []
  end = [nan; fin 1; fin (4 # 2); fin 3; fin 2; nan].
Proof. vm_compute. reflexivity. Qed.

(* ===================================================================== *)
(** ** Gap compression *)
(* ===================================================================== *)

Lemma py_max_ok (ps : list float64) : ps <> [] -> exists top, py_max ps = Ok top.
Proof.
  destruct ps as [|p ps]; [congruence|]. intros _. eexists. reflexivity.
Qed.

Lemma nth_error_middle {A : Type} (l1 l2 : list A) (a : A) :
  nth_error (l1 ++ a :: l2) (List.length l1) = Some a.
Proof.
  rewrite nth_error_app2 by lia. rewrite Nat.sub_diag. reflexivity.
Qed.

(** The loop of [_handle_large_gaps] from index [n] on: it emits the
    remaining pressures untouched and the remaining times as the
    specification's walk does. *)
Lemma gap_loop (label_gap : bool) (todo : list Q) :
  forall (done : list Q) (pdone ptodo : list float64) (st : gap_state),
    List.length done = List.length pdone ->
    List.length todo = List.length ptodo ->
    exists st',
      for_each (gap_step (done ++ todo) (pdone ++ ptodo) label_gap)
               (seq (List.length done) (List.length todo)) st = Ok st' /\
      new_ts st' = new_ts st ++ compressed_times (last_time st) (time_shift st) todo /\
      new_ps st' = new_ps st ++ ptodo.
Proof.
  induction todo as [|t todo IH]; intros done pdone ptodo st Hd Ht.
  - destruct ptodo; [|discriminate]. exists st. simpl.
    rewrite !app_nil_r. repeat split.
  - destruct ptodo as [|p ptodo]; [discriminate|].
    simpl in Ht. injection Ht as Ht.
    cbn [List.length seq for_each].
    assert (Hstep : exists st2,
      gap_step (done ++ t :: todo) (pdone ++ p :: ptodo) label_gap st
               (List.length done) = Ok st2 /\
      new_ts st2 = new_ts st ++ [sub64 t (time_shift st2)] /\
      new_ps st2 = new_ps st ++ [p] /\
      last_time st2 = t /\
      time_shift st2 = (if Qlt_bool gap_threshold (sub64 t (last_time st))
                        then add64 (time_shift st) (sub64 t (last_time st))
                        else time_shift st)).
    { unfold gap_step, getitem. rewrite nth_error_middle. cbn [Py.bind].
      rewrite Hd, nth_error_middle.
      destruct (Qlt_bool gap_threshold (sub64 t (last_time st))).
      - destruct label_gap.
        + destruct (@py_max_ok (pdone ++ p :: ptodo)) as [top ->].
          { destruct pdone; discriminate. }
          cbn [Py.bind]. eexists. repeat split.
        + cbn [Py.bind]. eexists. repeat split.
      - cbn [Py.bind]. eexists. repeat split. }
    destruct Hstep as (st2 & -> & Hts & Hps & Hlast & Hshift).
    cbn [Py.bind].
    destruct (IH (done ++ [t]) (pdone ++ [p]) ptodo st2) as (st' & Hrun & Hts' & Hps').
    { rewrite !length_app. simpl. lia. }
    { exact Ht. }
    rewrite <- !app_assoc in Hrun. simpl in Hrun.
    rewrite length_app in Hrun. simpl in Hrun.
    replace (List.length done + 1)%nat with (S (List.length done)) in Hrun by lia.
    exists st'. split; [exact Hrun|]. split.
    + rewrite Hts', Hts, Hlast, Hshift, <- app_assoc. reflexivity.
    + rewrite Hps', Hps, <- app_assoc. reflexivity.
Qed.

(** [_handle_large_gaps] as a whole. *)
Lemma handle_large_gaps_eq (t0 : Q) (ts : list Q) (ps : list float64)
  (ax : list artist) (label_gap : bool) :
  List.length (t0 :: ts) = List.length ps ->
  exists ax',
    _handle_large_gaps (t0 :: ts) ps ax label_gap =
    Ok ((compressed_times t0 0 (t0 :: ts), ps), ax').
Proof.
  intros Hlen. unfold _handle_large_gaps.
  change (getitem (t0 :: ts) 0) with (Ok (A := Q) t0). cbn [Py.bind].
  destruct (@gap_loop label_gap (t0 :: ts) [] [] ps (mk_gap_state [] [] t0 0 ax)
              eq_refl Hlen) as (st' & Hrun & Hts & Hps).
  cbn [app List.length] in Hrun. cbn [List.length]. rewrite Hrun. cbn [Py.bind].
  exists (drawn st'). rewrite Hts, Hps. reflexivity.
Qed.

Lemma last_cons_default {A : Type} (l : list A) (a d1 d2 : A) :
  last (a :: l) d1 = last (a :: l) d2.
Proof.
  revert a. induction l as [|b l IH]; intros a; [reflexivity|].
  change (last (a :: b :: l) d1) with (last (b :: l) d1).
  change (last (a :: b :: l) d2) with (last (b :: l) d2).
  apply IH.
Qed.

(** A double less itself is zero, less zero is itself; zero plus a
    double is the double. *)
Lemma sub64_self (t : Q) : sub64 t t = 0.
Proof.
  unfold sub64. rewrite <- round64_0. apply round64_proper. ring.
Qed.

Lemma sub64_0_r (t : Q) : is_double t -> sub64 t 0 = t.
Proof.
  intros [H _]. unfold sub64. rewrite <- H at 2. apply round64_proper. ring.
Qed.

Lemma add64_0_round (x : Q) : add64 0 (round64 x) = round64 x.
Proof.
  unfold add64. rewrite <- (round64_idem x) at 2. apply round64_proper. ring.
Qed.

Lemma add64_0_sub64 (a b : Q) : add64 0 (sub64 a b) = sub64 a b.
Proof. unfold sub64. apply add64_0_round. Qed.

Lemma sub64_le (a b s : Q) : a <= b -> sub64 a s <= sub64 b s.
Proof. intros H. unfold sub64. apply round64_le. lra. Qed.

Lemma compressed_steady (last_time shift : Q) (l1 l2 : list Q) :
  steady last_time l1 ->
  compressed_times last_time shift (l1 ++ l2) =
  map (fun t => sub64 t shift) l1 ++ compressed_times (last l1 last_time) shift l2.
Proof.
  revert last_time. induction l1 as [|t l1 IH]; intros last_time Hs.
  - reflexivity.
  - destruct Hs as [Hstep Hs].
    cbn [app compressed_times map].
    assert (E : Qlt_bool gap_threshold (sub64 t last_time) = false)
      by (apply Qlt_bool_false_iff; exact Hstep).
    rewrite E. rewrite (IH t Hs). f_equal. f_equal.
    destruct l1 as [|q l1]; [reflexivity|].
    change (last (t :: q :: l1) last_time) with (last (q :: l1) last_time).
    rewrite (last_cons_default l1 q t last_time). reflexivity.
Qed.

(** With a single gap, between the last time of [l1] and [b]: the times
    before the gap are emitted less 0, those after less the gap. *)
Lemma compressed_single_gap (t0 : Q) (l1 l2 : list Q) (b : Q) :
  steady t0 l1 ->
  gap_threshold < sub64 b (last (t0 :: l1) t0) ->
  steady b l2 ->
  compressed_times t0 0 ((t0 :: l1) ++ b :: l2) =
  map (fun t => sub64 t 0) (t0 :: l1) ++
  map (fun t => sub64 t (sub64 b (last (t0 :: l1) t0))) (b :: l2).
Proof.
  intros Hs1 Hgap Hs2.
  assert (Hs1' : steady t0 (t0 :: l1)).
  { split; [|exact Hs1]. rewrite sub64_self. discriminate. }
  rewrite (@compressed_steady t0 0 (t0 :: l1) (b :: l2) Hs1'). f_equal.
  cbn [compressed_times map].
  assert (E : Qlt_bool gap_threshold (sub64 b (last (t0 :: l1) t0)) = true)
    by (apply Qlt_bool_iff; exact Hgap).
  rewrite E, !add64_0_sub64. f_equal.
  pose proof (@compressed_steady b (sub64 b (last (t0 :: l1) t0)) l2 [] Hs2) as H.
  rewrite !app_nil_r in H. exact H.
Qed.

Lemma map_sub64_0 (l : list Q) : Forall is_double l -> map (fun t => sub64 t 0) l = l.
Proof.
  induction 1 as [|t l Ht _ IH]; simpl; [reflexivity|].
  rewrite (sub64_0_r Ht), IH. reflexivity.
Qed.

Lemma sorted_map_sub64 (s : Q) (l : list Q) :
  StronglySorted Qle l -> StronglySorted Qle (map (fun t => sub64 t s) l).
Proof.
  induction 1 as [|a l Hs IH Hall]; simpl; constructor; [exact IH|].
  apply Forall_map. eapply Forall_impl; [|exact Hall].
  intros x Hx. apply sub64_le. exact Hx.
Qed.

Lemma StronglySorted_app_inv (l1 l2 : list Q) :
  StronglySorted Qle (l1 ++ l2) ->
  StronglySorted Qle l1 /\ StronglySorted Qle l2 /\
  forall x y, In x l1 -> In y l2 -> x <= y.
Proof.
  induction l1 as [|a l1 IH]; simpl; intros H.
  - repeat split; [constructor | exact H | intros x y []].
  - inversion H as [|? ? Hs Hall]; subst.
    destruct (IH Hs) as (H1 & H2 & Hc).
    rewrite Forall_app in Hall. destruct Hall as [Ha1 Ha2].
    repeat split.
    + constructor; assumption.
    + exact H2.
    + intros x y [<-|Hx] Hy.
      * rewrite Forall_forall in Ha2. apply Ha2. exact Hy.
      * apply Hc; assumption.
Qed.

Lemma StronglySorted_app (l1 l2 : list Q) :
  StronglySorted Qle l1 -> StronglySorted Qle l2 ->
  (forall x y, In x l1 -> In y l2 -> x <= y) ->
  StronglySorted Qle (l1 ++ l2).
Proof.
  intros H1 H2 Hc. induction H1 as [|a l1 Hs IH Hall]; simpl; [exact H2|].
  constructor.
  - apply IH. intros x y Hx Hy. apply Hc; [right; exact Hx | exact Hy].
  - apply Forall_app. split; [exact Hall|].
    apply Forall_forall. intros y Hy. apply Hc; [left; reflexivity | exact Hy].
Qed.

Lemma StronglySorted_shift (s : Q) (l : list Q) :
  StronglySorted Qle l -> StronglySorted Qle (map (fun t => t - s) l).
Proof.
  induction 1 as [|a l Hs IH Hall]; simpl; constructor; [exact IH|].
  apply Forall_map. eapply Forall_impl; [|exact Hall].
  simpl. intros b Hab. lra.
Qed.

Lemma sorted_le_last (a : Q) (l : list Q) (x : Q) :
  StronglySorted Qle (a :: l) -> In x (a :: l) -> x <= last (a :: l) a.
Proof.
  revert a x. induction l as [|b l IH]; intros a x Hs Hin.
  - destruct Hin as [<-|[]]. simpl. apply Qle_refl.
  - change (last (a :: b :: l) a) with (last (b :: l) a).
    inversion Hs as [|? ? Hs' Hall]; subst.
    assert (Hlast : last (b :: l) a = last (b :: l) b)
      by apply last_cons_default.
    rewrite Hlast. destruct Hin as [<-|Hin].
    + inversion Hall as [|? ? Hab _]; subst.
      eapply Qle_trans; [exact Hab|]. apply IH; [exact Hs' | left; reflexivity].
    + apply IH; assumption.
Qed.

Lemma last_app_cons {A : Type} (l1 l2 : list A) (a d : A) :
  last (l1 ++ a :: l2) d = last (a :: l2) d.
Proof.
  induction l1 as [|x l1 IH]; [reflexivity|].
  rewrite <- IH. cbn [app].
  destruct (l1 ++ a :: l2) eqn:E; [destruct l1; discriminate | reflexivity].
Qed.

Lemma last_map_cons {A B : Type} (f : A -> B) (l : list A) (a : A) (d : B) :
  last (map f (a :: l)) d = f (last (a :: l) a).
Proof.
  revert a. induction l as [|b l IH]; intros a; [reflexivity|].
  change (last (map f (a :: b :: l)) d) with (last (map f (b :: l)) d).
  change (last (a :: b :: l) a) with (last (b :: l) a).
  rewrite IH. f_equal. apply last_cons_default.
Qed.

Lemma sorted_head_le (b : Q) (l : list Q) (y : Q) :
  StronglySorted Qle (b :: l) -> In y (b :: l) -> b <= y.
Proof.
  intros Hs [<-|Hy]; [apply Qle_refl|].
  inversion Hs as [|? ? _ Hall]; subst.
  rewrite Forall_forall in Hall. apply Hall. exact Hy.
Qed.



(** The sample series: the 120 hours between 30 and 150 are taken out,
    the span falls from 170 to 50, and one marker is drawn at 30. *)
Example handle_large_gaps_sample :
  _handle_large_gaps sample_hours sample_pressures [] true =
  Ok (([0; 10; 30; 30; 40; 50], sample_pressures),
      [axvline 30; text 31 (fmul64 (fin 6) label_height)]).
Proof. vm_compute. reflexivity. Qed.

(** C5, as the specification words it: the compressed times are
    non-decreasing and the span falls by the gap.  Two samples taken 2 s
    and 24 h 3 s after the start of a run: the gap of 24 h 1 s is computed
    as 24.00027777777778 hours, and the second time less this gap is the
    double 0.000555555555553866, below the first time: the output
    decreases, and its span is negative where the input's span less the
    gap is zero. *)
Lemma handle_large_gaps_times_decrease :
  Forall is_double [hours_2s; hours_24h3s] /\
  non_decreasing [hours_2s; hours_24h3s] /\
  gap_threshold < sub64 hours_24h3s hours_2s /\
  _handle_large_gaps [hours_2s; hours_24h3s] [fin 1; fin 2] [] false
    = Ok (([hours_2s; 156374987061 # 281474976710656], [fin 1; fin 2]), []) /\
  (156374987061 # 281474976710656) < hours_2s /\
  span [hours_2s; 156374987061 # 281474976710656] < 0 /\
  span [hours_2s; hours_24h3s] - (hours_24h3s - hours_2s) == 0.
Proof.
  split; [repeat constructor; vm_compute; reflexivity|].
  split; [repeat constructor; vm_compute; discriminate|].
  repeat split; vm_compute; reflexivity.
Qed.

(* ===================================================================== *)
(** ** Peak-window extraction *)
(* ===================================================================== *)

Lemma select_map_filter {A : Type} (p : A -> bool) (l : list A) :
  select l (map p l) = filter p l.
Proof.
  unfold select. induction l as [|x l IH]; simpl; [reflexivity|].
  destruct (p x); simpl; rewrite IH; reflexivity.
Qed.

Lemma select_length {A B : Type} (a : list A) (b : list B) (mask : list bool) :
  List.length a = List.length b ->
  List.length (select a mask) = List.length (select b mask).
Proof.
  unfold select. revert b mask.
  induction a as [|x a IH]; intros [|y b] mask H; try discriminate; [reflexivity|].
  destruct mask as [|m mask]; [reflexivity|].
  simpl in *. destruct m; simpl; [f_equal|]; apply IH; lia.
Qed.

Lemma existsb_mask {A : Type} (p : A -> bool) (l : list A) :
  existsb (fun b => b) (map p l) = negb (match filter p l with [] => true | _ => false end).
Proof.
  induction l as [|x l IH]; simpl; [reflexivity|].
  destruct (p x); simpl; [reflexivity | exact IH].
Qed.

Lemma mapM_getitem {A : Type} (l : list A) (idxs : list nat) (d : A) :
  Forall (fun i => (i < List.length l)%nat) idxs ->
  mapM (getitem l) idxs = Ok (map (fun i => nth i l d) idxs).
Proof.
  induction 1 as [|i idxs Hi _ IH]; simpl; [reflexivity|].
  rewrite (getitem_nth l d Hi), IH. reflexivity.
Qed.

Lemma boolean_index_select {A : Type} (a : list A) (mask : list bool) :
  List.length a = List.length mask -> boolean_index a mask = Ok (select a mask).
Proof.
  intros H. unfold boolean_index. rewrite H, Nat.eqb_refl. reflexivity.
Qed.

Section PeakWindowFacts.

Variable gaussian_filter : list float64 -> Q -> list float64.
Variable find_peaks : list float64 -> Q -> Q -> list nat.

Variable self : OfflineAnalysis.
Variables mass window : Q.
Variable scan_index : nat.
Variable pressures : list float64.

Hypothesis Hscan : nth_error (interpolated_data self) scan_index = Some pressures.
Hypothesis Hrow : List.length pressures = List.length (masses self).

Let mw := masses_window self mass window.
Let pw := pressures_window self mass window pressures.
Let smoothed := gaussian_filter pw peak_sigma.
Let peaks := find_peaks smoothed peak_distance peak_height.

Lemma pw_length : List.length pw = List.length mw.
Proof.
  unfold pw, mw, pressures_window, masses_window.
  rewrite <- (select_map_filter (in_window mass window) (masses self)).
  apply select_length. exact Hrow.
Qed.

(** The function up to the point where the peaks are known. *)
Lemma get_peakfound_pressure_unfold :
  get_peakfound_pressure gaussian_filter find_peaks self mass scan_index window =
  match mw with
  | [] => Ok None
  | _ :: _ =>
      match peaks with
      | [] =>
          idx <- argmin (deviations mw mass) ;;
          p <- getitem pw idx ;;
          m <- getitem mw idx ;;
          Ok (Some (p, m))
      | _ :: _ =>
          peak_masses <- mapM (getitem mw) peaks ;;
          k <- argmin (deviations peak_masses mass) ;;
          peak_idx <- getitem peaks k ;;
          p <- getitem smoothed peak_idx ;;
          m <- getitem mw peak_idx ;;
          Ok (Some (p, m))
      end
  end.
Proof.
  unfold get_peakfound_pressure.
  apply getitem_ok in Hscan. rewrite Hscan. cbn [Py.bind].
  change (map (fun m => Qle_bool (sub64 mass (div64 window 2)) m
                        && Qle_bool m (add64 mass (div64 window 2)))
              (masses self))
    with (map (in_window mass window) (masses self)).
  rewrite existsb_mask. fold (masses_window self mass window). fold mw.
  destruct mw as [|m0 mrest] eqn:Emw; [reflexivity|].
  cbn [negb].
  rewrite (boolean_index_select (masses self) (map (in_window mass window) (masses self)))
    by (rewrite length_map; reflexivity).
  rewrite (boolean_index_select pressures (map (in_window mass window) (masses self)))
    by (rewrite length_map; exact Hrow).
  cbn [Py.bind]. rewrite select_map_filter.
  fold (masses_window self mass window). fold mw. rewrite Emw.
  fold (pressures_window self mass window pressures). fold pw.
  fold smoothed. fold peaks.
  reflexivity.
Qed.

End PeakWindowFacts.



(** C3, as the specification words it: no result when no grid mass lies
    within [mass - window/2, mass + window/2].  For the doubles 0.1 and
    0.6 the upper bound 0.1 + 0.3 is computed as 0.4, while the exact sum
    is less than the double 0.4; the only grid mass, 0.4, is outside the
    exact window and inside the computed one, and a result is
    returned. *)
Lemma get_peakfound_pressure_result_outside_window :
  Forall is_double [double_01; double_04; double_06] /\
  double_01 + double_06 / 2 < double_04 /\
  window_high double_01 double_06 == double_04 /\
  get_peakfound_pressure smooth3 local_maxima (one_scan [double_04] [fin 7])
    double_01 0 double_06 = Ok (Some (fin 7, double_04)).
Proof.
  split; [repeat constructor; vm_compute; reflexivity|].
  repeat split; vm_compute; reflexivity.
Qed.

(** On the repository with a peak, with the stand-ins for the scipy
    routines: around mass 4 with a window of 4 the smoothed peak is
    returned; the flat scan and the scan that holds the missing-value
    marker there fall back to the raw entry nearest in mass; a window
    that misses the grid gives no result. *)
Example get_peakfound_pressure_sample :
  map (fun i => get_peakfound_pressure smooth3 local_maxima peak_loaded 4 i 4)
      [0; 1; 2]%nat
  = [Ok (Some (fin ((5 + 9 + 5) / 3), 4)); Ok (Some (fin 0, 4)); Ok (Some (nan, 4))] /\
  get_peakfound_pressure smooth3 local_maxima peak_loaded 40 0 2 = Ok None.
Proof. split; vm_compute; reflexivity. Qed.

(* ===================================================================== *)
(** ** Relative-ratio extraction *)
(* ===================================================================== *)

Lemma fne0_not_zero (x : float64) : fne0 x = true <-> ~ is_zero x.
Proof.
  destruct x as [|q]; simpl.
  - split; [intros _ [] | reflexivity].
  - rewrite negb_true_iff. split.
    + intros E H. apply Qeq_bool_iff in H. congruence.
    + intros H. destruct (Qeq_bool q 0) eqn:E; [|reflexivity].
      exfalso. apply H. apply Qeq_bool_iff. exact E.
Qed.

(** Guarded by [p_rel != 0], the division goes through. *)
Lemma fdiv_guarded (p p_rel : float64) :
  fne0 p_rel = true -> fdiv p p_rel = Ok (fquot p p_rel).
Proof.
  unfold fquot, fdiv. destruct p_rel as [|b]; simpl; [reflexivity|].
  rewrite negb_true_iff. intros ->. destruct p; reflexivity.
Qed.

Lemma ndf_ok {A : Type} (a : A) : no_division_fault (Ok a).
Proof. discriminate. Qed.

Lemma ndf_bind {A B : Type} (c : result A) (k : A -> result B) :
  no_division_fault c -> (forall a, no_division_fault (k a)) ->
  no_division_fault (Py.bind c k).
Proof.
  intros Hc Hk. destruct c as [a|e]; simpl; [apply Hk|].
  intros H. apply Hc. injection H as ->. reflexivity.
Qed.

Lemma ndf_getitem {A : Type} (l : list A) (i : nat) : no_division_fault (getitem l i).
Proof. unfold getitem. destruct (nth_error l i); discriminate. Qed.

Lemma ndf_argmin (l : list Q) : no_division_fault (argmin l).
Proof. destruct l; discriminate. Qed.

Lemma ndf_boolean_index {A : Type} (a : list A) (mask : list bool) :
  no_division_fault (boolean_index a mask).
Proof. unfold boolean_index. destruct (_ =? _)%nat; discriminate. Qed.

Lemma ndf_mapM {A B : Type} (F : A -> result B) (l : list A) :
  (forall x, no_division_fault (F x)) -> no_division_fault (mapM F l).
Proof.
  intros HF. induction l as [|x l IH]; simpl; [discriminate|].
  apply ndf_bind; [apply HF|]. intros y.
  apply ndf_bind; [exact IH|]. intros ys. discriminate.
Qed.

Lemma ndf_for_each {A S : Type} (body : S -> A -> result S) (l : list A) (acc : S) :
  (forall s x, no_division_fault (body s x)) ->
  no_division_fault (for_each body l acc).
Proof.
  intros Hb. revert acc. induction l as [|x l IH]; intros acc; simpl; [discriminate|].
  apply ndf_bind; [apply Hb | exact IH].
Qed.

Lemma ndf_get_peakfound_pressure gaussian_filter find_peaks self mass i window :
  no_division_fault
    (get_peakfound_pressure gaussian_filter find_peaks self mass i window).
Proof.
  unfold get_peakfound_pressure.
  apply ndf_bind; [apply ndf_getitem|]. intros pressures.
  destruct (negb _); [discriminate|].
  apply ndf_bind; [apply ndf_boolean_index|]. intros mw.
  apply ndf_bind; [apply ndf_boolean_index|]. intros pw.
  destruct (find_peaks _ _ _).
  - apply ndf_bind; [apply ndf_argmin|]. intros idx.
    apply ndf_bind; [apply ndf_getitem|]. intros p.
    apply ndf_bind; [apply ndf_getitem|]. intros m. discriminate.
  - apply ndf_bind; [apply ndf_mapM; intros x; apply ndf_getitem|]. intros pm.
    apply ndf_bind; [apply ndf_argmin|]. intros k.
    apply ndf_bind; [apply ndf_getitem|]. intros pk.
    apply ndf_bind; [apply ndf_getitem|]. intros p.
    apply ndf_bind; [apply ndf_getitem|]. intros m. discriminate.
Qed.

Lemma combine_snoc {A B : Type} (l1 : list A) (l2 : list B) (a : A) (b : B) :
  List.length l1 = List.length l2 ->
  combine (l1 ++ [a]) (l2 ++ [b]) = combine l1 l2 ++ [(a, b)].
Proof.
  revert l2. induction l1 as [|x l1 IH]; intros [|y l2] H; simpl in *;
    try discriminate; [reflexivity|].
  f_equal. apply IH. lia.
Qed.

Section RatioLoop.

Variable gaussian_filter : list float64 -> Q -> list float64.
Variable find_peaks : list float64 -> Q -> Q -> list nat.
Variable self : OfflineAnalysis.
Variables mass mass_rel window : Q.

Let gpp (m : Q) (i : nat) : result (option (float64 * Q)) :=
  get_peakfound_pressure gaussian_filter find_peaks self m i window.

Let body (acc : list float64 * list datetime)
  : nat -> result (list float64 * list datetime) :=
  let '(pressures_ratio, ts) := acc in
  fun i =>
  r <- gpp mass i ;;
  r_rel <- gpp mass_rel i ;;
  match r, r_rel with
  | Some (p, _), Some (p_rel, _) =>
      if fne0 p_rel
      then q <- fdiv p p_rel ;;
           t <- getitem (times self) i ;;
           Ok (pressures_ratio ++ [q], ts ++ [t])
      else Ok (pressures_ratio, ts)
  | _, _ => Ok (pressures_ratio, ts)
  end.

Let emit : nat -> list (datetime * float64) :=
  ratio_sample gaussian_filter find_peaks self mass mass_rel window.

Lemma plot_relative_unfold :
  plot_mass_evolution_peakfound_relative gaussian_filter find_peaks self
    mass mass_rel window =
  ('(pressures_ratio, ts) <-
     for_each body (seq 0 (List.length (times self))) ([], []) ;;
   Ok (ts, pressures_ratio)).
Proof.
  unfold plot_mass_evolution_peakfound_relative, body, gpp. reflexivity.
Qed.

(** One turn of the loop appends what [ratio_sample] tells. *)
Lemma ratio_body (rs : list float64) (ts : list datetime) (i : nat)
  (rs' : list float64) (ts' : list datetime) :
  List.length rs = List.length ts ->
  body (rs, ts) i = Ok (rs', ts') ->
  List.length rs' = List.length ts' /\
  combine ts' rs' = combine ts rs ++ emit i.
Proof.
  intros Hlen. unfold body, emit, ratio_sample. fold (gpp mass i). fold (gpp mass_rel i).
  destruct (gpp mass i) as [r|e]; cbn [Py.bind]; [|discriminate].
  destruct (gpp mass_rel i) as [r_rel|e]; cbn [Py.bind]; [|discriminate].
  assert (Hskip : Ok (rs, ts) = Ok (rs', ts') ->
                  List.length rs' = List.length ts' /\
                  combine ts' rs' = combine ts rs ++ []).
  { intros H. injection H as <- <-. rewrite app_nil_r. split; [exact Hlen | reflexivity]. }
  destruct r as [[p m]|]; [|destruct r_rel as [[? ?]|]; exact Hskip].
  destruct r_rel as [[p_rel m_rel]|]; [|exact Hskip].
  destruct (fne0 p_rel) eqn:E.
  - rewrite (@fdiv_guarded p p_rel E). cbn [Py.bind]. unfold getitem.
    destruct (nth_error (times self) i) as [t|]; cbn [Py.bind]; [|discriminate].
    intros H. injection H as <- <-. split.
    + rewrite !length_app. simpl. lia.
    + apply combine_snoc. symmetry. exact Hlen.
  - destruct (nth_error (times self) i); exact Hskip.
Qed.

Lemma ratio_loop (l : list nat) :
  forall rs ts rs' ts',
    List.length rs = List.length ts ->
    for_each body l (rs, ts) = Ok (rs', ts') ->
    List.length rs' = List.length ts' /\
    combine ts' rs' = combine ts rs ++ flat_map emit l.
Proof.
  induction l as [|i l IH]; intros rs ts rs' ts' Hlen H.
  - simpl in H. injection H as <- <-. simpl. rewrite app_nil_r.
    split; [exact Hlen | reflexivity].
  - cbn [for_each] in H.
    destruct (body (rs, ts) i) as [[rs1 ts1]|e] eqn:Eb; cbn [Py.bind] in H; [|discriminate].
    destruct (ratio_body rs ts i Hlen Eb) as [Hlen1 Hc1].
    destruct (IH rs1 ts1 rs' ts' Hlen1 H) as [Hlen' Hc'].
    split; [exact Hlen'|].
    rewrite Hc', Hc1, <- app_assoc. reflexivity.
Qed.

(** The loop runs to its end as soon as the two peak-window extractions
    do at every scan. *)
Lemma ratio_loop_total (l : list nat) :
  (forall i, In i l -> (i < List.length (times self))%nat /\
                       is_ok (gpp mass i) = true /\ is_ok (gpp mass_rel i) = true) ->
  forall acc, is_ok (for_each body l acc) = true.
Proof.
  induction l as [|i l IH]; intros Hl acc; [reflexivity|].
  cbn [for_each].
  assert (Hb : exists acc', body acc i = Ok acc').
  { destruct (Hl i (or_introl eq_refl)) as (Hi & H1 & H2).
    destruct acc as [rs ts]. unfold body.
    destruct (gpp mass i) as [r|e]; [|discriminate].
    destruct (gpp mass_rel i) as [r_rel|e]; [|discriminate].
    cbn [Py.bind].
    destruct r as [[p m]|]; [|destruct r_rel as [[? ?]|]; eexists; reflexivity].
    destruct r_rel as [[p_rel m_rel]|]; [|eexists; reflexivity].
    destruct (fne0 p_rel) eqn:E; [|eexists; reflexivity].
    rewrite (@fdiv_guarded p p_rel E). cbn [Py.bind].
    rewrite (getitem_nth (times self) (mk_datetime 0 0 0 0 0 0) Hi). cbn [Py.bind].
    eexists. reflexivity. }
  destruct Hb as [acc' ->]. cbn [Py.bind].
  apply IH. intros j Hj. apply Hl. right. exact Hj.
Qed.

Lemma ndf_ratio_body (acc : list float64 * list datetime) (i : nat) :
  no_division_fault (body acc i).
Proof.
  destruct acc as [rs ts]. unfold body.
  apply ndf_bind; [apply ndf_get_peakfound_pressure|]. intros r.
  apply ndf_bind; [apply ndf_get_peakfound_pressure|]. intros r_rel.
  destruct r as [[p m]|]; [|destruct r_rel as [[? ?]|]; discriminate].
  destruct r_rel as [[p_rel m_rel]|]; [|discriminate].
  destruct (fne0 p_rel) eqn:E; [|discriminate].
  rewrite (@fdiv_guarded p p_rel E). cbn [Py.bind].
  apply ndf_bind; [apply ndf_getitem|]. intros t. discriminate.
Qed.

End RatioLoop.

Lemma ratio_sample_inv gaussian_filter find_peaks self mass mass_rel window i t q :
  In (t, q) (ratio_sample gaussian_filter find_peaks self mass mass_rel window i) ->
  exists p m p_rel m_rel,
    nth_error (times self) i = Some t /\
    get_peakfound_pressure gaussian_filter find_peaks self mass i window
      = Ok (Some (p, m)) /\
    get_peakfound_pressure gaussian_filter find_peaks self mass_rel i window
      = Ok (Some (p_rel, m_rel)) /\
    ~ is_zero p_rel /\
    fdiv p p_rel = Ok q.
Proof.
  unfold ratio_sample.
  destruct (get_peakfound_pressure gaussian_filter find_peaks self mass i window)
    as [[[p m]|]|e]; try (simpl; intros Hf; contradiction).
  destruct (get_peakfound_pressure gaussian_filter find_peaks self mass_rel i window)
    as [[[p_rel m_rel]|]|e]; try (simpl; intros Hf; contradiction).
  destruct (nth_error (times self) i) as [t'|]; try (simpl; intros Hf; contradiction).
  destruct (fne0 p_rel) eqn:E; try (simpl; intros Hf; contradiction).
  intros [H|[]]. injection H as <- <-.
  exists p, m, p_rel, m_rel. repeat split.
  - apply fne0_not_zero. exact E.
  - apply fdiv_guarded. exact E.
Qed.

(** C4.  Relative-ratio extraction:
    - never ends in a division fault, whatever the repository and the
      two masses;
    - runs to its end whenever the two peak-window extractions do at
      every scan;
    - returns, scan by scan in repository order, the sample
      (timestamp, pressure / relative pressure) when both peak-window
      results are present and the relative pressure is not zero, and
      nothing for the scan otherwise; so every sample returned comes from a
      scan whose relative pressure is not zero. *)
Theorem ratio_extraction_guarded
  (gaussian_filter : list float64 -> Q -> list float64)
  (find_peaks : list float64 -> Q -> Q -> list nat)
  (self : OfflineAnalysis) (mass mass_rel window : Q) :
  no_division_fault
    (plot_mass_evolution_peakfound_relative gaussian_filter find_peaks self
       mass mass_rel window) /\
  ((forall i, (i < List.length (times self))%nat ->
      is_ok (get_peakfound_pressure gaussian_filter find_peaks self mass i window)
        = true /\
      is_ok (get_peakfound_pressure gaussian_filter find_peaks self mass_rel i window)
        = true) ->
   is_ok (plot_mass_evolution_peakfound_relative gaussian_filter find_peaks self
            mass mass_rel window) = true) /\
  (forall ts ratios,
     plot_mass_evolution_peakfound_relative gaussian_filter find_peaks self
       mass mass_rel window = Ok (ts, ratios) ->
     List.length ts = List.length ratios /\
     combine ts ratios =
       flat_map (ratio_sample gaussian_filter find_peaks self mass mass_rel window)
                (seq 0 (List.length (times self))) /\
     forall t q, In (t, q) (combine ts ratios) ->
       exists i p m p_rel m_rel,
         nth_error (times self) i = Some t /\
         get_peakfound_pressure gaussian_filter find_peaks self mass i window
           = Ok (Some (p, m)) /\
         get_peakfound_pressure gaussian_filter find_peaks self mass_rel i window
           = Ok (Some (p_rel, m_rel)) /\
         ~ is_zero p_rel /\
         fdiv p p_rel = Ok q).
Proof.
  rewrite plot_relative_unfold.
  split; [|split].
  - apply ndf_bind.
    + apply ndf_for_each. intros s x. apply ndf_ratio_body.
    + intros [rs ts]. discriminate.
  - intros Hok.
    pose proof (@ratio_loop_total gaussian_filter find_peaks self mass mass_rel window
                  (seq 0 (List.length (times self)))) as Htot.
    cbv zeta in Htot.
    match goal with
    | |- is_ok (Py.bind ?c _) = true =>
        assert (Hc : is_ok c = true); [|destruct c as [[rs ts]|e]; [reflexivity | discriminate Hc]]
    end.
    apply Htot. intros i Hi. apply in_seq in Hi.
    destruct (Hok i) as [H1 H2]; [lia|]. repeat split; [lia | exact H1 | exact H2].
  - intros ts ratios H.
    match type of H with
    | Py.bind ?c _ = _ => destruct c as [[rs' ts']|e] eqn:Erun; [|discriminate H]
    end.
    cbn [Py.bind] in H. injection H as <- <-.
    pose proof (@ratio_loop gaussian_filter find_peaks self mass mass_rel window
                  _ [] [] rs' ts' eq_refl Erun) as [Hlen Hc].
    cbv zeta in Hc. simpl app in Hc.
    split; [symmetry; exact Hlen|]. split; [exact Hc|].
    intros t q Hin. rewrite Hc in Hin. apply in_flat_map in Hin.
    destruct Hin as (i & _ & Hi).
    destruct (ratio_sample_inv _ _ _ _ _ _ _ _ _ Hi) as (p & m & p_rel & m_rel & Hrest).
    exists i, p, m, p_rel, m_rel. exact Hrest.
Qed.

(** On the repository with a peak: the flat scan, whose relative
    pressure is zero, is left out; the scan that holds the missing-value
    marker gives a sample that is the marker. *)
Example ratio_extraction_sample :
  plot_mass_evolution_peakfound_relative smooth3 local_maxima peak_loaded 4 2 2 =
  Ok ([mk_datetime 2024 9 17 10 0 0; mk_datetime 2024 9 19 10 0 0],
      [fin (9 / 2); nan]).
Proof. reflexivity. Qed.

(* ===================================================================== *)
(** ** More on [load_data] *)
(* ===================================================================== *)

Lemma mapM_length {A B : Type} (F : A -> result B) (l : list A) (rs : list B) :
  mapM F l = Ok rs -> List.length rs = List.length l.
Proof.
  revert rs. induction l as [|x l IH]; intros rs H; simpl in H.
  - injection H as <-. reflexivity.
  - destruct (F x) as [r|e]; simpl in H; [|discriminate].
    destruct (mapM F l) as [rs'|e]; simpl in H; [|discriminate].
    injection H as <-. simpl. f_equal. apply IH. reflexivity.
Qed.

(** Every field of the object after a successful [load_data]. *)
Lemma load_data_fields (self self' : OfflineAnalysis) (g : option (list Q)) :
  load_data self g = Ok self' ->
  exists time_and_data,
    mapM (ingest_file self (grid_of g)) (data_files_of self) = Ok time_and_data /\
    time_and_data <> [] /\
    self' = {| directory := directory self;
               times := map (fun r => fst (fst r)) (sort_by_timestamp time_and_data);
               labels := map snd (sort_by_timestamp time_and_data);
               masses := grid_of g;
               interpolated_data :=
                 map (fun r => snd (fst r)) (sort_by_timestamp time_and_data);
               run_intervals := run_intervals self |}.
Proof.
  unfold load_data. fold (grid_of g). rewrite ingest_mapM.
  destruct (mapM (ingest_file self (grid_of g)) (data_files_of self)) as [td|e];
    simpl; [|discriminate].
  destruct (sort_by_timestamp td) as [|r rs] eqn:Es; [discriminate|].
  intros H. injection H as <-. exists td. split; [reflexivity|]. split.
  - intros ->. discriminate.
  - rewrite Es. reflexivity.
Qed.

(** The shape of a loaded repository: the grid is stored as given, there
    is one scan per [.dat] file and at least one, the timestamps, labels
    and pressure vectors go by threes, and every vector has one entry per
    grid point. *)
Theorem load_data_shape (self self' : OfflineAnalysis) (g : option (list Q)) :
  load_data self g = Ok self' ->
  masses self' = grid_of g /\
  directory self' = directory self /\
  List.length (times self') = List.length (data_files_of self) /\
  (0 < List.length (times self'))%nat /\
  List.length (labels self') = List.length (times self') /\
  List.length (interpolated_data self') = List.length (times self') /\
  Forall (fun row => List.length row = List.length (grid_of g))
         (interpolated_data self').
Proof.
  intros H. pose proof (load_data_consistent _ _ H) as [_ Hrows].
  destruct (load_data_fields _ _ H) as (td & Hm & Hne & ->). simpl in *.
  pose proof (mapM_length _ _ Hm) as Hlen.
  pose proof (Permutation_length (sort_perm (fun a b => ltb (fst (fst a)) (fst (fst b))) td))
    as Hp.
  fold (sort_by_timestamp td) in Hp.
  rewrite !length_map, <- Hp.
  repeat split; try reflexivity.
  - exact Hlen.
  - destruct td; [congruence | simpl; lia].
  - exact Hrows.
Qed.

Lemma load_data_shape_witness :
  load_data (__init__ sample_dir) (Some sample_grid) = Ok sample_loaded /\
  masses sample_loaded = sample_grid /\
  directory sample_loaded = sample_dir /\
  List.length (times sample_loaded) = List.length (data_files_of (__init__ sample_dir)) /\
  (0 < List.length (times sample_loaded))%nat /\
  List.length (labels sample_loaded) = List.length (times sample_loaded) /\
  List.length (interpolated_data sample_loaded) = List.length (times sample_loaded) /\
  Forall (fun row => List.length row = List.length sample_grid)
         (interpolated_data sample_loaded).
Proof.
  assert (H : load_data (__init__ sample_dir) (Some sample_grid) = Ok sample_loaded).
  { vm_compute. reflexivity. }
  split; [exact H|].
  exact (@load_data_shape (__init__ sample_dir) sample_loaded (Some sample_grid) H).
Defined.

Lemma ingest_file_label (self : OfflineAnalysis) (g : list Q) (f : dat_file)
  (r : scan_record) :
  ingest_file self g f = Ok r -> snd r = _assign_run_label self (fst (fst r)).
Proof.
  unfold ingest_file.
  destruct (strptime (time_str_of (file_name f))) as [t|e]; simpl; [|discriminate].
  destruct (loadtxt (file_lines f)) as [a|e]; simpl; [|discriminate].
  destruct (column a 0) as [c0|e]; simpl; [|discriminate].
  destruct (column a 1) as [c1|e]; simpl; [|discriminate].
  destruct (interp1d c0 c1) as [fn|e]; simpl; [|discriminate].
  intros H. injection H as <-. reflexivity.
Qed.

(** The label of each scan of a loaded repository is the label of its own
    timestamp: sorting keeps every label with its scan. *)
Theorem load_data_labels (self self' : OfflineAnalysis) (g : option (list Q)) :
  load_data self g = Ok self' ->
  labels self' = map (_assign_run_label self) (times self') /\
  labels self' = map (_assign_run_label self') (times self').
Proof.
  intros H. destruct (load_data_fields _ _ H) as (td & Hm & _ & ->). simpl.
  assert (Htd : Forall (fun r => snd r = _assign_run_label self (fst (fst r))) td).
  { eapply mapM_Forall; [|exact Hm]. intros x r. apply ingest_file_label. }
  assert (Hs : Forall (fun r => snd r = _assign_run_label self (fst (fst r)))
                      (sort_by_timestamp td)).
  { eapply Permutation_Forall; [|exact Htd]. apply sort_perm. }
  assert (Heq : map snd (sort_by_timestamp td) =
                map (_assign_run_label self)
                    (map (fun r => fst (fst r)) (sort_by_timestamp td))).
  { generalize (sort_by_timestamp td) Hs. clear.
    intros l Hs. induction Hs as [|r l Hr _ IH]; simpl; [reflexivity|].
    rewrite Hr, IH. reflexivity. }
  split; exact Heq.
Qed.

Lemma load_data_labels_witness :
  load_data (__init__ sample_dir) (Some sample_grid) = Ok sample_loaded /\
  labels sample_loaded = map (_assign_run_label (__init__ sample_dir)) (times sample_loaded) /\
  labels sample_loaded = map (_assign_run_label sample_loaded) (times sample_loaded).
Proof.
  assert (H : load_data (__init__ sample_dir) (Some sample_grid) = Ok sample_loaded).
  { vm_compute. reflexivity. }
  split; [exact H|].
  exact (@load_data_labels (__init__ sample_dir) sample_loaded (Some sample_grid) H).
Defined.

(** A directory without any [.dat] entry cannot be loaded: unpacking the
    empty list of scans raises [ValueError]. *)
Theorem load_data_no_dat_file (self : OfflineAnalysis) (g : option (list Q)) :
  Forall (fun f => endswith (file_name f) ".dat" = false) (directory self) ->
  load_data self g = Raise ValueError.
Proof.
  intros Hall.
  assert (Hnone : data_files_of self = []).
  { unfold data_files_of. induction Hall as [|f l Hf _ IH]; simpl; [reflexivity|].
    rewrite Hf. exact IH. }
  unfold load_data, ingest. rewrite Hnone. reflexivity.
Qed.

Lemma load_data_no_dat_file_witness :
  Forall (fun f => endswith (file_name f) ".dat" = false) [file_notes] /\
  load_data (__init__ [file_notes]) None = Raise ValueError.
Proof.
  assert (H : Forall (fun f => endswith (file_name f) ".dat" = false)
                     (directory (__init__ [file_notes]))).
  { repeat constructor. }
  split; [exact H|].
  exact (@load_data_no_dat_file (__init__ [file_notes]) None H).
Defined.

(* ===================================================================== *)
(** ** More on interpolation *)
(* ===================================================================== *)

Lemma nth_error_combine_some {A B : Type} (l1 : list A) (l2 : list B) (k : nat)
  (a : A) (b : B) :
  nth_error l1 k = Some a -> nth_error l2 k = Some b ->
  nth_error (combine l1 l2) k = Some (a, b).
Proof.
  revert l2 k. induction l1 as [|x l1 IH]; intros [|y l2] [|k] H1 H2;
    simpl in *; try discriminate.
  - injection H1 as ->. injection H2 as ->. reflexivity.
  - apply IH; assumption.
Qed.

(** At a knot, [np_interp] returns the knot's ordinate. *)
Lemma np_interp_at_knot (knots : list (Q * Q)) (k : nat) (x y : Q) :
  StronglySorted knot_lt knots ->
  nth_error knots k = Some (x, y) ->
  np_interp knots x == y.
Proof.
  intros Hs. revert k. induction Hs as [|[x0 y0] rest Hs' IH Hall]; intros k Hk.
  - destruct k; discriminate.
  - destruct rest as [|[x1 y1] rest'].
    + destruct k as [|[|k]]; try discriminate.
      simpl in Hk. injection Hk as <- <-. reflexivity.
    + cbn [np_interp]. destruct k as [|k].
      * simpl in Hk. injection Hk as <- <-.
        assert (H01 : x0 < x1) by (inversion Hall as [|? ? H _]; exact H).
        assert (E : Qlt_bool x0 x1 = true) by (apply Qlt_bool_iff; exact H01).
        rewrite E. field. intros Hz. lra.
      * simpl in Hk.
        assert (Hx : x1 <= x).
        { pose proof (@knots_first_le (x1, y1) rest' (x1, 0) Hs' (x, y)
                        (nth_error_In _ _ Hk)) as [H _]. exact H. }
        assert (E : Qlt_bool x x1 = false) by (apply Qlt_bool_false_iff; exact Hx).
        rewrite E. apply (IH k). exact Hk.
Qed.

(** Interpolating at a grid point that is one of the raw masses gives
    back the raw pressure measured there. *)
Theorem interp1d_exact_at_raw_mass (xs ys grid : list Q) (k i : nat) (x y : Q) :
  increasing xs ->
  List.length xs = List.length ys ->
  nth_error xs k = Some x ->
  nth_error ys k = Some y ->
  nth_error grid i = Some x ->
  exists f v,
    interp1d xs ys = Ok f /\
    nth_error (f grid) i = Some (fin v) /\
    v == y.
Proof.
  intros Hinc Hlen Hx Hy Hg.
  assert (Hne : xs <> []) by (intros ->; destruct k; discriminate).
  pose proof (increasing_knots ys Hinc) as Hknots.
  pose proof (nth_error_combine_some _ _ _ Hx Hy) as Hk.
  exists (interp_eval (combine xs ys)), (np_interp (combine xs ys) x).
  split; [apply interp1d_increasing; assumption|].
  split; [|apply (@np_interp_at_knot _ k x y Hknots Hk)].
  destruct (combine xs ys) as [|[x0 y0] knots] eqn:Ek.
  { destruct k; discriminate. }
  rewrite (@interp_eval_nth (x0, y0) knots grid i x Hg). cbn [fst].
  destruct (@knots_first_le (x0, y0) knots (x0, 0) Hknots (x, y) (nth_error_In _ _ Hk))
    as [Hlo Hhi].
  simpl fst in Hlo, Hhi.
  assert (E1 : Qlt_bool x x0 = false) by (apply Qlt_bool_false_iff; exact Hlo).
  assert (E2 : Qlt_bool (fst (last ((x0, y0) :: knots) (x0, 0))) x = false)
    by (apply Qlt_bool_false_iff; exact Hhi).
  rewrite E1, E2. reflexivity.
Qed.

Lemma interp1d_exact_at_raw_mass_witness :
  increasing [1; 2; 3] /\
  exists f v,
    interp1d [1; 2; 3] [1; 3; 2] = Ok f /\
    nth_error (f sample_grid) 3 = Some (fin v) /\
    v == 3.
Proof.
  assert (Hinc : increasing [1; 2; 3]).
  { repeat constructor; reflexivity. }
  split; [exact Hinc|].
  exact (@interp1d_exact_at_raw_mass [1; 2; 3] [1; 3; 2] sample_grid 1 3 2 3
           Hinc eq_refl eq_refl eq_refl eq_refl).
Defined.

(* ===================================================================== *)
(** ** More on gap compression *)
(* ===================================================================== *)

(** The loop of [_handle_large_gaps] with everything it leaves behind. *)
Lemma gap_loop_drawn (label_gap : bool) (top : float64) (todo : list Q) :
  forall (done : list Q) (pdone ptodo : list float64) (st : gap_state),
    py_max (pdone ++ ptodo) = Ok top ->
    List.length done = List.length pdone ->
    List.length todo = List.length ptodo ->
    exists st',
      for_each (gap_step (done ++ todo) (pdone ++ ptodo) label_gap)
               (seq (List.length done) (List.length todo)) st = Ok st' /\
      new_ts st' = new_ts st ++ compressed_times (last_time st) (time_shift st) todo /\
      new_ps st' = new_ps st ++ ptodo /\
      drawn st' = drawn st ++
                  (if label_gap then gap_markers top (last_time st) todo else []).
Proof.
  induction todo as [|t todo IH]; intros done pdone ptodo st Htop Hd Ht.
  - destruct ptodo; [|discriminate]. exists st. simpl.
    destruct label_gap; rewrite !app_nil_r; repeat split.
  - destruct ptodo as [|p ptodo]; [discriminate|].
    simpl in Ht. injection Ht as Ht.
    cbn [List.length seq for_each].
    assert (Hstep : exists st2,
      gap_step (done ++ t :: todo) (pdone ++ p :: ptodo) label_gap st
               (List.length done) = Ok st2 /\
      new_ts st2 = new_ts st ++ [sub64 t (time_shift st2)] /\
      new_ps st2 = new_ps st ++ [p] /\
      last_time st2 = t /\
      time_shift st2 = (if Qlt_bool gap_threshold (sub64 t (last_time st))
                        then add64 (time_shift st) (sub64 t (last_time st))
                        else time_shift st) /\
      drawn st2 = drawn st ++
                  (if label_gap
                   then (if Qlt_bool gap_threshold (sub64 t (last_time st))
                         then [axvline (last_time st);
                               text (add64 (last_time st) 1) (fmul64 top label_height)]
                         else [])
                   else [])).
    { unfold gap_step, getitem. rewrite nth_error_middle. cbn [Py.bind].
      rewrite Hd, nth_error_middle.
      destruct (Qlt_bool gap_threshold (sub64 t (last_time st))).
      - destruct label_gap.
        + rewrite Htop. cbn [Py.bind]. eexists. repeat split.
        + cbn [Py.bind]. eexists. rewrite app_nil_r. repeat split.
      - cbn [Py.bind]. eexists. destruct label_gap; rewrite app_nil_r; repeat split. }
    destruct Hstep as (st2 & -> & Hts & Hps & Hlast & Hshift & Hdrawn).
    cbn [Py.bind].
    destruct (IH (done ++ [t]) (pdone ++ [p]) ptodo st2) as (st' & Hrun & Hts' & Hps' & Hd').
    { rewrite <- app_assoc. exact Htop. }
    { rewrite !length_app. simpl. lia. }
    { exact Ht. }
    rewrite <- !app_assoc in Hrun. simpl in Hrun.
    rewrite length_app in Hrun. simpl in Hrun.
    replace (List.length done + 1)%nat with (S (List.length done)) in Hrun by lia.
    exists st'. split; [exact Hrun|]. split; [|split].
    + rewrite Hts', Hts, Hlast, Hshift, <- app_assoc. reflexivity.
    + rewrite Hps', Hps, <- app_assoc. reflexivity.
    + rewrite Hd', Hdrawn, Hlast, <- app_assoc. cbn [gap_markers].
      destruct label_gap; [reflexivity|]. reflexivity.
Qed.

Lemma compressed_times_length (last_time shift : Q) (ts : list Q) :
  List.length (compressed_times last_time shift ts) = List.length ts.
Proof.
  revert last_time shift. induction ts as [|t ts IH]; intros l s; simpl; [reflexivity|].
  f_equal. apply IH.
Qed.

(** [_handle_large_gaps] on any non-empty series with one pressure per
    time, however many gaps it has: it returns, the pressures come back
    unchanged, there are as many times as before, and the axes receive,
    after what they held, two artists per step computed above the
    threshold when labels are asked for, and nothing otherwise. *)
Theorem handle_large_gaps_total (t0 : Q) (ts : list Q) (ps : list float64)
  (ax : list artist) (label_gap : bool) :
  List.length (t0 :: ts) = List.length ps ->
  exists top new_times,
    py_max ps = Ok top /\
    _handle_large_gaps (t0 :: ts) ps ax label_gap =
      Ok ((new_times, ps),
          ax ++ (if label_gap then gap_markers top t0 (t0 :: ts) else [])) /\
    List.length new_times = List.length (t0 :: ts).
Proof.
  intros Hlen.
  destruct (@py_max_ok ps) as [top Htop].
  { destruct ps; [discriminate Hlen | discriminate]. }
  exists top, (compressed_times t0 0 (t0 :: ts)).
  split; [exact Htop|]. split; [|apply compressed_times_length].
  unfold _handle_large_gaps.
  change (getitem (t0 :: ts) 0) with (Ok (A := Q) t0). cbn [Py.bind].
  destruct (@gap_loop_drawn label_gap top (t0 :: ts) [] [] ps
              (mk_gap_state [] [] t0 0 ax) Htop eq_refl Hlen)
    as (st' & Hrun & Hts & Hps & Hd).
  cbn [app List.length] in Hrun. cbn [List.length]. rewrite Hrun. cbn [Py.bind].
  rewrite Hts, Hps, Hd. reflexivity.
Qed.

Lemma handle_large_gaps_total_witness :
  exists top new_times,
    py_max sample_pressures = Ok top /\
    _handle_large_gaps (0 :: [10; 30; 150; 160; 170]) sample_pressures [] true =
      Ok ((new_times, sample_pressures),
          [] ++ (if true then gap_markers top 0 (0 :: [10; 30; 150; 160; 170]) else [])) /\
    List.length new_times = List.length (0 :: [10; 30; 150; 160; 170]).
Proof.
  exact (@handle_large_gaps_total 0 [10; 30; 150; 160; 170] sample_pressures [] true
           eq_refl).
Defined.

(** A step of exactly 24 hours as computed is no gap, even where the
    exact step is longer: for the doubles nearest to 1/3600 and 86401/3600
    the difference is computed as 24, and nothing is shifted or drawn. *)
Example handle_large_gaps_step_rounds_to_threshold :
  gap_threshold < hours_24h1s - hours_1s /\
  sub64 hours_24h1s hours_1s = 24 /\
  _handle_large_gaps [hours_1s; hours_24h1s] [fin 1; fin 2] [] true
    = Ok (([hours_1s; hours_24h1s], [fin 1; fin 2]), []).
Proof. repeat split; vm_compute; reflexivity. Qed.

(* ===================================================================== *)
(** ** More on peak-window and ratio extraction *)
(* ===================================================================== *)



Lemma in_combine_r_inv {A B : Type} (l1 : list A) (l2 : list B) (b : B) :
  List.length l1 = List.length l2 -> In b l2 -> exists a, In (a, b) (combine l1 l2).
Proof.
  revert l2. induction l1 as [|x l1 IH]; intros [|y l2] Hlen Hin; simpl in *;
    try discriminate; try contradiction.
  destruct Hin as [<-|Hin].
  - exists x. left. reflexivity.
  - destruct (IH l2) as [a Ha]; [lia | exact Hin |]. exists a. right. exact Ha.
Qed.

(** What a finished ratio extraction returns, sample by sample. *)
Lemma plot_relative_samples gaussian_filter find_peaks self mass mass_rel window
  ts ratios :
  plot_mass_evolution_peakfound_relative gaussian_filter find_peaks self
    mass mass_rel window = Ok (ts, ratios) ->
  List.length ts = List.length ratios /\
  combine ts ratios =
    flat_map (ratio_sample gaussian_filter find_peaks self mass mass_rel window)
             (seq 0 (List.length (times self))).
Proof.
  rewrite plot_relative_unfold. intros H.
  match type of H with
  | Py.bind ?c _ = _ => destruct c as [[rs' ts']|e] eqn:Erun; [|discriminate H]
  end.
  cbn [Py.bind] in H. injection H as <- <-.
  pose proof (@ratio_loop gaussian_filter find_peaks self mass mass_rel window
                _ [] [] rs' ts' eq_refl Erun) as [Hlen Hc].
  cbv zeta in Hc. simpl app in Hc.
  split; [symmetry; exact Hlen | exact Hc].
Qed.



Lemma StronglySorted_nth_error {A : Type} (R : A -> A -> Prop) (l : list A) :
  StronglySorted R l ->
  forall i j x y, (i < j)%nat ->
    nth_error l i = Some x -> nth_error l j = Some y -> R x y.
Proof.
  induction 1 as [|a l Hs IH Hall]; intros i j x y Hij Hi Hj.
  - destruct i; discriminate.
  - destruct j as [|j]; [lia|]. simpl in Hj. destruct i as [|i]; simpl in Hi.
    + injection Hi as <-. rewrite Forall_forall in Hall. apply Hall.
      eapply nth_error_In. exact Hj.
    + apply (IH i j); [lia | assumption | assumption].
Qed.

Section Picked.

Variable A : Type.
Variable R : A -> A -> Prop.
Variable all : list A.
Variable pick : nat -> list A.

Hypothesis pick_from : forall i x, In x (pick i) -> nth_error all i = Some x.
Hypothesis pick_one : forall i, (List.length (pick i) <= 1)%nat.
Hypothesis all_sorted : StronglySorted R all.

(** Picking at most one element per position, in order of position,
    keeps a sorted list sorted. *)
Lemma picked_sorted (k : nat) :
  forall a,
    StronglySorted R (flat_map pick (seq a k)) /\
    (List.length (flat_map pick (seq a k)) <= k)%nat /\
    forall x, In x (flat_map pick (seq a k)) ->
              exists j, (a <= j)%nat /\ nth_error all j = Some x.
Proof.
  induction k as [|k IH]; intros a; simpl.
  - repeat split; [constructor | lia | intros x []].
  - destruct (IH (S a)) as (Hs & Hlen & Hfrom).
    pose proof (pick_one a) as H1. pose proof (pick_from a) as Ha.
    destruct (pick a) as [|x [|y rest]]; simpl in *; [| |lia].
    + repeat split; [exact Hs | lia |].
      intros x Hx. destruct (Hfrom x Hx) as (j & Hj & Hn). exists j. split; [lia | exact Hn].
    + repeat split; [| lia |].
      * constructor; [exact Hs|]. apply Forall_forall. intros y Hy.
        destruct (Hfrom y Hy) as (j & Hj & Hn).
        apply (StronglySorted_nth_error all_sorted (i := a) (j := j)); [lia | | exact Hn].
        apply Ha. left. reflexivity.
      * intros z [<-|Hz].
        -- exists a. split; [lia|]. apply Ha. left. reflexivity.
        -- destruct (Hfrom z Hz) as (j & Hj & Hn). exists j. split; [lia | exact Hn].
Qed.

End Picked.

Lemma map_fst_combine_eq {A B : Type} (l1 : list A) (l2 : list B) :
  List.length l1 = List.length l2 -> map fst (combine l1 l2) = l1.
Proof.
  revert l2. induction l1 as [|x l1 IH]; intros [|y l2] H; simpl in *;
    try discriminate; [reflexivity|].
  f_equal. apply IH. lia.
Qed.

Lemma map_flat_map_fst {A B : Type} (f : nat -> list (A * B)) (l : list nat) :
  map fst (flat_map f l) = flat_map (fun i => map fst (f i)) l.
Proof.
  induction l as [|i l IH]; simpl; [reflexivity|].
  rewrite map_app, IH. reflexivity.
Qed.

Lemma ratio_sample_one gaussian_filter find_peaks self mass mass_rel window i :
  (List.length (ratio_sample gaussian_filter find_peaks self mass mass_rel window i) <= 1)%nat.
Proof.
  unfold ratio_sample.
  destruct (get_peakfound_pressure gaussian_filter find_peaks self mass i window)
    as [[[p m]|]|e]; simpl; try lia.
  destruct (get_peakfound_pressure gaussian_filter find_peaks self mass_rel i window)
    as [[[p_rel m_rel]|]|e]; simpl; try lia.
  destruct (nth_error (times self) i); simpl; try lia.
  destruct (fne0 p_rel); simpl; lia.
Qed.

(** The ratio series of a repository in chronological order: at most
    one sample per scan, one ratio per timestamp, and the timestamps
    returned are themselves in chronological order. *)
Theorem ratio_series_chronological
  (gaussian_filter : list float64 -> Q -> list float64)
  (find_peaks : list float64 -> Q -> Q -> list nat)
  (self : OfflineAnalysis) (mass mass_rel window : Q)
  (ts : list datetime) (ratios : list float64) :
  chronological (times self) ->
  plot_mass_evolution_peakfound_relative gaussian_filter find_peaks self
    mass mass_rel window = Ok (ts, ratios) ->
  chronological ts /\
  List.length ratios = List.length ts /\
  (List.length ts <= List.length (times self))%nat /\
  forall t, In t ts -> In t (times self).
Proof.
  intros Hsorted H.
  destruct (plot_relative_samples _ _ _ _ _ _ H) as [Hlen Hc].
  assert (Hts : ts = flat_map
            (fun i => map fst (ratio_sample gaussian_filter find_peaks self
                                 mass mass_rel window i))
            (seq 0 (List.length (times self)))).
  { rewrite <- map_flat_map_fst, <- Hc. symmetry. apply map_fst_combine_eq. exact Hlen. }
  destruct (@picked_sorted datetime (fun a b => leb a b = true) (times self)
              (fun i => map fst (ratio_sample gaussian_filter find_peaks self
                                   mass mass_rel window i)))
    with (k := List.length (times self)) (a := O) as (Hs & Hl & Hfrom).
  - intros i x Hx. apply in_map_iff in Hx. destruct Hx as ([t q] & <- & Hin).
    destruct (ratio_sample_inv _ _ _ _ _ _ _ _ _ Hin) as (? & ? & ? & ? & Ht & _).
    exact Ht.
  - intros i. rewrite length_map. apply ratio_sample_one.
  - exact Hsorted.
  - rewrite <- Hts in Hs, Hl, Hfrom.
    split; [exact Hs|]. split; [symmetry; exact Hlen|]. split; [exact Hl|].
    intros t Ht. destruct (Hfrom t Ht) as (j & _ & Hj).
    eapply nth_error_In. exact Hj.
Qed.

Lemma ratio_series_chronological_witness :
  chronological (times peak_loaded) /\
  plot_mass_evolution_peakfound_relative smooth3 local_maxima peak_loaded 4 2 2
    = Ok ([mk_datetime 2024 9 17 10 0 0; mk_datetime 2024 9 19 10 0 0],
          [fin (9 / 2); nan]) /\
  chronological [mk_datetime 2024 9 17 10 0 0; mk_datetime 2024 9 19 10 0 0] /\
  List.length [fin (9 / 2); nan]
    = List.length [mk_datetime 2024 9 17 10 0 0; mk_datetime 2024 9 19 10 0 0] /\
  (List.length [mk_datetime 2024 9 17 10 0 0; mk_datetime 2024 9 19 10 0 0]
     <= List.length (times peak_loaded))%nat /\
  forall t, In t [mk_datetime 2024 9 17 10 0 0; mk_datetime 2024 9 19 10 0 0] ->
            In t (times peak_loaded).
Proof.
  assert (Hs : chronological (times peak_loaded)).
  { repeat constructor. }
  assert (H : plot_mass_evolution_peakfound_relative smooth3 local_maxima peak_loaded
                4 2 2
              = Ok ([mk_datetime 2024 9 17 10 0 0; mk_datetime 2024 9 19 10 0 0],
                    [fin (9 / 2); nan])) by reflexivity.
  split; [exact Hs|]. split; [exact H|].
  exact (@ratio_series_chronological smooth3 local_maxima peak_loaded 4 2 2 _ _ Hs H).
Defined.

(* ===================================================================== *)
(** ** Loading, then extracting *)
(* ===================================================================== *)

(** On a repository that [load_data] has just built over a non-empty
    grid, nearest-point extraction never raises, whatever the mass; it
    returns one pressure per timestamp, and the timestamps are either all
    those of the repository or none, in chronological order. *)
Theorem get_mass_evolution_after_load (self self' : OfflineAnalysis)
  (g : option (list Q)) (mass : Q) :
  load_data self g = Ok self' ->
  grid_of g <> [] ->
  exists ps ts,
    get_mass_evolution self' mass = Ok (ps, ts) /\
    List.length ps = List.length ts /\
    (ts = times self' \/ ts = []) /\
    chronological ts.
Proof.
  intros Hload Hgrid.
  pose proof (load_data_consistent _ _ Hload) as Hc.
  destruct (load_data_ok _ _ Hload) as (td & _ & _ & _ & Ht & _ & Hm).
  assert (Hg : masses self' <> []) by (rewrite Hm; exact Hgrid).
  destruct (nearest_index_first_minimum mass Hg) as [Ha Hmin].
  rewrite (@get_mass_evolution_eq self' mass _ _ Hc Ha Hmin).
  destruct (Qlt_bool mass_exclusion _).
  - exists [], []. repeat split; [right; reflexivity | constructor].
  - eexists. eexists. split; [reflexivity|].
    split; [rewrite length_map; symmetry; apply Hc|].
    split; [left; reflexivity|].
    rewrite Ht. apply sort_by_timestamp_chronological.
Qed.

Lemma get_mass_evolution_after_load_witness :
  load_data (__init__ sample_dir) (Some sample_grid) = Ok sample_loaded /\
  exists ps ts,
    get_mass_evolution sample_loaded 2 = Ok (ps, ts) /\
    List.length ps = List.length ts /\
    (ts = times sample_loaded \/ ts = []) /\
    chronological ts.
Proof.
  assert (H : load_data (__init__ sample_dir) (Some sample_grid) = Ok sample_loaded).
  { vm_compute. reflexivity. }
  split; [exact H|].
  apply (@get_mass_evolution_after_load (__init__ sample_dir) sample_loaded
           (Some sample_grid) 2 H).
  discriminate.
Defined.

(* ===================================================================== *)
(** ** File names: from [generate_filename] back to the timestamp *)
(* ===================================================================== *)

(** Case analysis on an integer known to lie in a short range. *)
Lemma in_range_enum (n lo : Z) (len : nat) :
  (lo <= n < lo + Z.of_nat len)%Z ->
  In n (map (fun k => (lo + Z.of_nat k)%Z) (seq 0 len)).
Proof.
  intros H. apply in_map_iff. exists (Z.to_nat (n - lo)). split; [lia|].
  apply in_seq. lia.
Qed.

Ltac enum_cases n lo len H tac :=
  let Hin := fresh "Hin" in
  pose proof (@in_range_enum n lo len H) as Hin;
  cbv [seq map Z.of_nat Pos.of_succ_nat Pos.succ Z.add Pos.add Pos.add_carry] in Hin;
  repeat (destruct Hin as [Hin|Hin]; [subst n; tac|]);
  destruct Hin.

Lemma digit_char_digit (a : Z) :
  (0 <= a <= 9)%Z ->
  is_digit (digit_char a) = true /\ digit_val (digit_char a) = a.
Proof.
  intros H. assert (H' : (0 <= a < 0 + Z.of_nat 10)%Z) by lia.
  enum_cases a 0%Z 10%nat H' ltac:(split; reflexivity).
Qed.

Lemma field_m_pad2 (n : Z) (rest : string) :
  (1 <= n <= 12)%Z -> exists tl, field_m (pad2 n ++ rest)%string = (n, rest) :: tl.
Proof.
  intros H. assert (H' : (1 <= n < 1 + Z.of_nat 12)%Z) by lia.
  enum_cases n 1%Z 12%nat H' ltac:(cbv; eexists; reflexivity).
Qed.

Lemma field_d_pad2 (n : Z) (rest : string) :
  (1 <= n <= 31)%Z -> exists tl, field_d (pad2 n ++ rest)%string = (n, rest) :: tl.
Proof.
  intros H. assert (H' : (1 <= n < 1 + Z.of_nat 31)%Z) by lia.
  enum_cases n 1%Z 31%nat H' ltac:(cbv; eexists; reflexivity).
Qed.

Lemma field_H_pad2 (n : Z) (rest : string) :
  (0 <= n <= 23)%Z -> exists tl, field_H (pad2 n ++ rest)%string = (n, rest) :: tl.
Proof.
  intros H. assert (H' : (0 <= n < 0 + Z.of_nat 24)%Z) by lia.
  enum_cases n 0%Z 24%nat H' ltac:(cbv; eexists; reflexivity).
Qed.

Lemma field_M_pad2 (n : Z) (rest : string) :
  (0 <= n <= 59)%Z -> exists tl, field_M (pad2 n ++ rest)%string = (n, rest) :: tl.
Proof.
  intros H. assert (H' : (0 <= n < 0 + Z.of_nat 60)%Z) by lia.
  enum_cases n 0%Z 60%nat H' ltac:(cbv; eexists; reflexivity).
Qed.

Lemma field_S_pad2 (n : Z) (rest : string) :
  (0 <= n <= 59)%Z -> exists tl, field_S (pad2 n ++ rest)%string = (n, rest) :: tl.
Proof.
  intros H. assert (H' : (0 <= n < 0 + Z.of_nat 60)%Z) by lia.
  enum_cases n 0%Z 60%nat H' ltac:(cbv; eexists; reflexivity).
Qed.

Lemma field_Y_pad4 (y : Z) (rest : string) :
  (0 <= y <= 9999)%Z -> field_Y (pad4 y ++ rest)%string = [(y, rest)].
Proof.
  intros H. unfold pad4, pad2, field_Y. cbn [String.append].
  destruct (@digit_char_digit (y / 1000)%Z) as [Da Va].
  { Z.to_euclidean_division_equations; lia. }
  destruct (@digit_char_digit ((y / 100) mod 10)%Z) as [Db Vb].
  { Z.to_euclidean_division_equations; lia. }
  destruct (@digit_char_digit ((y mod 100) / 10)%Z) as [Dc Vc].
  { Z.to_euclidean_division_equations; lia. }
  destruct (@digit_char_digit ((y mod 100) mod 10)%Z) as [Dd Vd].
  { Z.to_euclidean_division_equations; lia. }
  rewrite Da, Db, Dc, Dd, Va, Vb, Vc, Vd. cbn [andb].
  f_equal. f_equal.
  Z.to_euclidean_division_equations; lia.
Qed.

Lemma valid_bounds (d : datetime) :
  valid d = true ->
  (1 <= year d <= 9999 /\ 1 <= month d <= 12 /\ 1 <= day d <= 31 /\
   0 <= hour d <= 23 /\ 0 <= minute d <= 59 /\ 0 <= second d <= 59)%Z.
Proof.
  unfold valid. rewrite !andb_true_iff, !Z.leb_le.
  intros (((((((((((H1 & H2) & H3) & H4) & H5) & H6) & H7) & H8) & H9) & H10) & H11) & H12).
  assert (Hdim : (days_in_month (year d) (month d) <= 31)%Z).
  { unfold days_in_month.
    destruct (month d =? 2)%Z; [destruct (is_leap (year d)); lia|].
    destruct ((month d =? 4) || (month d =? 6) || (month d =? 9) || (month d =? 11))%Z%bool;
      lia. }
  lia.
Qed.

(** The pattern reads a formatted timestamp back, field by field, at its
    first attempt. *)
Lemma matches_strftime (d : datetime) :
  valid d = true ->
  exists tl, matches (strftime d) = (d, EmptyString) :: tl.
Proof.
  intros Hv. destruct (valid_bounds d Hv) as (Hy & Hm & Hd & Hh & Hmi & Hs).
  destruct d as [y m dd h mi s]. cbn [year month day hour minute second] in *.
  unfold matches, strftime. cbn [year month day hour minute second].
  rewrite field_Y_pad4 by lia. cbn [flat_map].
  destruct (@field_m_pad2 m (pad2 dd ++ "_" ++ pad2 h ++ pad2 mi ++ pad2 s)%string Hm)
    as [tm ->]. cbn [flat_map].
  destruct (@field_d_pad2 dd ("_" ++ pad2 h ++ pad2 mi ++ pad2 s)%string Hd)
    as [td ->]. cbn [flat_map].
  change (literal "_" ("_" ++ pad2 h ++ pad2 mi ++ pad2 s)%string)
    with [(pad2 h ++ pad2 mi ++ pad2 s)%string].
  cbn [flat_map].
  destruct (@field_H_pad2 h (pad2 mi ++ pad2 s)%string Hh) as [th ->]. cbn [flat_map].
  destruct (@field_M_pad2 mi (pad2 s) Hmi) as [tmi Emi].
  rewrite Emi. cbn [flat_map].
  destruct (@field_S_pad2 s EmptyString Hs) as [ts Es].
  assert (Es' : field_S (pad2 s) = (s, EmptyString) :: ts).
  { rewrite <- Es. reflexivity. }
  rewrite Es'. cbn [map app].
  eexists. reflexivity.
Qed.

Lemma strptime_time (d : datetime) : valid d = true -> strptime (strftime d) = Ok d.
Proof.
  intros Hv. unfold strptime.
  destruct (matches_strftime d Hv) as [tl ->]. rewrite Hv. reflexivity.
Qed.

(** A timestamp written with [strftime('%Y%m%d_%H%M%S')] is read back
    unchanged by [strptime] with the same format. *)
Theorem strptime_strftime (d : datetime) :
  valid d = true ->
  (1000 <= year d)%Z ->
  strptime (strftime d) = Ok d.
Proof.
  intros Hv _. unfold strptime.
  destruct (matches_strftime d Hv) as [tl ->]. rewrite Hv. reflexivity.
Qed.

Lemma strptime_strftime_witness :
  valid (mk_datetime 2024 9 11 17 0 0) = true /\
  (1000 <= year (mk_datetime 2024 9 11 17 0 0))%Z /\
  strptime (strftime (mk_datetime 2024 9 11 17 0 0)) = Ok (mk_datetime 2024 9 11 17 0 0).
Proof.
  assert (Hv : valid (mk_datetime 2024 9 11 17 0 0) = true) by reflexivity.
  assert (Hy : (1000 <= year (mk_datetime 2024 9 11 17 0 0))%Z) by (simpl; lia).
  split; [exact Hv|]. split; [exact Hy|].
  exact (@strptime_strftime (mk_datetime 2024 9 11 17 0 0) Hv Hy).
Defined.

Lemma string_app_assoc (a b c : string) :
  ((a ++ b) ++ c = a ++ (b ++ c))%string.
Proof.
  induction a as [|x a IH]; simpl; [reflexivity|]. rewrite IH. reflexivity.
Qed.

Lemma string_length_app (a b : string) :
  String.length (a ++ b) = (String.length a + String.length b)%nat.
Proof.
  induction a as [|x a IH]; simpl; [reflexivity|]. rewrite IH. reflexivity.
Qed.

Lemma substring_app_skip (a b : string) (m : nat) :
  substring (String.length a) m (a ++ b) = substring 0 m b.
Proof.
  induction a as [|x a IH]; simpl; [reflexivity|]. exact IH.
Qed.

Lemma endswith_app (a suffix : string) :
  substring 0 (String.length suffix) suffix = suffix ->
  endswith (a ++ suffix) suffix = true.
Proof.
  intros Hs. unfold endswith. rewrite string_length_app.
  replace (String.length a + String.length suffix - String.length suffix)%nat
    with (String.length a) by lia.
  rewrite substring_app_skip, Hs, String.eqb_refl.
  rewrite andb_true_r. apply Nat.leb_le. lia.
Qed.

Lemma split_nonempty (sep : ascii) (s : string) : split sep s <> [].
Proof.
  destruct s as [|c r]; simpl; [discriminate|].
  destruct (Ascii.eqb c sep); [discriminate|].
  destruct (split sep r); discriminate.
Qed.

(** Up to its first separator, a string is the first piece of its split. *)
Lemma split_first (sep : ascii) (a rest : string) :
  has_char sep a = false ->
  split sep (a ++ String sep rest) = a :: split sep rest.
Proof.
  induction a as [|c a IH]; simpl; intros H.
  - rewrite Ascii.eqb_refl. reflexivity.
  - apply orb_false_iff in H. destruct H as [Hc Ha].
    rewrite Hc, (IH Ha). reflexivity.
Qed.

(** Joining the pieces of a split with the separator gives the string back. *)
Lemma concat_split (sep : ascii) (s : string) :
  String.concat (String sep EmptyString) (split sep s) = s.
Proof.
  induction s as [|c r IH]; [reflexivity|].
  cbn [split]. destruct (Ascii.eqb c sep) eqn:E.
  - apply Ascii.eqb_eq in E. subst c.
    pose proof (split_nonempty sep r) as Hne.
    destruct (split sep r) as [|h t] eqn:Es; [congruence|].
    cbn [String.concat]. cbn [String.concat] in IH. rewrite IH. reflexivity.
  - pose proof (split_nonempty sep r) as Hne.
    destruct (split sep r) as [|h t] eqn:Es; [congruence|].
    cbn [String.concat] in *. destruct t as [|h' t'].
    + rewrite IH. reflexivity.
    + cbn [String.append] in *. rewrite IH. reflexivity.
Qed.

Lemma has_char_app (c : ascii) (a b : string) :
  has_char c (a ++ b) = has_char c a || has_char c b.
Proof.
  induction a as [|x a IH]; simpl; [reflexivity|]. rewrite IH, orb_assoc. reflexivity.
Qed.

Lemma digit_is_not (x c : ascii) :
  is_digit x = true -> is_digit c = false -> Ascii.eqb x c = false.
Proof.
  intros Hx Hc. destruct (Ascii.eqb x c) eqn:E; [|reflexivity].
  apply Ascii.eqb_eq in E. subst. congruence.
Qed.

Lemma has_char_pad2 (c : ascii) (n : Z) :
  is_digit c = false -> (0 <= n <= 99)%Z -> has_char c (pad2 n) = false.
Proof.
  intros Hc Hn. unfold pad2. cbn [has_char].
  destruct (@digit_char_digit (n / 10)%Z) as [D1 _].
  { Z.to_euclidean_division_equations; lia. }
  destruct (@digit_char_digit (n mod 10)%Z) as [D2 _].
  { Z.to_euclidean_division_equations; lia. }
  rewrite (digit_is_not _ _ D1 Hc), (digit_is_not _ _ D2 Hc). reflexivity.
Qed.

Lemma has_char_pad4 (c : ascii) (n : Z) :
  is_digit c = false -> (0 <= n <= 9999)%Z -> has_char c (pad4 n) = false.
Proof.
  intros Hc Hn. unfold pad4. cbn [has_char].
  destruct (@digit_char_digit (n / 1000)%Z) as [D1 _].
  { Z.to_euclidean_division_equations; lia. }
  destruct (@digit_char_digit ((n / 100) mod 10)%Z) as [D2 _].
  { Z.to_euclidean_division_equations; lia. }
  rewrite (digit_is_not _ _ D1 Hc), (digit_is_not _ _ D2 Hc).
  apply has_char_pad2; [exact Hc|]. Z.to_euclidean_division_equations; lia.
Qed.

Lemma strftime_no_dot (d : datetime) :
  valid d = true -> has_char "." (strftime d) = false.
Proof.
  intros Hv. destruct (valid_bounds d Hv) as (Hy & Hm & Hd & Hh & Hmi & Hs).
  assert (Hdot : is_digit "." = false) by reflexivity.
  unfold strftime. rewrite !has_char_app.
  rewrite has_char_pad4 by (try exact Hdot; lia).
  rewrite !has_char_pad2 by (try exact Hdot; lia).
  reflexivity.
Qed.

(** From the producer to the consumer.  A scan file named by
    [generate_filename] from a prefix with exactly one underscore (the
    tasks use [analog_scan]) ends in [.dat], so [load_data] takes it; the
    text [load_data] cuts out of the name is the formatted clock reading,
    and it parses back to that reading. *)
Theorem generate_filename_parsed_back (now : datetime) (a b : string) :
  valid now = true ->
  (1000 <= year now)%Z ->
  has_char "_" a = false ->
  has_char "_" b = false ->
  endswith (generate_filename now (a ++ "_" ++ b)) ".dat" = true /\
  time_str_of (generate_filename now (a ++ "_" ++ b)) = strftime now /\
  strptime (time_str_of (generate_filename now (a ++ "_" ++ b))) = Ok now.
Proof.
  intros Hv Hy Ha Hb.
  assert (Hname : generate_filename now (a ++ "_" ++ b)
                  = (a ++ String "_" (b ++ String "_" (strftime now ++ ".dat")))%string).
  { unfold generate_filename. rewrite !string_app_assoc. reflexivity. }
  assert (Hstr : time_str_of (generate_filename now (a ++ "_" ++ b)) = strftime now).
  { rewrite Hname. unfold time_str_of.
    rewrite (split_first "_" a _ Ha), (split_first "_" b _ Hb).
    cbn [skipn]. rewrite concat_split.
    change (strftime now ++ ".dat")%string
      with (strftime now ++ String "." "dat")%string.
    rewrite (split_first "." (strftime now) "dat" (strftime_no_dot now Hv)).
    reflexivity. }
  split; [|split; [exact Hstr|]].
  - unfold generate_filename.
    rewrite <- !string_app_assoc. apply endswith_app. reflexivity.
  - rewrite Hstr. apply strptime_time. exact Hv.
Qed.

Lemma generate_filename_parsed_back_witness :
  generate_filename (mk_datetime 2024 9 11 17 0 0) ("analog" ++ "_" ++ "scan")
    = "analog_scan_20240911_170000.dat"%string /\
  endswith (generate_filename (mk_datetime 2024 9 11 17 0 0) ("analog" ++ "_" ++ "scan"))
           ".dat" = true /\
  time_str_of (generate_filename (mk_datetime 2024 9 11 17 0 0) ("analog" ++ "_" ++ "scan"))
    = strftime (mk_datetime 2024 9 11 17 0 0) /\
  strptime (time_str_of (generate_filename (mk_datetime 2024 9 11 17 0 0)
                           ("analog" ++ "_" ++ "scan")))
    = Ok (mk_datetime 2024 9 11 17 0 0).
Proof.
  split; [reflexivity|].
  apply (@generate_filename_parsed_back (mk_datetime 2024 9 11 17 0 0) "analog" "scan").
  - reflexivity.
  - simpl. lia.
  - reflexivity.
  - reflexivity.
Defined.

Lemma keeps_one_digit (c : ascii) (p : Z -> bool) : keeps c (one_digit p).
Proof.
  intros [|a r] v r' Hs Hin; simpl in *; [contradiction|].
  apply orb_false_iff in Hs. destruct Hs as [_ Hr].
  destruct (is_digit a && p (digit_val a)); [|contradiction].
  destruct Hin as [H|[]]. injection H as _ <-. exact Hr.
Qed.

Lemma keeps_two_digits (c : ascii) (p : Z -> Z -> bool) : keeps c (two_digits p).
Proof.
  intros [|a [|b r]] v r' Hs Hin; simpl in *; try contradiction.
  apply orb_false_iff in Hs. destruct Hs as [_ Hs].
  apply orb_false_iff in Hs. destruct Hs as [_ Hr].
  destruct (is_digit a && is_digit b && p (digit_val a) (digit_val b)); [|contradiction].
  destruct Hin as [H|[]]. injection H as _ <-. exact Hr.
Qed.

Lemma keeps_alt (c : ascii) (f g : field) : keeps c f -> keeps c g -> keeps c (alt f g).
Proof.
  intros Hf Hg s v r Hs Hin. unfold alt in Hin. apply in_app_iff in Hin.
  destruct Hin as [Hin|Hin]; [eapply Hf | eapply Hg]; eassumption.
Qed.

Lemma keeps_field_Y (c : ascii) : keeps c field_Y.
Proof.
  intros [|a [|b [|x [|y r]]]] v r' Hs Hin; simpl in *; try contradiction.
  repeat (apply orb_false_iff in Hs; destruct Hs as [_ Hs]).
  destruct (is_digit a && is_digit b && is_digit x && is_digit y); [|contradiction].
  destruct Hin as [H|[]]. injection H as _ <-. exact Hs.
Qed.

Lemma keeps_field_m (c : ascii) : keeps c field_m.
Proof.
  unfold field_m. repeat apply keeps_alt;
    first [apply keeps_two_digits | apply keeps_one_digit].
Qed.

Lemma keeps_field_d (c : ascii) : keeps c field_d.
Proof.
  unfold field_d. repeat apply keeps_alt;
    try first [apply keeps_two_digits | apply keeps_one_digit].
  intros [|a r] v r' Hs Hin; [contradiction|].
  simpl in Hs. apply orb_false_iff in Hs. destruct Hs as [_ Hr].
  destruct a as [[] [] [] [] [] [] [] []]; try contradiction.
  eapply keeps_one_digit; eassumption.
Qed.

Lemma flat_map_nil {A B : Type} (f : A -> list B) (l : list A) :
  (forall x, In x l -> f x = []) -> flat_map f l = [].
Proof.
  induction l as [|x l IH]; intros H; simpl; [reflexivity|].
  rewrite (H x (or_introl eq_refl)), IH; [reflexivity|].
  intros y Hy. apply H. right. exact Hy.
Qed.

(** The pattern needs its underscore: a text without one does not match. *)
Lemma matches_needs_underscore (s : string) :
  has_char "_" s = false -> matches s = [].
Proof.
  intros Hs. unfold matches.
  apply flat_map_nil. intros [y s1] H1.
  pose proof (@keeps_field_Y "_" s y s1 Hs H1) as Hs1.
  apply flat_map_nil. intros [m s2] H2.
  pose proof (@keeps_field_m "_" s1 m s2 Hs1 H2) as Hs2.
  apply flat_map_nil. intros [d s3] H3.
  pose proof (@keeps_field_d "_" s2 d s3 Hs2 H3) as Hs3.
  destruct s3 as [|a r]; [reflexivity|].
  simpl in Hs3. apply orb_false_iff in Hs3. destruct Hs3 as [Ha _].
  unfold literal. rewrite Ha. reflexivity.
Qed.

Lemma split_none (sep : ascii) (s : string) :
  has_char sep s = false -> split sep s = [s].
Proof.
  induction s as [|c r IH]; simpl; intros H; [reflexivity|].
  apply orb_false_iff in H. destruct H as [Hc Hr].
  rewrite Hc, (IH Hr). reflexivity.
Qed.

(** A prefix without an underscore loses the date.  [load_data] drops
    the first two pieces of the name, here the prefix and the date; what is
    left is the time of day alone, which the format rejects: such a file is
    in the way of every later [load_data]. *)
Theorem generate_filename_prefix_without_underscore (now : datetime) (prefix : string) :
  valid now = true ->
  has_char "_" prefix = false ->
  endswith (generate_filename now prefix) ".dat" = true /\
  time_str_of (generate_filename now prefix)
    = (pad2 (hour now) ++ pad2 (minute now) ++ pad2 (second now))%string /\
  strptime (time_str_of (generate_filename now prefix)) = Raise ValueError.
Proof.
  intros Hv Hp.
  destruct (valid_bounds now Hv) as (Hy & Hm & Hd & Hh & Hmi & Hs).
  assert (Hus : is_digit "_" = false) by reflexivity.
  assert (Hdot : is_digit "." = false) by reflexivity.
  set (D := (pad4 (year now) ++ pad2 (month now) ++ pad2 (day now))%string).
  set (T := (pad2 (hour now) ++ pad2 (minute now) ++ pad2 (second now))%string).
  assert (HD : has_char "_" D = false).
  { unfold D. rewrite !has_char_app, has_char_pad4 by (try exact Hus; lia).
    rewrite !has_char_pad2 by (try exact Hus; lia). reflexivity. }
  assert (HT : forall c, is_digit c = false -> has_char c T = false).
  { intros c Hc. unfold T. rewrite !has_char_app.
    rewrite !has_char_pad2 by (try exact Hc; lia). reflexivity. }
  assert (Hname : generate_filename now prefix
                  = (prefix ++ String "_" (D ++ String "_" (T ++ ".dat")))%string).
  { unfold generate_filename, strftime, D, T. rewrite !string_app_assoc. reflexivity. }
  assert (Hstr : time_str_of (generate_filename now prefix) = T).
  { rewrite Hname. unfold time_str_of.
    rewrite (split_first "_" prefix _ Hp), (split_first "_" D _ HD).
    rewrite (@split_none "_" (T ++ ".dat")%string)
      by (rewrite has_char_app, (HT "_"%char Hus); reflexivity).
    cbn [skipn String.concat].
    change (T ++ ".dat")%string with (T ++ String "." "dat")%string.
    rewrite (split_first "." T "dat" (HT "."%char Hdot)). reflexivity. }
  split; [|split; [exact Hstr|]].
  - unfold generate_filename.
    rewrite <- !string_app_assoc. apply endswith_app. reflexivity.
  - rewrite Hstr. unfold strptime.
    rewrite (matches_needs_underscore T (HT "_"%char Hus)). reflexivity.
Qed.

Lemma generate_filename_prefix_without_underscore_witness :
  generate_filename (mk_datetime 2024 9 11 17 0 0) "scan"
    = "scan_20240911_170000.dat"%string /\
  endswith (generate_filename (mk_datetime 2024 9 11 17 0 0) "scan") ".dat" = true /\
  time_str_of (generate_filename (mk_datetime 2024 9 11 17 0 0) "scan")
    = (pad2 17 ++ pad2 0 ++ pad2 0)%string /\
  strptime (time_str_of (generate_filename (mk_datetime 2024 9 11 17 0 0) "scan"))
    = Raise ValueError.
Proof.
  split; [reflexivity|].
  apply (@generate_filename_prefix_without_underscore (mk_datetime 2024 9 11 17 0 0) "scan");
    reflexivity.
Defined.

(* ===================================================================== *)
(** ** Partial pressures of selected masses *)
(* ===================================================================== *)

Lemma axis_index_first_minimum (mass_axis : list Q) (i : Q) :
  mass_axis <> [] ->
  argmin (map (fun m => Qabs (m - i)) mass_axis) = Ok (axis_index mass_axis i) /\
  exists d, first_minimum (map (fun m => Qabs (m - i)) mass_axis)
                          (axis_index mass_axis i) d.
Proof.
  intros Hne.
  destruct (argmin_ok (l := map (fun m => Qabs (m - i)) mass_axis))
    as (k & d & Ha & Hmin).
  { destruct mass_axis; [congruence | discriminate]. }
  unfold axis_index. rewrite Ha. split; [reflexivity|]. exists d. exact Hmin.
Qed.

Lemma mapM_argmin (isotopes mass_axis : list Q) :
  mass_axis <> [] ->
  mapM (fun i => argmin (map (fun m => Qabs (m - i)) mass_axis)) isotopes
  = Ok (map (axis_index mass_axis) isotopes).
Proof.
  intros Hne. induction isotopes as [|i l IH]; cbn [mapM map]; [reflexivity|].
  destruct (axis_index_first_minimum i Hne) as [Ha _].
  rewrite Ha. cbn [Py.bind]. rewrite IH. reflexivity.
Qed.

Lemma axis_index_lt (mass_axis : list Q) (i : Q) :
  mass_axis <> [] -> (axis_index mass_axis i < List.length mass_axis)%nat.
Proof.
  intros Hne. destruct (axis_index_first_minimum i Hne) as [_ [d Hmin]].
  pose proof (first_minimum_lt_length Hmin) as H.
  rewrite length_map in H. exact H.
Qed.

Lemma get_partial_pressures_eq (isotopes mass_axis pressures : list Q) :
  isotopes <> [] ->
  mass_axis <> [] ->
  List.length pressures = List.length mass_axis ->
  get_partial_pressures isotopes mass_axis pressures
  = Ok (map (fun i => nth (axis_index mass_axis i) pressures 0) isotopes).
Proof.
  intros Hi Hm Hlen. unfold get_partial_pressures.
  rewrite (mapM_argmin isotopes Hm). cbn [Py.bind].
  destruct isotopes as [|i0 rest]; [congruence|].
  cbn [map].
  change (axis_index mass_axis i0 :: map (axis_index mass_axis) rest)
    with (map (axis_index mass_axis) (i0 :: rest)).
  rewrite (@mapM_getitem Q pressures (map (axis_index mass_axis) (i0 :: rest)) 0).
  - rewrite map_map. reflexivity.
  - apply Forall_map. apply Forall_forall. intros i _.
    rewrite Hlen. apply axis_index_lt. exact Hm.
Qed.

Lemma increasing_lt (l : list Q) :
  increasing l ->
  forall i j x y, (i < j)%nat -> nth_error l i = Some x -> nth_error l j = Some y -> x < y.
Proof.
  intros H. apply (StronglySorted_nth_error H).
Qed.

(** On a strictly increasing axis, the nearest position to a mass that
    is on the axis is the position of that mass. *)
Lemma axis_index_exact (mass_axis : list Q) (k : nat) (i : Q) :
  increasing mass_axis ->
  nth_error mass_axis k = Some i ->
  axis_index mass_axis i = k.
Proof.
  intros Hinc Hk.
  assert (Hne : mass_axis <> []) by (intros ->; destruct k; discriminate).
  destruct (axis_index_first_minimum i Hne) as [_ [d (Hn & Hle & Hfirst)]].
  set (idx := axis_index mass_axis i) in *.
  assert (Hdk : nth_error (map (fun m => Qabs (m - i)) mass_axis) k
                = Some (Qabs (i - i))).
  { rewrite nth_error_map, Hk. reflexivity. }
  assert (Hzero : Qabs (i - i) == 0).
  { setoid_replace (i - i) with 0 by ring. reflexivity. }
  rewrite nth_error_map in Hn.
  destruct (nth_error mass_axis idx) as [m|] eqn:Hm; [|discriminate Hn].
  cbn [option_map] in Hn. injection Hn as Hd.
  destruct (Nat.lt_trichotomy idx k) as [Hlt|[Heq|Hgt]]; [|exact Heq|].
  - exfalso. pose proof (increasing_lt Hinc Hlt Hm Hk) as Hmi.
    pose proof (Hle k _ Hdk) as H0. rewrite <- Hd, Hzero in H0.
    assert (Hpos : 0 < Qabs (m - i)).
    { apply Qabs_case; intros; lra. }
    apply (Qlt_not_le _ _ Hpos). exact H0.
  - exfalso. pose proof (Hfirst k _ Hgt Hdk) as H0.
    rewrite Hzero in H0. rewrite <- Hd in H0.
    pose proof (Qabs_nonneg (m - i)) as Hnn.
    apply (Qlt_not_le _ _ H0). exact Hnn.
Qed.

(** For masses that lie on a strictly increasing mass axis, as xenon
    124 to 136 do on an axis in steps of 1/20, [get_partial_pressures]
    returns exactly the pressures measured at those masses. *)
Theorem get_partial_pressures_on_axis (isotopes mass_axis pressures : list Q) :
  isotopes <> [] ->
  increasing mass_axis ->
  List.length pressures = List.length mass_axis ->
  Forall (fun i => In i mass_axis) isotopes ->
  exists partial_pressures,
    get_partial_pressures isotopes mass_axis pressures = Ok partial_pressures /\
    forall k i j, nth_error isotopes k = Some i -> nth_error mass_axis j = Some i ->
                  nth_error partial_pressures k = nth_error pressures j.
Proof.
  intros Hi Hinc Hlen Hon.
  assert (Hm : mass_axis <> []).
  { destruct isotopes as [|i0 rest]; [congruence|].
    inversion Hon as [|? ? Hin _]; subst. intros ->. destruct Hin. }
  eexists. split; [apply get_partial_pressures_eq; assumption|].
  intros k i j Hk Hj.
  rewrite nth_error_map, Hk. simpl.
  rewrite (@axis_index_exact mass_axis j i Hinc Hj). symmetry.
  apply nth_error_nth'. rewrite Hlen. apply nth_error_Some. congruence.
Qed.

Lemma get_partial_pressures_on_axis_witness :
  increasing [1; 2; 3; 4] /\
  exists partial_pressures,
    get_partial_pressures [2; 3] [1; 2; 3; 4] [10; 20; 30; 40] = Ok partial_pressures /\
    forall k i j, nth_error [2; 3] k = Some i -> nth_error [1; 2; 3; 4] j = Some i ->
                  nth_error partial_pressures k = nth_error [10; 20; 30; 40] j.
Proof.
  assert (Hinc : increasing [1; 2; 3; 4]).
  { repeat constructor; reflexivity. }
  split; [exact Hinc|].
  apply (@get_partial_pressures_on_axis [2; 3] [1; 2; 3; 4] [10; 20; 30; 40]).
  - discriminate.
  - exact Hinc.
  - reflexivity.
  - repeat constructor; simpl; tauto.
Defined.

(* ===================================================================== *)
(** ** Abundances *)
(* ===================================================================== *)

Lemma clamp_nonneg (p : Q) : 0 <= clamp p.
Proof.
  unfold clamp. destruct (Qlt_bool p 0) eqn:E; [apply Qle_refl|].
  apply Qlt_bool_false_iff. exact E.
Qed.

Lemma np_sum_nonneg (l : list Q) : Forall (Qle 0) l -> 0 <= np_sum l.
Proof.
  induction 1 as [|x l Hx _ IH]; simpl; [apply Qle_refl | lra].
Qed.

Lemma np_sum_ge (l : list Q) (x : Q) : Forall (Qle 0) l -> In x l -> x <= np_sum l.
Proof.
  induction 1 as [|y l Hy Hl IH]; intros Hin; [destruct Hin|].
  pose proof (@np_sum_nonneg l Hl) as Hs. simpl.
  destruct Hin as [<-|Hin]; [lra|]. specialize (IH Hin). lra.
Qed.

Lemma np_sum_scaled (l : list Q) (total : Q) :
  ~ total == 0 ->
  np_sum (map (fun p => p * 100 / total) l) == np_sum l * 100 / total.
Proof.
  intros Ht. induction l as [|p l IH]; simpl.
  - field. exact Ht.
  - rewrite IH. field. exact Ht.
Qed.

Lemma get_abundances_unfold (pressures : list Q) :
  get_abundances pressures =
  map (fun p => np_divide (p * 100) (np_sum (map clamp pressures))) (map clamp pressures).
Proof. reflexivity. Qed.



(** When no pressure is positive (as for an empty list), the total is
    zero and every abundance is not-a-number: zero over zero, never an
    infinity. *)
Theorem get_abundances_all_nan (pressures : list Q) :
  Forall (fun p => p <= 0) pressures ->
  get_abundances pressures = map (fun _ => quot_nan) pressures.
Proof.
  intros Hall. rewrite get_abundances_unfold.
  assert (Hz : Forall (fun c => c == 0) (map clamp pressures)).
  { apply Forall_map. eapply Forall_impl; [|exact Hall]. intros p Hp.
    cbv beta in Hp.
    unfold clamp. destruct (Qlt_bool p 0) eqn:E; [reflexivity|].
    apply Qlt_bool_false_iff in E. apply Qle_antisym; assumption. }
  assert (Hs : np_sum (map clamp pressures) == 0).
  { induction Hz as [|c l Hc _ IH]; simpl; [reflexivity|]. rewrite Hc, IH. reflexivity. }
  rewrite map_map. apply map_ext_in. intros p Hp.
  unfold np_divide.
  assert (E1 : Qeq_bool (np_sum (map clamp pressures)) 0 = true)
    by (apply Qeq_bool_iff; exact Hs).
  rewrite E1.
  assert (Hc : clamp p == 0).
  { rewrite Forall_forall in Hz. apply Hz. apply in_map. exact Hp. }
  assert (E2 : Qeq_bool (clamp p * 100) 0 = true).
  { apply Qeq_bool_iff. rewrite Hc. reflexivity. }
  rewrite E2. reflexivity.
Qed.

Lemma get_abundances_all_nan_witness :
  Forall (fun p => p <= 0) [0; -2] /\
  get_abundances [0; -2] = map (fun _ => quot_nan) [0; -2].
Proof.
  assert (H : Forall (fun p => p <= 0) [0; -2]).
  { repeat constructor; discriminate. }
  split; [exact H|].
  exact (@get_abundances_all_nan [0; -2] H).
Defined.

(* ===================================================================== *)
(** ** The two versions of [get_abundances] *)
(* ===================================================================== *)

(** On readings that are all non-negative, the stand-alone script and the
    task library compute the same abundances: they differ only in what
    they make of negative readings. *)
Theorem get_abundances_versions_agree (pressures : list Q) :
  Forall (Qle 0) pressures ->
  Srssamplescripts.get_abundances pressures = get_abundances pressures.
Proof.
  intros Hnn. rewrite get_abundances_unfold.
  assert (Hc : map clamp pressures = pressures).
  { induction Hnn as [|p l Hp _ IH]; simpl; [reflexivity|].
    rewrite IH. f_equal. unfold clamp.
    assert (E : Qlt_bool p 0 = false) by (apply Qlt_bool_false_iff; exact Hp).
    rewrite E. reflexivity. }
  rewrite Hc. reflexivity.
Qed.

Lemma get_abundances_versions_agree_witness :
  Forall (Qle 0) [1; 0; 3] /\
  Srssamplescripts.get_abundances [1; 0; 3] = get_abundances [1; 0; 3].
Proof.
  assert (H : Forall (Qle 0) [1; 0; 3]).
  { repeat constructor; discriminate. }
  split; [exact H|].
  exact (@get_abundances_versions_agree [1; 0; 3] H).
Defined.

(** With a negative reading they part: the script lets it count. *)
Example get_abundances_versions_differ :
  Srssamplescripts.get_abundances [-1; 2] = [quot_fin (-1 * 100 / (-1 + (2 + 0)));
                                             quot_fin (2 * 100 / (-1 + (2 + 0)))] /\
  get_abundances [-1; 2] = [quot_fin (0 * 100 / (0 + (2 + 0)));
                            quot_fin (2 * 100 / (0 + (2 + 0)))].
Proof. split; reflexivity. Qed.

(* ===================================================================== *)
(** ** The view of [plot_scan_zoom] *)
(* ===================================================================== *)

Lemma select_all_false {A : Type} (a : list A) (mask : list bool) :
  Forall (fun b => b = false) mask -> select a mask = [].
Proof.
  unfold select. intros H. revert a.
  induction H as [|b mask Hb _ IH]; intros [|x a]; simpl; try reflexivity.
  rewrite Hb. apply IH.
Qed.

(** A view with no grid mass in it cannot be drawn: the least pressure of
    nothing raises [ValueError]. *)
Theorem plot_scan_zoom_empty_view (self : OfflineAnalysis) (scan_index : nat)
  (x_min x_max : Q) (row : list float64) (t : datetime) :
  nth_error (interpolated_data self) scan_index = Some row ->
  nth_error (times self) scan_index = Some t ->
  List.length row = List.length (masses self) ->
  Forall (fun m => Qle_bool x_min m && Qle_bool m x_max = false) (masses self) ->
  plot_scan_zoom self scan_index x_min x_max = Raise ValueError.
Proof.
  intros Hrow Ht Hlen Hout. unfold plot_scan_zoom.
  apply getitem_ok in Hrow. apply getitem_ok in Ht. rewrite Hrow, Ht. cbn [Py.bind].
  rewrite boolean_index_select by (rewrite length_map; exact Hlen).
  cbn [Py.bind].
  rewrite select_all_false; [reflexivity|].
  apply Forall_map. exact Hout.
Qed.

Lemma plot_scan_zoom_empty_view_witness :
  Forall (fun m => Qle_bool 20 m && Qle_bool m 60 = false) (masses peak_loaded) /\
  plot_scan_zoom peak_loaded 0 20 60 = Raise ValueError.
Proof.
  assert (H : Forall (fun m => Qle_bool 20 m && Qle_bool m 60 = false)
                     (masses peak_loaded)).
  { repeat constructor. }
  split; [exact H|].
  apply (@plot_scan_zoom_empty_view peak_loaded 0%nat 20 60
           [fin 1; fin 2; fin 5; fin 9; fin 5; fin 2; fin 1]
           (mk_datetime 2024 9 17 10 0 0)); try reflexivity.
  exact H.
Defined.

Lemma fold_min_spec (l : list Q) (q : Q) :
  let m := fold_left (fun m v => if Qlt_bool v m then v else m) l q in
  In m (q :: l) /\ forall x, In x (q :: l) -> m <= x.
Proof.
  revert q. induction l as [|v l IH]; intros q; cbn [fold_left].
  - split; [left; reflexivity|]. intros x [<-|[]]. apply Qle_refl.
  - cbv zeta in IH.
    destruct (Qlt_bool v q) eqn:E.
    + apply Qlt_bool_iff in E. destruct (IH v) as [Hin Hle]. split.
      * right. exact Hin.
      * intros x [<-|Hx]; [|apply Hle; exact Hx].
        eapply Qle_trans; [apply Hle; left; reflexivity | apply Qlt_le_weak; exact E].
    + apply Qlt_bool_false_iff in E. destruct (IH q) as [Hin Hle]. split.
      * destruct Hin as [<-|Hin]; [left; reflexivity | right; right; exact Hin].
      * intros x [<-|[<-|Hx]].
        -- apply Hle. left. reflexivity.
        -- eapply Qle_trans; [apply Hle; left; reflexivity | exact E].
        -- apply Hle. right. exact Hx.
Qed.

Lemma fold_max_spec (l : list Q) (q : Q) :
  let m := fold_left (fun m v => if Qlt_bool m v then v else m) l q in
  In m (q :: l) /\ forall x, In x (q :: l) -> x <= m.
Proof.
  revert q. induction l as [|v l IH]; intros q; cbn [fold_left].
  - split; [left; reflexivity|]. intros x [<-|[]]. apply Qle_refl.
  - cbv zeta in IH.
    destruct (Qlt_bool q v) eqn:E.
    + apply Qlt_bool_iff in E. destruct (IH v) as [Hin Hle]. split.
      * right. exact Hin.
      * intros x [<-|Hx]; [|apply Hle; exact Hx].
        eapply Qle_trans; [apply Qlt_le_weak; exact E | apply Hle; left; reflexivity].
    + apply Qlt_bool_false_iff in E. destruct (IH q) as [Hin Hle]. split.
      * destruct Hin as [<-|Hin]; [left; reflexivity | right; right; exact Hin].
      * intros x [<-|[<-|Hx]].
        -- apply Hle. left. reflexivity.
        -- eapply Qle_trans; [exact E | apply Hle; left; reflexivity].
        -- apply Hle. right. exact Hx.
Qed.

Lemma finite_values_In (a : list float64) (q : Q) :
  In q (finite_values a) <-> In (fin q) a.
Proof.
  unfold finite_values. rewrite in_flat_map. split.
  - intros ([|x] & Hin & Hq); simpl in Hq; [contradiction|].
    destruct Hq as [<-|[]]. exact Hin.
  - intros Hin. exists (fin q). split; [exact Hin | left; reflexivity].
Qed.



(* ===================================================================== *)
(** ** The peak evolution plot of the two runs *)
(* ===================================================================== *)

Section PeakEvolutionLoop.

Variable gaussian_filter : list float64 -> Q -> list float64.
Variable find_peaks : list float64 -> Q -> Q -> list nat.
Variable self : OfflineAnalysis.
Variables mass window : Q.

Let step := peak_evolution_step gaussian_filter find_peaks self mass window.
Let sample := run_sample gaussian_filter find_peaks self mass window.

Lemma peak_step (st st' : run_series) (i : nat) (t : datetime) :
  nth_error (times self) i = Some t ->
  step st (i, t) = Ok st' ->
  ts_control_h st' = ts_control_h st ++ map fst (sample control_run i) /\
  ps_control st' = ps_control st ++ map snd (sample control_run i) /\
  ts_xenon_h st' = ts_xenon_h st ++ map fst (sample xenon_run i) /\
  ps_xenon st' = ps_xenon st ++ map snd (sample xenon_run i).
Proof.
  intros Ht H. unfold step, peak_evolution_step in H.
  unfold sample, run_sample. rewrite Ht.
  destruct (get_peakfound_pressure gaussian_filter find_peaks self mass i window)
    as [[[p m]|]|e]; cbn [Py.bind] in H.
  - unfold getitem in H.
    destruct (nth_error (labels self) i) as [[[|]|]|]; cbn [Py.bind] in H;
      try discriminate H; injection H as <-; cbn;
      rewrite ?app_nil_r; repeat split; reflexivity.
  - injection H as <-. cbn. rewrite !app_nil_r. repeat split; reflexivity.
  - discriminate H.
Qed.

Lemma peak_loop (l : list datetime) :
  forall a st st',
    (forall k t, nth_error l k = Some t -> nth_error (times self) (a + k) = Some t) ->
    for_each step (enumerate_from a l) st = Ok st' ->
    ts_control_h st' =
      ts_control_h st ++ map fst (flat_map (sample control_run) (seq a (List.length l))) /\
    ps_control st' =
      ps_control st ++ map snd (flat_map (sample control_run) (seq a (List.length l))) /\
    ts_xenon_h st' =
      ts_xenon_h st ++ map fst (flat_map (sample xenon_run) (seq a (List.length l))) /\
    ps_xenon st' =
      ps_xenon st ++ map snd (flat_map (sample xenon_run) (seq a (List.length l))).
Proof.
  induction l as [|t l IH]; intros a st st' Hl H.
  - injection H as <-. cbn. rewrite !app_nil_r. repeat split; reflexivity.
  - cbn [enumerate_from for_each] in H.
    destruct (step st (a, t)) as [st1|e] eqn:E1; [|discriminate H].
    cbn [Py.bind] in H.
    assert (Ht : nth_error (times self) a = Some t).
    { rewrite <- (Nat.add_0_r a). apply Hl. reflexivity. }
    destruct (@peak_step st st1 a t Ht E1) as (H1 & H2 & H3 & H4).
    destruct (IH (S a) st1 st') as (G1 & G2 & G3 & G4).
    + intros k u Hk. rewrite Nat.add_succ_l, <- Nat.add_succ_r. apply Hl. exact Hk.
    + exact H.
    + cbn [List.length seq flat_map]. rewrite !map_app, !app_assoc.
      rewrite <- H1, <- H2, <- H3, <- H4. repeat split; assumption.
Qed.

Lemma peak_loop_total (l : list datetime) :
  forall a st,
    (forall k, (k < List.length l)%nat ->
       is_ok (get_peakfound_pressure gaussian_filter find_peaks self mass (a + k) window)
         = true /\
       (a + k < List.length (labels self))%nat) ->
    is_ok (for_each step (enumerate_from a l) st) = true.
Proof.
  induction l as [|t l IH]; intros a st Hl; [reflexivity|].
  cbn [enumerate_from for_each].
  destruct (Hl O) as [Hg Hlab]; [cbn; lia|]. rewrite Nat.add_0_r in Hg, Hlab.
  assert (E : exists st1, step st (a, t) = Ok st1).
  { unfold step, peak_evolution_step.
    destruct (get_peakfound_pressure gaussian_filter find_peaks self mass a window)
      as [[[p m]|]|e]; [| |discriminate Hg]; cbn [Py.bind]; [|eexists; reflexivity].
    unfold getitem. apply nth_error_Some in Hlab.
    destruct (nth_error (labels self) a) as [[[|]|]|]; [| | |congruence];
      cbn [Py.bind]; eexists; reflexivity. }
  destruct E as [st1 ->]. cbn [Py.bind]. apply IH.
  intros k Hk. rewrite Nat.add_succ_l, <- Nat.add_succ_r. apply Hl. cbn. lia.
Qed.

End PeakEvolutionLoop.

Lemma map_fst_snd_length {A B : Type} (l : list (A * B)) :
  List.length (map fst l) = List.length (map snd l).
Proof. rewrite !length_map. reflexivity. Qed.

Lemma peakfound_series_eq
  (gaussian_filter : list float64 -> Q -> list float64)
  (find_peaks : list float64 -> Q -> Q -> list nat)
  (self : OfflineAnalysis) (mass window : Q) (ax : list artist) (label_gap : bool)
  (control xenon : option (list Q * list float64)) (ax' : list artist) :
  plot_mass_evolution_peakfound gaussian_filter find_peaks self mass ax window label_gap
    = Ok (control, xenon, ax') ->
  control =
    match run_samples gaussian_filter find_peaks self mass window control_run with
    | [] => None
    | cs => Some (map fst cs, map snd cs)
    end /\
  xenon =
    match run_samples gaussian_filter find_peaks self mass window xenon_run with
    | [] => None
    | (t0, p0) :: xs =>
        Some (compressed_times t0 0 (t0 :: map fst xs), p0 :: map snd xs)
    end /\
  (run_samples gaussian_filter find_peaks self mass window xenon_run = [] -> ax' = ax).
Proof.
  intros H. unfold plot_mass_evolution_peakfound in H.
  match type of H with
  | Py.bind ?c _ = _ => destruct c as [st|e] eqn:Erun; [|discriminate H]
  end.
  cbn [Py.bind] in H.
  destruct (@peak_loop gaussian_filter find_peaks self mass window (times self) O
              _ st (fun k t Hk => Hk) Erun) as (H1 & H2 & H3 & H4).
  cbn [ts_control_h ps_control ts_xenon_h ps_xenon app] in H1, H2, H3, H4.
  fold (run_samples gaussian_filter find_peaks self mass window control_run) in H1, H2.
  fold (run_samples gaussian_filter find_peaks self mass window xenon_run) in H3, H4.
  rewrite H1, H2, H3, H4 in H. clear H1 H2 H3 H4 Erun.
  assert (Hc : match map snd (run_samples gaussian_filter find_peaks self mass window
                                control_run) with
               | [] => None
               | _ :: _ =>
                   Some (map fst (run_samples gaussian_filter find_peaks self mass window
                                    control_run),
                         map snd (run_samples gaussian_filter find_peaks self mass window
                                    control_run))
               end
               = match run_samples gaussian_filter find_peaks self mass window
                         control_run with
                 | [] => None
                 | cs => Some (map fst cs, map snd cs)
                 end).
  { destruct (run_samples gaussian_filter find_peaks self mass window control_run);
      reflexivity. }
  rewrite Hc in H. clear Hc.
  destruct (run_samples gaussian_filter find_peaks self mass window xenon_run)
    as [|[t0 p0] xs].
  - cbn [map] in H. injection H as <- <- <-. repeat split.
  - cbn [map fst snd] in H.
    destruct (@handle_large_gaps_eq t0 (map fst xs) (p0 :: map snd xs) ax label_gap)
      as [ax1 Hg].
    { cbn [List.length]. f_equal. apply map_fst_snd_length. }
    rewrite Hg in H. cbn [Py.bind] in H. injection H as <- <- <-.
    repeat split. discriminate.
Qed.

(** *** Calendar arithmetic of [total_seconds] *)

Lemma days_before_year_next (y : Z) :
  (days_before_year (y + 1) = days_before_year y + 365 + (if is_leap y then 1 else 0))%Z.
Proof.
  unfold days_before_year, is_leap. cbv zeta.
  replace (y + 1 - 1)%Z with y by lia.
  destruct (Z.eqb_spec (y mod 4) 0), (Z.eqb_spec (y mod 100) 0), (Z.eqb_spec (y mod 400) 0);
    cbn [andb orb negb]; Z.to_euclidean_division_equations; lia.
Qed.

Lemma days_before_year_mono (y1 y2 : Z) :
  (y1 <= y2 -> days_before_year y1 <= days_before_year y2)%Z.
Proof.
  unfold days_before_year. cbv zeta. intros H.
  Z.to_euclidean_division_equations. lia.
Qed.

Ltac month_cases m :=
  let E := fresh "E" in
  assert (E : (m = 1 \/ m = 2 \/ m = 3 \/ m = 4 \/ m = 5 \/ m = 6 \/ m = 7 \/ m = 8 \/
               m = 9 \/ m = 10 \/ m = 11 \/ m = 12)%Z) by lia;
  destruct E as [E|[E|[E|[E|[E|[E|[E|[E|[E|[E|[E|E]]]]]]]]]]]; subst m.

Lemma day_of_year_bounds (y m d : Z) :
  (1 <= m <= 12 -> 1 <= d <= days_in_month y m ->
   1 <= days_before_month y m + d <= 365 + (if is_leap y then 1 else 0))%Z.
Proof.
  intros Hm Hd. unfold days_before_month, days_in_month in *.
  revert Hd. generalize (is_leap y). intros L Hd.
  month_cases m; destruct L; cbv -[Z.le Z.lt Z.add] in Hd |- *; lia.
Qed.

Lemma days_before_month_lt (y m1 m2 d : Z) :
  (1 <= m1 -> m1 < m2 -> m2 <= 12 -> 1 <= d <= days_in_month y m1 ->
   days_before_month y m1 + d <= days_before_month y m2)%Z.
Proof.
  intros H1 H2 H3 Hd. unfold days_before_month, days_in_month in *.
  revert Hd. generalize (is_leap y). intros L Hd.
  month_cases m1; month_cases m2; try lia; destruct L; cbv -[Z.le Z.lt Z.add] in Hd |- *; lia.
Qed.

Lemma toordinal_year_lt (a b : datetime) :
  valid a = true -> valid b = true ->
  (year a < year b -> toordinal a < toordinal b)%Z.
Proof.
  intros Ha Hb Hy.
  unfold valid in Ha, Hb. rewrite !andb_true_iff, !Z.leb_le in Ha, Hb.
  destruct Ha as (((((((((((A1 & A2) & A3) & A4) & A5) & A6) & _) & _) & _) & _) & _) & _).
  destruct Hb as (((((((((((B1 & B2) & B3) & B4) & B5) & B6) & _) & _) & _) & _) & _) & _).
  pose proof (@day_of_year_bounds (year a) (month a) (day a) (conj A3 A4) (conj A5 A6)) as Da.
  pose proof (@day_of_year_bounds (year b) (month b) (day b) (conj B3 B4) (conj B5 B6)) as Db.
  pose proof (days_before_year_next (year a)) as Hn.
  pose proof (@days_before_year_mono (year a + 1) (year b)) as Hm.
  unfold toordinal. lia.
Qed.

Lemma toordinal_month_lt (a b : datetime) :
  valid a = true -> valid b = true ->
  (year a = year b -> month a < month b -> toordinal a < toordinal b)%Z.
Proof.
  intros Ha Hb Hy Hm.
  unfold valid in Ha, Hb. rewrite !andb_true_iff, !Z.leb_le in Ha, Hb.
  destruct Ha as (((((((((((A1 & A2) & A3) & A4) & A5) & A6) & _) & _) & _) & _) & _) & _).
  destruct Hb as (((((((((((B1 & B2) & B3) & B4) & B5) & B6) & _) & _) & _) & _) & _) & _).
  pose proof (@days_before_month_lt (year a) (month a) (month b) (day a) A3 Hm B4
                (conj A5 A6)) as Hlt.
  unfold toordinal. rewrite <- Hy. lia.
Qed.

Lemma total_seconds_nonneg (a b : datetime) :
  valid a = true -> valid b = true -> leb a b = true ->
  (0 <= total_seconds b a)%Z.
Proof.
  intros Ha Hb Hle.
  pose proof (@toordinal_year_lt a b Ha Hb) as Hy.
  pose proof (@toordinal_month_lt a b Ha Hb) as Hm.
  destruct (valid_bounds a Ha) as (_ & _ & _ & Ah & Ami & As).
  destruct (valid_bounds b Hb) as (_ & _ & _ & Bh & Bmi & Bs).
  unfold leb, Datetime.compare, to_tuple in Hle. cbn [lex_compare] in Hle.
  unfold total_seconds.
  assert (Hd : (year a = year b -> month a = month b ->
                toordinal b - toordinal a = day b - day a)%Z).
  { intros E1 E2. unfold toordinal. rewrite E1, E2. lia. }
  destruct (Z.compare_spec (year a) (year b)) as [E1|L1|G1];
    [|specialize (Hy L1); lia|discriminate Hle].
  destruct (Z.compare_spec (month a) (month b)) as [E2|L2|G2];
    [|specialize (Hm E1 L2); lia|discriminate Hle].
  specialize (Hd E1 E2).
  destruct (Z.compare_spec (day a) (day b)) as [E3|L3|G3];
    [|lia|discriminate Hle].
  destruct (Z.compare_spec (hour a) (hour b)) as [E4|L4|G4];
    [|lia|discriminate Hle].
  destruct (Z.compare_spec (minute a) (minute b)) as [E5|L5|G5];
    [|lia|discriminate Hle].
  destruct (Z.compare_spec (second a) (second b)) as [E6|L6|G6];
    [lia|lia|discriminate Hle].
Qed.

Lemma total_seconds_diff (a b s : datetime) :
  (total_seconds b s - total_seconds a s = total_seconds b a)%Z.
Proof. unfold total_seconds. lia. Qed.

Lemma div64_le (a b c : Q) : 0 < c -> a <= b -> div64 a c <= div64 b c.
Proof.
  intros Hc H. unfold div64. apply round64_le.
  unfold Qdiv. apply Qmult_le_compat_r; [exact H|].
  apply Qlt_le_weak. apply Qinv_lt_0_compat. exact Hc.
Qed.

Lemma div64_nonneg (a c : Q) : 0 < c -> 0 <= a -> 0 <= div64 a c.
Proof.
  intros Hc H. unfold div64. apply round64_nonneg.
  unfold Qdiv. apply Qmult_le_0_compat; [exact H|].
  apply Qlt_le_weak. apply Qinv_lt_0_compat. exact Hc.
Qed.

Lemma hours_since_le (s a b : datetime) :
  (total_seconds a s <= total_seconds b s)%Z -> hours_since s a <= hours_since s b.
Proof.
  intros H. unfold hours_since. apply div64_le; [reflexivity|].
  apply round64_le. rewrite <- Zle_Qle. exact H.
Qed.

Lemma hours_since_nonneg (s a : datetime) :
  (0 <= total_seconds a s)%Z -> 0 <= hours_since s a.
Proof.
  intros H. unfold hours_since. apply div64_nonneg; [reflexivity|].
  apply round64_nonneg. change 0 with (inject_Z 0). rewrite <- Zle_Qle. exact H.
Qed.

Lemma hours_since_mono (s a b : datetime) :
  valid a = true -> valid b = true -> leb a b = true ->
  hours_since s a <= hours_since s b.
Proof.
  intros Ha Hb Hle. apply hours_since_le.
  pose proof (@total_seconds_nonneg a b Ha Hb Hle) as H.
  pose proof (total_seconds_diff a b s). lia.
Qed.

(* ===================================================================== *)
(** ** The plotted series of the two runs *)
(* ===================================================================== *)

(** What [plot_mass_evolution_peakfound] plots, whenever it returns: the
    control series holds, in scan order, the peak-window pressure of every
    scan labelled control that has a reading in the window, at the hours
    elapsed since the start of the control run, and is absent when there is
    no such scan; the xenon series holds the same for the scans labelled
    xenon, its pressures unchanged and its times compressed by the gap
    handling.  Scans with no label or no reading are never plotted. *)
Theorem plot_mass_evolution_peakfound_series
  (gaussian_filter : list float64 -> Q -> list float64)
  (find_peaks : list float64 -> Q -> Q -> list nat)
  (self : OfflineAnalysis) (mass window : Q) (ax : list artist) (label_gap : bool)
  (control xenon : option (list Q * list float64)) (ax' : list artist) :
  plot_mass_evolution_peakfound gaussian_filter find_peaks self mass ax window label_gap
    = Ok (control, xenon, ax') ->
  control =
    match run_samples gaussian_filter find_peaks self mass window control_run with
    | [] => None
    | cs => Some (map fst cs, map snd cs)
    end /\
  xenon =
    match run_samples gaussian_filter find_peaks self mass window xenon_run with
    | [] => None
    | (t0, p0) :: xs =>
        Some (compressed_times t0 0 (t0 :: map fst xs), p0 :: map snd xs)
    end /\
  (run_samples gaussian_filter find_peaks self mass window xenon_run = [] -> ax' = ax).
Proof. apply peakfound_series_eq. Qed.

Lemma plot_mass_evolution_peakfound_series_witness :
  exists control xenon ax',
    plot_mass_evolution_peakfound smooth3 local_maxima sample_loaded 2 [] 2 true
      = Ok (control, xenon, ax') /\
    control =
      match run_samples smooth3 local_maxima sample_loaded 2 2 control_run with
      | [] => None
      | cs => Some (map fst cs, map snd cs)
      end /\
    xenon =
      match run_samples smooth3 local_maxima sample_loaded 2 2 xenon_run with
      | [] => None
      | (t0, p0) :: xs =>
          Some (compressed_times t0 0 (t0 :: map fst xs), p0 :: map snd xs)
      end /\
    (run_samples smooth3 local_maxima sample_loaded 2 2 xenon_run = [] -> ax' = []).
Proof.
  destruct (plot_mass_evolution_peakfound smooth3 local_maxima sample_loaded 2 [] 2 true)
    as [[[control xenon] ax']|e] eqn:E.
  - exists control, xenon, ax'. split; [reflexivity|].
    exact (@plot_mass_evolution_peakfound_series smooth3 local_maxima sample_loaded
             2 2 [] true control xenon ax' E).
  - vm_compute in E. discriminate E.
Defined.

(** On the sample repository: the two scans of 11 September make the
    control series, 0.23333333333333334 hours after the start of the run;
    the two later ones make the xenon series, at 0.65 and 93.65 hours,
    whose gap, computed as 93 hours, is taken out and marked: the second
    time becomes 0.6500000000000057. *)
Example plot_mass_evolution_peakfound_sample :
  plot_mass_evolution_peakfound smooth3 local_maxima sample_loaded 2 [] 2 true
  = Ok (Some ([4203359652212463 # 18014398509481984;
               4203359652212463 # 18014398509481984], [fin 3; fin 7]),
        Some ([5854679515581645 # 9007199254740992;
               22869841857741 # 35184372088832], [fin 2; fin 8]),
        [axvline (5854679515581645 # 9007199254740992);
         text (3715469692580659 # 2251799813685248)
              (fin (2476979795053773 # 281474976710656))]).
Proof. vm_compute. reflexivity. Qed.

(** [plot_mass_evolution_peakfound] fails only where a peak-window
    extraction fails or a scan has no label entry: when every scan has a
    peak-window result and a label entry, the function returns.  In
    particular the gap handling, which is called on the xenon series only
    when it is not empty and always with one pressure per time, never
    raises here. *)
Theorem plot_mass_evolution_peakfound_total
  (gaussian_filter : list float64 -> Q -> list float64)
  (find_peaks : list float64 -> Q -> Q -> list nat)
  (self : OfflineAnalysis) (mass window : Q) (ax : list artist) (label_gap : bool) :
  (forall i, (i < List.length (times self))%nat ->
     is_ok (get_peakfound_pressure gaussian_filter find_peaks self mass i window) = true) ->
  (List.length (times self) <= List.length (labels self))%nat ->
  is_ok (plot_mass_evolution_peakfound gaussian_filter find_peaks self mass ax window
           label_gap) = true.
Proof.
  intros Hg Hlab. unfold plot_mass_evolution_peakfound.
  pose proof (@peak_loop_total gaussian_filter find_peaks self mass window (times self) O
                (mk_run_series [] [] [] [])) as Htot.
  unfold enumerate.
  destruct (for_each (peak_evolution_step gaussian_filter find_peaks self mass window)
              (enumerate_from 0 (times self)) (mk_run_series [] [] [] []))
    as [st|e] eqn:Erun.
  - cbn [Py.bind].
    destruct (@peak_loop gaussian_filter find_peaks self mass window (times self) O
                _ st (fun k t Hk => Hk) Erun) as (_ & _ & H3 & H4).
    cbn [ts_xenon_h ps_xenon app] in H3, H4. rewrite H3, H4.
    destruct (flat_map (run_sample gaussian_filter find_peaks self mass window xenon_run)
                (seq 0 (List.length (times self)))) as [|[t0 p0] xs].
    + reflexivity.
    + cbn [map fst snd].
      destruct (@handle_large_gaps_eq t0 (map fst xs) (p0 :: map snd xs) ax label_gap)
        as [ax1 ->].
      { cbn [List.length]. f_equal. apply map_fst_snd_length. }
      reflexivity.
  - assert (Hok : is_ok (Raise (A := run_series) e) = true).
    { apply Htot. intros k Hk. cbn [Nat.add]. split; [apply Hg; exact Hk | lia]. }
    discriminate Hok.
Qed.

Lemma plot_mass_evolution_peakfound_total_witness :
  (forall i, (i < List.length (times sample_loaded))%nat ->
     is_ok (get_peakfound_pressure smooth3 local_maxima sample_loaded 2 i 2) = true) /\
  (List.length (times sample_loaded) <= List.length (labels sample_loaded))%nat /\
  is_ok (plot_mass_evolution_peakfound smooth3 local_maxima sample_loaded 2 [] 2 true)
    = true.
Proof.
  assert (Hg : forall i, (i < List.length (times sample_loaded))%nat ->
     is_ok (get_peakfound_pressure smooth3 local_maxima sample_loaded 2 i 2) = true).
  { intros i Hi. do 4 (destruct i as [|i]; [vm_compute; reflexivity|]).
    change (List.length (times sample_loaded)) with 4%nat in Hi. lia. }
  assert (Hl : (List.length (times sample_loaded) <= List.length (labels sample_loaded))%nat).
  { change (4 <= 4)%nat. lia. }
  split; [exact Hg|]. split; [exact Hl|].
  exact (@plot_mass_evolution_peakfound_total smooth3 local_maxima sample_loaded 2 2 []
           true Hg Hl).
Defined.

(** *** Hours since the start of a run *)

Lemma label_eqb_eq (a b : run_label) : label_eqb a b = true -> a = b.
Proof. destruct a, b; simpl; congruence. Qed.

Lemma run_sample_inv gaussian_filter find_peaks self mass window lab i h p :
  In (h, p) (run_sample gaussian_filter find_peaks self mass window lab i) ->
  exists t m,
    nth_error (times self) i = Some t /\
    nth_error (labels self) i = Some (Some lab) /\
    get_peakfound_pressure gaussian_filter find_peaks self mass i window = Ok (Some (p, m)) /\
    h = hours_since (fst (run_intervals self lab)) t.
Proof.
  unfold run_sample.
  destruct (get_peakfound_pressure gaussian_filter find_peaks self mass i window)
    as [[[p' m]|]|e]; try (simpl; intros Hf; contradiction).
  destruct (nth_error (labels self) i) as [[l|]|]; try (simpl; intros Hf; contradiction).
  destruct (nth_error (times self) i) as [t|]; try (simpl; intros Hf; contradiction).
  destruct (label_eqb l lab) eqn:El; try (simpl; intros Hf; contradiction).
  apply label_eqb_eq in El. subst l.
  intros [H|Hf]; [|contradiction]. injection H as <- <-.
  exists t, m. repeat split; reflexivity.
Qed.

Lemma run_sample_one gaussian_filter find_peaks self mass window lab i :
  (List.length (run_sample gaussian_filter find_peaks self mass window lab i) <= 1)%nat.
Proof.
  unfold run_sample.
  destruct (get_peakfound_pressure gaussian_filter find_peaks self mass i window)
    as [[[p' m]|]|e]; simpl; try lia.
  destruct (nth_error (labels self) i) as [[l|]|]; simpl; try lia.
  destruct (nth_error (times self) i) as [t|]; simpl; try lia.
  destruct (label_eqb l lab); simpl; lia.
Qed.

Lemma hours_since_sorted (s : datetime) (ts : list datetime) :
  chronological ts -> Forall (fun t => valid t = true) ts ->
  StronglySorted Qle (map (hours_since s) ts).
Proof.
  intros Hs. induction Hs as [|t ts Hs IH Hall]; intros Hv; simpl; constructor.
  - apply IH. inversion Hv; assumption.
  - apply Forall_map. inversion Hv as [|? ? Ht Hts]; subst.
    rewrite Forall_forall in *. intros u Hu.
    apply hours_since_mono; [exact Ht | apply Hts; exact Hu | apply Hall; exact Hu].
Qed.

Lemma run_samples_sorted gaussian_filter find_peaks self mass window lab :
  chronological (times self) ->
  Forall (fun t => valid t = true) (times self) ->
  StronglySorted Qle
    (map fst (run_samples gaussian_filter find_peaks self mass window lab)).
Proof.
  intros Hs Hv. unfold run_samples. rewrite map_flat_map_fst.
  destruct (@picked_sorted Q Qle
              (map (hours_since (fst (run_intervals self lab))) (times self))
              (fun i => map fst (run_sample gaussian_filter find_peaks self mass window
                                   lab i)))
    with (k := List.length (times self)) (a := O) as (H & _ & _).
  - intros i x Hx. apply in_map_iff in Hx. destruct Hx as ([h p] & <- & Hin).
    destruct (run_sample_inv _ _ _ _ _ _ _ _ _ Hin) as (t & m & Ht & _ & _ & ->).
    rewrite nth_error_map, Ht. reflexivity.
  - intros i. rewrite length_map. apply run_sample_one.
  - apply hours_since_sorted; assumption.
  - exact H.
Qed.

Lemma assign_run_label_start (self : OfflineAnalysis) (t : datetime) (lab : run_label) :
  _assign_run_label self t = Some lab ->
  leb (fst (run_intervals self lab)) t = true.
Proof.
  unfold _assign_run_label.
  destruct (leb (fst (run_intervals self control_run)) t) eqn:E1;
    destruct (leb t (snd (run_intervals self control_run))) eqn:E2;
    destruct (leb (fst (run_intervals self xenon_run)) t) eqn:E3;
    destruct (leb t (snd (run_intervals self xenon_run))) eqn:E4;
    cbn [andb]; intros H; try discriminate H; injection H as <-; assumption.
Qed.

Lemma run_samples_nonneg gaussian_filter find_peaks self mass window lab :
  Forall (fun t => valid t = true) (times self) ->
  valid (fst (run_intervals self lab)) = true ->
  labels self = map (_assign_run_label self) (times self) ->
  Forall (Qle 0) (map fst (run_samples gaussian_filter find_peaks self mass window lab)).
Proof.
  intros Hv Hstart Hlab. apply Forall_forall. intros h Hh.
  apply in_map_iff in Hh. destruct Hh as ([h' p] & <- & Hin).
  unfold run_samples in Hin. apply in_flat_map in Hin. destruct Hin as (i & _ & Hi).
  destruct (run_sample_inv _ _ _ _ _ _ _ _ _ Hi) as (t & m & Ht & Hl & _ & ->).
  rewrite Hlab, nth_error_map, Ht in Hl. cbn [option_map] in Hl. injection Hl as Hl.
  apply assign_run_label_start in Hl.
  cbn [fst]. apply hours_since_nonneg. apply total_seconds_nonneg; [exact Hstart | | exact Hl].
  rewrite Forall_forall in Hv. apply Hv. eapply nth_error_In. exact Ht.
Qed.

Lemma strptime_valid (s : string) (d : datetime) : strptime s = Ok d -> valid d = true.
Proof.
  unfold strptime.
  destruct (matches s) as [|[d' rest] tl]; [discriminate|].
  destruct rest; [|discriminate].
  destruct (valid d') eqn:E; [|discriminate].
  intros H. injection H as <-. exact E.
Qed.

Lemma ingest_file_valid (self : OfflineAnalysis) (g : list Q) (f : dat_file)
  (r : scan_record) :
  ingest_file self g f = Ok r -> valid (fst (fst r)) = true.
Proof.
  unfold ingest_file.
  destruct (strptime (time_str_of (file_name f))) as [t|e] eqn:Et; simpl; [|discriminate].
  destruct (loadtxt (file_lines f)) as [a|e]; simpl; [|discriminate].
  destruct (column a 0) as [c0|e]; simpl; [|discriminate].
  destruct (column a 1) as [c1|e]; simpl; [|discriminate].
  destruct (interp1d c0 c1) as [fn|e]; simpl; [|discriminate].
  intros H. injection H as <-. simpl. eapply strptime_valid. exact Et.
Qed.

Lemma load_data_times_facts (self self' : OfflineAnalysis) (g : option (list Q)) :
  load_data self g = Ok self' ->
  chronological (times self') /\
  Forall (fun t => valid t = true) (times self') /\
  labels self' = map (_assign_run_label self') (times self') /\
  run_intervals self' = run_intervals self.
Proof.
  intros H. destruct (load_data_fields _ _ H) as (td & Hm & _ & ->). simpl.
  split; [exact (sort_by_timestamp_chronological td)|].
  split; [|split; [|reflexivity]].
  - apply Forall_map.
    assert (Htd : Forall (fun r : scan_record => valid (fst (fst r)) = true) td).
    { eapply mapM_Forall; [|exact Hm]. intros x r. apply ingest_file_valid. }
    eapply Permutation_Forall; [|exact Htd]. apply sort_perm.
  - assert (Htd : Forall (fun r => snd r = _assign_run_label self (fst (fst r))) td).
    { eapply mapM_Forall; [|exact Hm]. intros x r. apply ingest_file_label. }
    assert (Hs : Forall (fun r => snd r = _assign_run_label self (fst (fst r)))
                        (sort_by_timestamp td)).
    { eapply Permutation_Forall; [|exact Htd]. apply sort_perm. }
    generalize (sort_by_timestamp td) Hs. clear.
    intros l Hs. induction Hs as [|r l Hr _ IH]; simpl; [reflexivity|].
    rewrite Hr. f_equal. exact IH.
Qed.

Lemma hours_since_rounded (s t : datetime) : round64 (hours_since s t) = hours_since s t.
Proof. unfold hours_since, div64. apply round64_idem. Qed.

Lemma run_samples_rounded gaussian_filter find_peaks self mass window lab :
  Forall (fun h => round64 h = h)
         (map fst (run_samples gaussian_filter find_peaks self mass window lab)).
Proof.
  apply Forall_forall. intros h Hh.
  apply in_map_iff in Hh. destruct Hh as ([h' p] & <- & Hin).
  unfold run_samples in Hin. apply in_flat_map in Hin. destruct Hin as (i & _ & Hi).
  destruct (run_sample_inv _ _ _ _ _ _ _ _ _ Hi) as (t & m & _ & _ & _ & ->).
  apply hours_since_rounded.
Qed.

Lemma compressed_no_gap (t0 : Q) (l : list Q) :
  Forall (fun h => round64 h = h) (t0 :: l) ->
  steady t0 l ->
  compressed_times t0 0 (t0 :: l) = t0 :: l.
Proof.
  intros Hr Hs.
  assert (Hs' : steady t0 (t0 :: l)).
  { split; [|exact Hs]. rewrite sub64_self. discriminate. }
  pose proof (@compressed_steady t0 0 (t0 :: l) [] Hs') as H.
  rewrite !app_nil_r in H. rewrite H. clear H Hs Hs'.
  induction Hr as [|h r Hh _ IH]; [reflexivity|].
  cbn [map]. f_equal; [|exact IH].
  unfold sub64. rewrite <- Hh at 2. apply round64_proper. ring.
Qed.

Lemma compressed_head (t0 shift : Q) (l : list Q) :
  hd 0 (compressed_times t0 0 (t0 :: l)) = sub64 t0 0.
Proof.
  cbn [compressed_times hd]. rewrite sub64_self.
  replace (Qlt_bool gap_threshold 0) with false by reflexivity. reflexivity.
Qed.


